(** * Decentralized single-shot ridge regression: the aggregator (remote.py)

    A shallow embedding of [remote_1], [remote_2] and the dispatcher of
    [remote.py], and the properties of the specification proved on it.

    Conventions of the embedding.
    - Python exceptions are values of [exn]; fallible code lives in the
      error monad [result].
    - Numbers (the floats and integers of the payload and numpy's scalars)
      are an abstract type [num] with the arithmetic of the interpreter
      given by the class [Numeric]; nothing is assumed of the operations, so
      every theorem holds for IEEE doubles as well as for exact arithmetic.
      The concrete examples are evaluated on binary64 floats.
    - A nested list of numbers and the ndarray numpy builds from it are both
      values of [nd]; [np_array] checks that the nesting is rectangular, as
      numpy does, and [tolist] is the identity.
    - A dict is an association list in insertion order (the order Python
      iterates it in); keys are unique in a dict, so iterating over the keys
      and looking each one up visits the items in order.
    - [json.loads] and [json.dumps] are left out: the payload and the
      outputs are the structured values.  The helpers of [regression] and
      [ancillary] and [scipy.linalg.inv] are parameters; the two renderers,
      which return nothing, are recorded as events. *)

From Stdlib Require Import String List Bool Arith Lia.
From Stdlib Require Floats.PrimFloat.
Import ListNotations.
Local Open Scope string_scope.
Local Open Scope list_scope.

(** ** Exceptions and the error monad *)

Inductive exn : Type :=
| KeyError (key : string)
| IndexError
| TypeError
| ValueError (msg : string)
| AxisError
| ZeroDivisionError
| LinAlgError.

Inductive result (A : Type) : Type :=
| Ok (a : A)
| Err (e : exn).
Arguments Ok {A} a.
Arguments Err {A} e.

Definition bind {A B : Type} (c : result A) (k : A -> result B) : result B :=
  match c with
  | Ok a => k a
  | Err e => Err e
  end.

Notation "x <- c ;; k" := (bind c (fun x => k))
  (at level 61, c at next level, right associativity).

Fixpoint mapM {A B : Type} (f : A -> result B) (l : list A) : result (list B) :=
  match l with
  | [] => Ok []
  | x :: r => y <- f x ;; ys <- mapM f r ;; Ok (y :: ys)
  end.

Fixpoint all_some {A : Type} (l : list (option A)) : option (list A) :=
  match l with
  | [] => Some []
  | Some x :: r => option_map (cons x) (all_some r)
  | None :: _ => None
  end.

Definition olift2 {A : Type} (f : A -> A -> A) (o1 o2 : option A) : option A :=
  match o1, o2 with
  | Some x, Some y => Some (f x y)
  | _, _ => None
  end.

(** [d[key]] on a dict whose entry may be missing. *)
Definition getitem {A : Type} (key : string) (v : option A) : result A :=
  match v with
  | Some x => Ok x
  | None => Err (KeyError key)
  end.

(** ** Numbers *)

Class Numeric (num : Type) : Type := {
  of_nat : nat -> num;
  nadd : num -> num -> num;
  nsub : num -> num -> num;
  nmul : num -> num -> num;
  ndiv : num -> num -> num;
  nsqrt : num -> num
}.

(** ** Nested lists and ndarrays *)

Section Arrays.

Context {num : Type} {NumOps : Numeric num}.

#[warnings="-register-all"]
Inductive nd : Type :=
| Sc (x : num)
| Ar (l : list nd).

Fixpoint shape (a : nd) : list nat :=
  match a with
  | Sc _ => []
  | Ar l => length l :: match l with
                        | [] => []
                        | x :: _ => shape x
                        end
  end.

Definition ndim (a : nd) : nat := length (shape a).

Fixpoint shape_eqb (s t : list nat) : bool :=
  match s, t with
  | [], [] => true
  | m :: s', n :: t' => Nat.eqb m n && shape_eqb s' t'
  | _, _ => false
  end.

(** The nesting is rectangular: every item of a list is rectangular and
    has the shape of the first one. *)
Fixpoint rect (a : nd) : bool :=
  match a with
  | Sc _ => true
  | Ar l =>
      forallb rect l &&
      match l with
      | [] => true
      | x :: _ => forallb (fun y => shape_eqb (shape y) (shape x)) l
      end
  end.

(** [np.array(a)]: numpy (from 1.24 on) refuses a ragged nesting with a
    ValueError; the arrays of objects that earlier versions built
    instead are not modelled. *)
Definition np_array (a : nd) : result nd :=
  if rect a then Ok a
  else Err (ValueError "setting an array element with a sequence").

(** [a.tolist()] *)
Definition tolist (a : nd) : nd := a.

(** Element at a full index path. *)
Fixpoint nd_get (idx : list nat) (a : nd) : option num :=
  match idx, a with
  | [], Sc x => Some x
  | i :: idx', Ar l =>
      match nth_error l i with
      | Some b => nd_get idx' b
      | None => None
      end
  | _, _ => None
  end.

Fixpoint mapnd (f : num -> num) (a : nd) : nd :=
  match a with
  | Sc x => Sc (f x)
  | Ar l => Ar (map (mapnd f) l)
  end.

Fixpoint map2 {A B C : Type} (f : A -> B -> C) (l1 : list A) (l2 : list B)
  : list C :=
  match l1, l2 with
  | x :: r1, y :: r2 => f x y :: map2 f r1 r2
  | _, _ => []
  end.

(** Item by item on two arrays of one shape. *)
Fixpoint zipnd (f : num -> num -> num) (a b : nd) {struct a} : nd :=
  match a, b with
  | Sc x, Sc y => Sc (f x y)
  | Ar l1, Ar l2 =>
      Ar ((fix go (l1 l2 : list nd) {struct l1} : list nd :=
             match l1, l2 with
             | x :: r1, y :: r2 => zipnd f x y :: go r1 r2
             | _, _ => []
             end) l1 l2)
  | _, _ => Ar []
  end.

(** numpy's broadcasting of two shapes: ones are prepended to the shorter
    one, then the axes are matched one by one; two lengths match when they
    are equal or one of them is 1. *)
Definition bdim (m n : nat) : option nat :=
  if Nat.eqb m n then Some m
  else if Nat.eqb m 1 then Some n
  else if Nat.eqb n 1 then Some m
  else None.

Fixpoint bshape_aligned (s t : list nat) : option (list nat) :=
  match s, t with
  | [], [] => Some []
  | m :: s', n :: t' =>
      match bdim m n, bshape_aligned s' t' with
      | Some r, Some rs => Some (r :: rs)
      | _, _ => None
      end
  | _, _ => None
  end.

Definition pad (n : nat) (s : list nat) : list nat :=
  repeat 1 (n - length s) ++ s.

Definition bshape (s t : list nat) : option (list nat) :=
  let n := Nat.max (length s) (length t) in
  bshape_aligned (pad n s) (pad n t).

(** [np.broadcast_to(a, s)] for a shape [s] that [shape a] broadcasts to:
    missing leading axes are added, axes of length 1 are repeated. *)
Fixpoint expand (s : list nat) (a : nd) : nd :=
  match s with
  | [] => a
  | m :: s' =>
      if Nat.ltb (ndim a) (length s) then Ar (repeat (expand s' a) m)
      else
        match a with
        | Sc _ => a
        | Ar l =>
            if Nat.eqb (length l) m then Ar (map (expand s') l)
            else
              match l with
              | x :: _ => Ar (repeat (expand s' x) m)
              | [] => Ar []
              end
        end
  end.

(** A binary ufunc ([+], [-], [*], [/]) on two arrays. *)
Definition bcast2 (f : num -> num -> num) (a b : nd) : result nd :=
  match bshape (shape a) (shape b) with
  | Some s => Ok (zipnd f (expand s a) (expand s b))
  | None => Err (ValueError "operands could not be broadcast together")
  end.

(** [np.sum(a, axis=0)] of an array: the items of the first axis are
    added up in order.  (On a long one-dimensional array of floats numpy
    adds pairwise, which can differ in the last bits; the sums of the
    theorems below are the ones defined here.) *)
Definition sum_axis0 (a : nd) : result nd :=
  match a with
  | Sc _ => Err AxisError
  | Ar [] => Ok (Sc (of_nat 0))
  | Ar (x :: r) => Ok (fold_left (zipnd nadd) r x)
  end.

(** [np.sum(l, axis=0)] of a list of arrays. *)
Definition np_sum_axis0 (l : list nd) : result nd :=
  a <- np_array (Ar l) ;; sum_axis0 a.

(** [a.size]: the number of items, the product of the lengths of the
    axes. *)
Definition size (a : nd) : nat := fold_right Nat.mul 1 (shape a).

(** [np.average(l, axis=0)] without weights: the mean over the first
    axis, the sum divided by the number of items.  numpy then divides the
    size of the stacked array by the size of the mean, as Python integers:
    for arrays without any item this is [0 / 0], a ZeroDivisionError. *)
Definition np_average_axis0 (l : list nd) : result nd :=
  a <- np_array (Ar l) ;;
  s <- sum_axis0 a ;;
  let avg := mapnd (fun x => ndiv x (of_nat (length l))) s in
  if Nat.eqb (size avg) 0 then Err ZeroDivisionError else Ok avg.

(** The builtin [sum(l)]: [0 + l[0] + l[1] + ...]. *)
Fixpoint py_sum_from (acc : nd) (l : list nd) : result nd :=
  match l with
  | [] => Ok acc
  | a :: r => acc' <- bcast2 nadd acc a ;; py_sum_from acc' r
  end.

Definition py_sum (l : list nd) : result nd := py_sum_from (Sc (of_nat 0)) l.

(** [a.shape[k]] *)
Definition shape_at (k : nat) (a : nd) : result nat :=
  match nth_error (shape a) k with
  | Some n => Ok n
  | None => Err IndexError
  end.

(** [len(a)] of an ndarray *)
Definition nd_len (a : nd) : result nat :=
  match a with
  | Sc _ => Err TypeError
  | Ar l => Ok (length l)
  end.

(** [a[i]] of an ndarray, for [i >= 0] *)
Definition nd_getitem (a : nd) (i : nat) : result nd :=
  match a with
  | Sc _ => Err IndexError
  | Ar l => match nth_error l i with
            | Some b => Ok b
            | None => Err IndexError
            end
  end.

(** [v[i]] of a Python list (or of a number, which has no items) *)
Definition py_getitem (v : nd) (i : nat) : result nd :=
  match v with
  | Sc _ => Err TypeError
  | Ar l => match nth_error l i with
            | Some b => Ok b
            | None => Err IndexError
            end
  end.

Definition children (a : nd) : list nd :=
  match a with
  | Sc _ => []
  | Ar l => l
  end.

(** The items [a[k][k]] for [k = from, from+1, ...] *)
Fixpoint diag_entries (rows : list nd) (k : nat) : list nd :=
  match rows with
  | [] => []
  | r :: rest =>
      match nth_error (children r) k with
      | Some d => d :: diag_entries rest (S k)
      | None => []
      end
  end.

(** Arrays [ds] of one shape [s] put side by side along a new last axis. *)
Fixpoint move_last (s : list nat) (ds : list nd) : nd :=
  match s with
  | [] => Ar ds
  | n :: s' =>
      Ar (map (fun j => move_last s' (map (fun d => nth j (children d) d) ds))
              (seq 0 n))
  end.

(** [a.diagonal()]: the diagonal over the first two axes, as the last axis
    of the result. *)
Definition diagonal (a : nd) : result nd :=
  match a with
  | Ar (Ar cols :: rows) =>
      let ds := diag_entries (Ar cols :: rows) 0 in
      Ok (move_last (match ds with [] => [] | d :: _ => shape d end) ds)
  | _ => Err (ValueError "diag requires an array of at least two dimensions")
  end.

(** *** Reading arrays item by item (used to state the properties) *)

(** The items at index [idx] of the arrays [l], when each has one. *)
Definition elements (idx : list nat) (l : list nd) : option (list num) :=
  all_some (map (nd_get idx) l).

(** [x1 + x2 + ... + xn], added in order ([np.sum] of a column). *)
Definition total (xs : list num) : num :=
  match xs with
  | [] => of_nat 0
  | x :: r => fold_left nadd r x
  end.

(** [0 + x1 + x2 + ... + xn] (the builtin [sum] of a column). *)
Definition total_from_zero (xs : list num) : num :=
  fold_left nadd xs (of_nat 0).

(** The shape all items of a rectangular list share. *)
Definition item_shape (l : list nd) : list nat :=
  match l with
  | [] => []
  | x :: _ => shape x
  end.

(** The arrays all have one shape. *)
Definition same_shape (l : list nd) : Prop :=
  forall x y, In x l -> In y l -> shape x = shape y.

(** [t] is the item-by-item sum of the arrays [l]. *)
Definition elementwise_sum (l : list nd) (t : nd) : Prop :=
  forall idx : list nat,
    nd_get idx t = option_map total_from_zero (elements idx l).

(** The shape [sa] broadcasts to the shape [s]: aligned at the last axis,
    every length of [sa] is the one of [s] or 1. *)
Fixpoint broadcasts_to (sa s : list nat) : bool :=
  match s with
  | [] => match sa with [] => true | _ :: _ => false end
  | e :: s' =>
      if Nat.ltb (length sa) (length s) then broadcasts_to sa s'
      else match sa with
           | d :: sa' => (Nat.eqb d e || Nat.eqb d 1) && broadcasts_to sa' s'
           | [] => false
           end
  end.

(** No axis before the last one has length 0 (a nested list cannot show
    what follows an empty axis). *)
Fixpoint proper (s : list nat) : Prop :=
  match s with
  | [] => True
  | d :: s' => (d = 0 -> s' = []) /\ proper s'
  end.

(** [t] is the item-by-item sum of the arrays [l] once they are broadcast
    to the shape of [t], which each of them broadcasts to. *)
Definition broadcast_sum (l : list nd) (t : nd) : Prop :=
  Forall (fun a => broadcasts_to (shape a) (shape t) = true) l /\
  elementwise_sum (map (expand (shape t)) l) t.

End Arrays.

Arguments nd num : clear implicits.

(** ** Payloads, cache and outputs *)

Definition dict (V : Type) : Type := list (string * V).

Definition keys {V : Type} (d : dict V) : list string := map fst d.
Definition values {V : Type} (d : dict V) : list V := map snd d.

Section Remote.

Context {num : Type} {NumOps : Numeric num}.

(** [blob]: a site's local statistics ("local_stats_dict"), never looked
    into.  [artifact]: what [encode_png] hands back for the output. *)
Context {blob : Type} {artifact : Type}.

(** One site's record of the payload: a dict, any key of which may be
    missing.  The first seven keys are sent in phase 1, the last three in
    phase 2, "computation_phase" in both. *)
Record site : Type := {
  computation_phase : option string;
  X_labels : option (list string);
  y_labels : option (list string);
  local_stats_dict : option blob;
  beta_vector_local : option (nd num);
  mean_y_local : option (nd num);
  count_local : option (nd num);
  SSE_local : option (nd num);
  SST_local : option (nd num);
  varX_matrix_local : option (nd num)
}.

(** [args["cache"]]: empty in phase 1, what [remote_1] returned in phase 2. *)
Record cache_dict : Type := {
  cache_avg_beta_vector : option (nd num);
  cache_mean_y_global : option (nd num);
  cache_dof_global : option (nd num);
  cache_X_labels : option (list string);
  cache_y_labels : option (list string);
  cache_local_stats_dict : option (list blob)
}.

Definition empty_cache : cache_dict :=
  {| cache_avg_beta_vector := None; cache_mean_y_global := None;
     cache_dof_global := None; cache_X_labels := None;
     cache_y_labels := None; cache_local_stats_dict := None |}.

Record args : Type := {
  input : dict site;
  cache : cache_dict
}.

Record output_dict_1 : Type := {
  out_avg_beta_vector : nd num;
  out_mean_y_global : nd num;
  out_computation_phase : string
}.

Record computation_output_1 : Type := {
  output_1 : output_dict_1;
  cache_1 : cache_dict
}.

Record output_dict_2 : Type := {
  global_stats : artifact;
  local_stats : dict blob
}.

Record computation_output_2 : Type := {
  output_2 : output_dict_2;
  success : bool
}.

(** ** Collaborators outside remote.py *)

(** [scipy.linalg.inv] *)
Variable linalg_inv : nd num -> result (nd num).

(** [reg.t_to_p(ts, dof)] *)
Variable t_to_p : nd num -> nd num -> nd num.

(** [reg.list_recursive(parsed_args, key)], as a list *)
Variable list_recursive : args -> string -> list string.

(** [ancillary.encode_png(args)] *)
Variable encode_png : args -> artifact.

(** What the process does to the outside: the two rendering calls of
    [ancillary], which return nothing, and the write to stdout. *)
Inductive event : Type :=
| print_pvals (a : args) (ps_global ts_global : list (nd num))
              (labels : list string)
| print_beta_images (a : args) (avg_beta : nd num) (labels : list string)
| stdout_write_1 (o : computation_output_1)
| stdout_write_2 (o : computation_output_2).

(** Code with effects: the events so far, and a value or the exception
    that ended the run. *)
Definition M (A : Type) : Type := (list event * result A)%type.

Definition ret {A : Type} (x : A) : M A := ([], Ok x).

Definition raise {A : Type} (e : exn) : M A := ([], Err e).

Definition lift {A : Type} (c : result A) : M A := ([], c).

Definition emit (ev : event) : M unit := ([ev], Ok tt).

Definition bindM {A B : Type} (c : M A) (k : A -> M B) : M B :=
  match c with
  | (evs, Ok x) => let (evs', r) := k x in (evs ++ evs', r)
  | (evs, Err e) => (evs, Err e)
  end.

Notation "x <~ c ;; k" := (bindM c (fun x => k))
  (at level 61, c at next level, right associativity).

(** ** remote_1 *)

(** [list(d)[0]] with its record *)
Definition first_item {V : Type} (d : dict V) : result (string * V) :=
  match d with
  | [] => Err IndexError
  | kv :: _ => Ok kv
  end.

Definition remote_1 (a : args) : result computation_output_1 :=
  let input_list := input a in
  user <- first_item input_list ;;
  let userId := fst user in
  Xl <- getitem "X_labels" (X_labels (snd user)) ;;
  yl <- getitem "y_labels" (y_labels (snd user)) ;;
  all_local_stats_dicts <-
    mapM (fun s => getitem "local_stats_dict" (local_stats_dict s))
         (values input_list) ;;
  betas <-
    mapM (fun s => b <- getitem "beta_vector_local" (beta_vector_local s) ;;
                   np_array b)
         (values input_list) ;;
  avg_beta_vector <- np_average_axis0 betas ;;
  mean_y_local_list <-
    mapM (fun s => getitem "mean_y_local" (mean_y_local s))
         (values input_list) ;;
  count_y_local <-
    mapM (fun s => c <- getitem "count_local" (count_local s) ;; np_array c)
         (values input_list) ;;
  means <- np_array (Ar mean_y_local_list) ;;
  counts <- np_array (Ar count_y_local) ;;
  weighted <- bcast2 nmul means counts ;;
  weighted_sum <- sum_axis0 weighted ;;
  count_sum <- np_sum_axis0 count_y_local ;;
  mean_y_global <- bcast2 ndiv weighted_sum count_sum ;;
  count_total <- py_sum count_y_local ;;
  p <- shape_at 1 avg_beta_vector ;;
  dof_global <- bcast2 nsub count_total (Sc (of_nat p)) ;;
  let output_dict :=
    {| out_avg_beta_vector := tolist avg_beta_vector;
       out_mean_y_global := tolist mean_y_global;
       out_computation_phase := "remote_1" |} in
  let cache_dict :=
    {| cache_avg_beta_vector := Some (tolist avg_beta_vector);
       cache_mean_y_global := Some (tolist mean_y_global);
       cache_dof_global := Some (tolist dof_global);
       cache_X_labels := Some Xl;
       cache_y_labels := Some yl;
       cache_local_stats_dict := Some all_local_stats_dicts |} in
  Ok {| output_1 := output_dict; cache_1 := cache_dict |}.

(** ** remote_2 *)

(** [sum([np.array(input_list[site][key]) for site in input_list])] *)
Definition sum_over_sites (key : string) (field : site -> option (nd num))
    (input_list : dict site) : result (nd num) :=
  arrays <- mapM (fun s => x <- getitem key (field s) ;; np_array x)
                 (values input_list) ;;
  py_sum arrays.

(** [x / y] for the two totals: with no site at all both are the integer 0
    the builtin [sum] starts from, and Python refuses to divide them. *)
Definition divide_totals (input_list : dict site) (x y : nd num)
  : result (nd num) :=
  match input_list with
  | [] => Err ZeroDivisionError
  | _ :: _ => bcast2 ndiv x y
  end.

(** One round of the loop over the output dimensions: [ts] and [ps] for
    dimension [i]. *)
Definition t_and_p (MSE varX_matrix_global avg_beta_vector dof_global : nd num)
    (i : nat) : result (nd num * nd num) :=
  MSE_i <- nd_getitem MSE i ;;
  inverse <- linalg_inv varX_matrix_global ;;
  var_covar_beta_global <- bcast2 nmul MSE_i inverse ;;
  d <- diagonal var_covar_beta_global ;;
  let se_beta_global := mapnd nsqrt d in
  beta_i <- py_getitem avg_beta_vector i ;;
  beta_i_array <- np_array beta_i ;;
  quotient <- bcast2 ndiv beta_i_array se_beta_global ;;
  let ts := tolist quotient in
  dof_i <- py_getitem dof_global i ;;
  let ps := t_to_p ts dof_i in
  Ok (ts, ps).

Definition remote_2 (a : args) : M computation_output_2 :=
  let input_list := input a in
  let cache_list := cache a in
  Xl <~ lift (getitem "X_labels" (cache_X_labels (cache a))) ;;
  all_local_stats_dicts <~
    lift (getitem "local_stats_dict" (cache_local_stats_dict (cache a))) ;;
  avg_beta_vector <~
    lift (getitem "avg_beta_vector" (cache_avg_beta_vector cache_list)) ;;
  dof_global <~ lift (getitem "dof_global" (cache_dof_global cache_list)) ;;
  SSE_global <~ lift (sum_over_sites "SSE_local" SSE_local input_list) ;;
  SST_global <~ lift (sum_over_sites "SST_local" SST_local input_list) ;;
  varX_matrix_global <~
    lift (sum_over_sites "varX_matrix_local" varX_matrix_local input_list) ;;
  ratio <~ lift (divide_totals input_list SSE_global SST_global) ;;
  r_squared_global <~ lift (bcast2 nsub (Sc (of_nat 1)) ratio) ;;
  dof_array <~ lift (np_array dof_global) ;;
  MSE <~ lift (bcast2 ndiv SSE_global dof_array) ;;
  n <~ lift (nd_len MSE) ;;
  tps <~ lift (mapM (t_and_p MSE varX_matrix_global avg_beta_vector dof_global)
                    (seq 0 n)) ;;
  let ts_global := map fst tps in
  let ps_global := map snd tps in
  _ <~ emit (print_pvals a ps_global ts_global Xl) ;;
  _ <~ emit (print_beta_images a avg_beta_vector Xl) ;;
  let sites := keys input_list in
  let all_local_stats_dicts := combine sites all_local_stats_dicts in
  let global_dict_list := encode_png a in
  let output_dict :=
    {| global_stats := global_dict_list;
       local_stats := all_local_stats_dicts |} in
  ret {| output_2 := output_dict; success := true |}.

(** *** Notions used to state the properties of [remote_2] *)

(** What a site sends in phase 2. *)
Definition phase_2_fields (s : site)
  : option (nd num) * option (nd num) * option (nd num) :=
  (SSE_local s, SST_local s, varX_matrix_local s).

(** The values [remote_2] computes before it calls the renderers: the
    labels, the sites' statistics, the coefficients and the degrees of
    freedom read from the cache, and [(ts, ps)] for every output
    dimension. *)
Definition remote_2_values (a : args)
  : result (list string * list blob * nd num * nd num * list (nd num * nd num)) :=
  Xl <- getitem "X_labels" (cache_X_labels (cache a)) ;;
  stats <- getitem "local_stats_dict" (cache_local_stats_dict (cache a)) ;;
  avg_beta_vector <-
    getitem "avg_beta_vector" (cache_avg_beta_vector (cache a)) ;;
  dof_global <- getitem "dof_global" (cache_dof_global (cache a)) ;;
  SSE_global <- sum_over_sites "SSE_local" SSE_local (input a) ;;
  SST_global <- sum_over_sites "SST_local" SST_local (input a) ;;
  varX_matrix_global <-
    sum_over_sites "varX_matrix_local" varX_matrix_local (input a) ;;
  ratio <- divide_totals (input a) SSE_global SST_global ;;
  r_squared_global <- bcast2 nsub (Sc (of_nat 1)) ratio ;;
  dof_array <- np_array dof_global ;;
  MSE <- bcast2 ndiv SSE_global dof_array ;;
  n <- nd_len MSE ;;
  tps <- mapM (t_and_p MSE varX_matrix_global avg_beta_vector dof_global)
              (seq 0 n) ;;
  Ok (Xl, stats, avg_beta_vector, dof_global, tps).

(** What [remote_1] reads of a site's record. *)
Definition phase_1_fields (s : site)
  : option blob * option (nd num) * option (nd num) * option (nd num) :=
  (local_stats_dict s, beta_vector_local s, mean_y_local s, count_local s).

(** ** The dispatcher *)

Definition main (parsed_args : args) : M unit :=
  let phase_key := list_recursive parsed_args "computation_phase" in
  if existsb (String.eqb "local_1") phase_key then
    computation_output <~ lift (remote_1 parsed_args) ;;
    emit (stdout_write_1 computation_output)
  else if existsb (String.eqb "local_2") phase_key then
    computation_output <~ remote_2 parsed_args ;;
    emit (stdout_write_2 computation_output)
  else
    raise (ValueError "Error occurred at Remote").

(** The event is a write to stdout. *)
Definition is_stdout_write (ev : event) : bool :=
  match ev with
  | stdout_write_1 _ | stdout_write_2 _ => true
  | print_pvals _ _ _ _ | print_beta_images _ _ _ => false
  end.

End Remote.

Arguments site num blob : clear implicits.
Arguments cache_dict num blob : clear implicits.
Arguments args num blob : clear implicits.
Arguments event num blob artifact : clear implicits.
Arguments M num blob artifact A : clear implicits.
Arguments computation_output_1 num blob : clear implicits.
Arguments output_dict_1 num : clear implicits.
Arguments computation_output_2 blob artifact : clear implicits.
Arguments output_dict_2 blob artifact : clear implicits.

(** ** A concrete interpreter for the examples: binary64 floats *)

Fixpoint float_of_nat (n : nat) : PrimFloat.float :=
  match n with
  | O => PrimFloat.zero
  | S k => PrimFloat.add (float_of_nat k) PrimFloat.one
  end.

#[export] Instance float_numeric : Numeric PrimFloat.float := {|
  of_nat := float_of_nat;
  nadd := PrimFloat.add;
  nsub := PrimFloat.sub;
  nmul := PrimFloat.mul;
  ndiv := PrimFloat.div;
  nsqrt := PrimFloat.sqrt
|}.

(** An inverse for the examples, by cofactors (Cramer's rule): ValueError
    unless the argument is a square matrix, LinAlgError when its
    determinant is zero. *)
Section Cofactors.

Context {num : Type} {NumOps : Numeric num}.
Variable is_zero : num -> bool.

Definition remove_nth {A : Type} (k : nat) (l : list A) : list A :=
  firstn k l ++ skipn (S k) l.

Definition signed (k : nat) (x : num) : num :=
  if Nat.even k then x else nsub (of_nat 0) x.

(** Laplace expansion along the first row; [n] is the number of rows. *)
Fixpoint det (n : nat) (m : list (list num)) : num :=
  match n, m with
  | S n', row :: rest =>
      fold_left
        (fun acc jx =>
           nadd acc (signed (fst jx)
                       (nmul (snd jx) (det n' (map (remove_nth (fst jx)) rest)))))
        (combine (seq 0 (length row)) row) (of_nat 0)
  | _, _ => of_nat 1
  end.

Definition cofactor (n i j : nat) (m : list (list num)) : num :=
  signed (i + j) (det (pred n) (map (remove_nth j) (remove_nth i m))).

Definition scalar_of (a : nd num) : option num :=
  match a with
  | Sc x => Some x
  | Ar _ => None
  end.

(** The rows of a square matrix with at least one row. *)
Definition square_rows (a : nd num) : option (list (list num)) :=
  match a with
  | Ar (r :: rs) =>
      if rect a && shape_eqb (shape a) [length (r :: rs); length (r :: rs)]
      then all_some (map (fun row => all_some (map scalar_of (children row)))
                         (r :: rs))
      else None
  | _ => None
  end.

Definition inv_by_cofactors (a : nd num) : result (nd num) :=
  match square_rows a with
  | None => Err (ValueError "expected square matrix")
  | Some m =>
      let n := length m in
      let d := det n m in
      if is_zero d then Err LinAlgError
      else Ok (Ar (map (fun i =>
                     Ar (map (fun j => Sc (ndiv (cofactor n j i m) d))
                             (seq 0 n)))
                   (seq 0 n)))
  end.

End Cofactors.

Definition float_inv : nd PrimFloat.float -> result (nd PrimFloat.float) :=
  inv_by_cofactors (fun x => PrimFloat.eqb x PrimFloat.zero).

(** Gaussian elimination with partial pivoting on the rows of a matrix,
    in binary64: the pivots in the order they are chosen, or [None] when
    the largest candidate of a column is exactly zero.  This is the test
    for singularity of a factorization by rows: only an exactly zero
    pivot shows.  It is used in the examples to look at a singular matrix
    the way such a factorization sees it. *)
Section Elimination.

Import PrimFloat.

(** The position, from [k] on, of the row with the largest first entry in
    absolute value (the first one among equals). *)
Fixpoint pivot_position (rows : list (list float)) (k best : nat)
    (largest : float) : nat :=
  match rows with
  | [] => best
  | r :: rest =>
      let x := abs (hd zero r) in
      if ltb largest x then pivot_position rest (S k) k x
      else pivot_position rest (S k) best largest
  end.

(** The rows with the first row and row [k] exchanged. *)
Definition swap_first (k : nat) (rows : list (list float))
  : list (list float) :=
  match k, rows with
  | S k', r0 :: rest =>
      match nth_error rest k' with
      | Some rk => rk :: firstn k' rest ++ r0 :: skipn (S k') rest
      | None => rows
      end
  | _, _ => rows
  end.

Fixpoint gauss_pivots (n : nat) (rows : list (list float))
  : option (list float) :=
  match n with
  | O => Some []
  | S n' =>
      match rows with
      | [] => Some []
      | r0 :: rest =>
          let k := pivot_position rest 1 0 (abs (hd zero r0)) in
          match swap_first k rows with
          | (p :: ptail) :: others =>
              if eqb p zero then None
              else
                let reduce (r : list float) :=
                  match r with
                  | [] => []
                  | x :: t =>
                      map2 (fun a b => sub a (mul (div x p) b)) t ptail
                  end in
                match gauss_pivots n' (map reduce others) with
                | Some ps => Some (p :: ps)
                | None => None
                end
          | _ => Some []
          end
      end
  end.

End Elimination.

(** ** Example payloads *)

Module Examples.

Import PrimFloat.
Local Open Scope float_scope.

Definition fnd : Type := nd float.
Definition fsite : Type := site float string.
Definition fargs : Type := args float string.

(** Modelled from the spec: [reg.list_recursive] is not part of remote.py;
    the spec has it extract the "computation_phase" tag nested under each
    site's record.  Here: the tags of the sites, in order. *)
Definition site_tags (a : fargs) (key : string) : list string :=
  if String.eqb key "computation_phase" then
    flat_map (fun s => match computation_phase s with
                       | Some t => [t]
                       | None => []
                       end) (values (input a))
  else [].

(** The theorems hold for every [t_to_p] and [encode_png]; to run the
    examples these two stand in for them. *)
Definition sample_t_to_p (ts dof : fnd) : fnd := mapnd (fun _ => 0) ts.
Definition sample_encode_png (a : fargs) : string := "global_stats.png".

Definition run_remote_2 (a : fargs)
  : M float string string (computation_output_2 string string) :=
  remote_2 float_inv sample_t_to_p sample_encode_png a.

Definition run_main (a : fargs) : M float string string unit :=
  main float_inv sample_t_to_p site_tags sample_encode_png a.

Definition vec (l : list float) : fnd := Ar (map Sc l).
Definition mat (l : list (list float)) : fnd := Ar (map vec l).

Definition site_1 (stats : string) (beta mean count : fnd) : fsite :=
  {| computation_phase := Some "local_1";
     X_labels := Some ["const"; "age"];
     y_labels := Some ["voxel_0"];
     local_stats_dict := Some stats;
     beta_vector_local := Some beta;
     mean_y_local := Some mean;
     count_local := Some count;
     SSE_local := None; SST_local := None; varX_matrix_local := None |}.

Definition site_2 (sse sst varX : fnd) : fsite :=
  {| computation_phase := Some "local_2";
     X_labels := None; y_labels := None; local_stats_dict := None;
     beta_vector_local := None; mean_y_local := None; count_local := None;
     SSE_local := Some sse; SST_local := Some sst;
     varX_matrix_local := Some varX |}.

Definition phase_1 (sites : dict fsite) : fargs :=
  {| input := sites; cache := empty_cache |}.

(** Two sites, scalar mean and count: mean 2.0 / count 10 and
    mean 4.0 / count 30, two coefficients. *)
Definition scalar_payload : fargs :=
  phase_1 [("site_A", site_1 "stats of A" (mat [[1; 2]]) (Sc 2) (Sc 10));
           ("site_B", site_1 "stats of B" (mat [[3; 6]]) (Sc 4) (Sc 30))].

(** The same two sites, one mean and one count per output dimension. *)
Definition payload_1 : fargs :=
  phase_1 [("site_A", site_1 "stats of A" (mat [[1; 2]]) (vec [2]) (vec [10]));
           ("site_B", site_1 "stats of B" (mat [[3; 6]]) (vec [4]) (vec [30]))].

(** Two output dimensions with one count for the whole site, as the
    docstring of [remote_1] has it ("mean_y_local": list, "count_local":
    int). *)
Definition int_count_payload : fargs :=
  phase_1 [("site_A", site_1 "stats of A" (mat [[1; 2]; [1; 2]])
                             (vec [0; 1]) (Sc 10));
           ("site_B", site_1 "stats of B" (mat [[3; 6]; [3; 6]])
                             (vec [0; 0]) (Sc 30))].

(** Coefficients nested three deep. *)
Definition deep_payload : fargs :=
  phase_1 [("site_A", site_1 "stats of A" (Ar [mat [[1; 2]]]) (Sc 2) (Sc 10))].

(** Coefficients as a plain vector of length p. *)
Definition flat_payload : fargs :=
  phase_1 [("site_A", site_1 "stats of A" (vec [1; 2]) (Sc 2) (Sc 10));
           ("site_B", site_1 "stats of B" (vec [3; 6]) (Sc 4) (Sc 30))].

(** The cache [remote_1] returns for [payload_1]. *)
Definition cache_of_payload_1 : cache_dict float string :=
  match remote_1 payload_1 with
  | Ok o => cache_1 o
  | Err _ => empty_cache
  end.

Definition phase_2 (sites : dict fsite) : fargs :=
  {| input := sites; cache := cache_of_payload_1 |}.

(** The second round of the same two sites, in the order of the first. *)
Definition payload_2 : fargs :=
  phase_2 [("site_A", site_2 (vec [30]) (vec [100]) (mat [[4; 0]; [0; 16]]));
           ("site_B", site_2 (vec [46]) (vec [200]) (mat [[4; 0]; [0; 16]]))].

(** The same second round with the two sites in the other order. *)
Definition payload_2_swapped : fargs :=
  phase_2 [("site_B", site_2 (vec [46]) (vec [200]) (mat [[4; 0]; [0; 16]]));
           ("site_A", site_2 (vec [30]) (vec [100]) (mat [[4; 0]; [0; 16]]))].

(** The second covariate is zero at every site. *)
Definition singular_payload : fargs :=
  phase_2 [("site_A", site_2 (vec [30]) (vec [100]) (mat [[4; 0]; [0; 0]]));
           ("site_B", site_2 (vec [46]) (vec [200]) (mat [[4; 0]; [0; 0]]))].




(** A payload whose sites carry "local_1" and "local_2". *)
Definition mixed_payload : fargs :=
  phase_1 [("site_A", site_1 "stats of A" (mat [[1; 2]]) (vec [2]) (vec [10]));
           ("site_B",
            {| computation_phase := Some "local_2";
               X_labels := Some ["const"; "age"];
               y_labels := Some ["voxel_0"];
               local_stats_dict := Some "stats of B";
               beta_vector_local := Some (mat [[3; 6]]);
               mean_y_local := Some (vec [4]);
               count_local := Some (vec [30]);
               SSE_local := None; SST_local := None;
               varX_matrix_local := None |})].

(** A payload without any recognised tag. *)
Definition untagged_payload : fargs :=
  phase_1 [("site_A",
            {| computation_phase := Some "local_7";
               X_labels := None; y_labels := None; local_stats_dict := None;
               beta_vector_local := None; mean_y_local := None;
               count_local := None; SSE_local := None; SST_local := None;
               varX_matrix_local := None |})].

(** What [remote_1] returns for [scalar_payload] and for [payload_1]. *)
Definition labels : list string := ["const"; "age"].

Definition output_of (beta mean dof : fnd) : computation_output_1 float string :=
  {| output_1 :=
       {| out_avg_beta_vector := beta;
          out_mean_y_global := mean;
          out_computation_phase := "remote_1" |};
     cache_1 :=
       {| cache_avg_beta_vector := Some beta;
          cache_mean_y_global := Some mean;
          cache_dof_global := Some dof;
          cache_X_labels := Some labels;
          cache_y_labels := Some ["voxel_0"];
          cache_local_stats_dict := Some ["stats of A"; "stats of B"] |} |}.

Definition scalar_output : computation_output_1 float string :=
  output_of (mat [[2; 4]]) (Sc 3.5) (Sc 38).

Definition output_1_of_payload_1 : computation_output_1 float string :=
  output_of (mat [[2; 4]]) (vec [3.5]) (vec [38]).

(** What [remote_2] does and returns for a payload of the two sites with
    an invertible cross-product matrix. *)
Definition events_of (a : fargs) : list (event float string string) :=
  [print_pvals a [vec [0; 0]] [vec [4; 16]] labels;
   print_beta_images a (mat [[2; 4]]) labels].

Definition output_2_of (stats : dict string)
  : computation_output_2 string string :=
  {| output_2 := {| global_stats := "global_stats.png";
                    local_stats := stats |};
     success := true |}.

(** A first round without any site. *)
Definition no_site_payload : fargs := phase_1 [].

(** A second round without any site, on the cache of [payload_1]. *)
Definition no_site_payload_2 : fargs := phase_2 [].

(** The first site sends its labels but no statistics. *)
Definition no_stats_payload : fargs :=
  phase_1 [("site_A",
            {| computation_phase := Some "local_1";
               X_labels := Some ["const"; "age"];
               y_labels := Some ["voxel_0"];
               local_stats_dict := None;
               beta_vector_local := Some (mat [[1; 2]]);
               mean_y_local := Some (vec [2]);
               count_local := Some (vec [10]);
               SSE_local := None; SST_local := None;
               varX_matrix_local := None |})].

(** [payload_1] seen differently: other site names, a cache left over
    from an earlier run, and a second site without labels or tag. *)
Definition payload_1_renamed : fargs :=
  {| input :=
       [("first", site_1 "stats of A" (mat [[1; 2]]) (vec [2]) (vec [10]));
        ("second",
         {| computation_phase := None;
            X_labels := None;
            y_labels := Some ["voxel_9"];
            local_stats_dict := Some "stats of B";
            beta_vector_local := Some (mat [[3; 6]]);
            mean_y_local := Some (vec [4]);
            count_local := Some (vec [30]);
            SSE_local := Some (vec [1]); SST_local := None;
            varX_matrix_local := None |})];
     cache := cache_of_payload_1 |}.

(** One site with one row of coefficients, one with two. *)
Definition uneven_payload : fargs :=
  phase_1 [("site_A", site_1 "stats of A" (mat [[1; 2]]) (vec [2]) (vec [10]));
           ("site_B", site_1 "stats of B" (mat [[3; 6]; [3; 6]])
                             (vec [4]) (vec [30]))].

(** Three output dimensions at two sites, one count for the whole site. *)
Definition int_count_payload_3 : fargs :=
  phase_1 [("site_A", site_1 "stats of A" (mat [[1; 2]; [1; 2]; [1; 2]])
                             (vec [0; 1; 2]) (Sc 10));
           ("site_B", site_1 "stats of B" (mat [[3; 6]; [3; 6]; [3; 6]])
                             (vec [0; 0; 0]) (Sc 30))].

(** A second round of three sites on the cache of the two of
    [payload_1]. *)
Definition payload_2_three_sites : fargs :=
  phase_2 [("site_A", site_2 (vec [30]) (vec [100]) (mat [[4; 0]; [0; 16]]));
           ("site_B", site_2 (vec [46]) (vec [200]) (mat [[2; 0]; [0; 8]]));
           ("site_C", site_2 (vec [0]) (vec [50]) (mat [[2; 0]; [0; 8]]))].

(** [payload_2] with other total sums of squares. *)
Definition payload_2_other_SST : fargs :=
  phase_2 [("site_A", site_2 (vec [30]) (vec [7]) (mat [[4; 0]; [0; 16]]));
           ("site_B", site_2 (vec [46]) (vec [9]) (mat [[4; 0]; [0; 16]]))].

(** The cache [remote_1] returns for [scalar_payload], and second rounds
    on it: without any output dimension, and with one number per site. *)
Definition scalar_cache : cache_dict float string :=
  match remote_1 scalar_payload with
  | Ok o => cache_1 o
  | Err _ => empty_cache
  end.

Definition scalar_payload_2_empty : fargs :=
  {| input := [("site_A", site_2 (vec []) (vec []) (mat [[4; 0]; [0; 16]]));
               ("site_B", site_2 (vec []) (vec []) (mat [[4; 0]; [0; 16]]))];
     cache := scalar_cache |}.

Definition scalar_payload_2 : fargs :=
  {| input := [("site_A", site_2 (Sc 30) (Sc 100) (mat [[4; 0]; [0; 16]]));
               ("site_B", site_2 (Sc 46) (Sc 200) (mat [[4; 0]; [0; 16]]))];
     cache := scalar_cache |}.

(** A second round in which site B sends its record of the first round
    again. *)
Definition stale_site_payload : fargs :=
  phase_2 [("site_A", site_2 (vec [30]) (vec [100]) (mat [[4; 0]; [0; 16]]));
           ("site_B", site_1 "stats of B" (mat [[3; 6]]) (vec [4]) (vec [30]))].

(** What [remote_2] renders when it has no output dimension to report. *)
Definition no_statistics_events (a : fargs)
  : list (event float string string) :=
  [print_pvals a [] [] labels; print_beta_images a (mat [[2; 4]]) labels].

Definition two_site_stats : dict string :=
  [("site_A", "stats of A"); ("site_B", "stats of B")].

(** What [remote_1] returns for [int_count_payload]. *)
Definition int_count_output : computation_output_1 float string :=
  output_of (mat [[2; 4]; [2; 4]]) (vec [0; 0.75]) (Sc 38).

(** Coefficient arrays without any item. *)
Definition empty_coefficients_payload : fargs :=
  phase_1 [("site_A", site_1 "stats of A" (mat [[]; []]) (vec [2]) (vec [10]));
           ("site_B", site_1 "stats of B" (mat [[]; []]) (vec [4]) (vec [30]))].









End Examples.

(** * Facts about arrays *)

Section ArrayFacts.

Context {num : Type} {NumOps : Numeric num}.

Local Abbreviation array := (nd num).

(** Induction on a nested list, with the hypothesis for every item. *)
Lemma nd_induction (P : array -> Prop) :
  (forall x, P (Sc x)) ->
  (forall l, Forall P l -> P (Ar l)) ->
  forall a, P a.
Proof.
  intros HSc HAr.
  fix IH 1.
  intros [x | l].
  - apply HSc.
  - apply HAr.
    induction l as [| b l IHl]; constructor.
    + apply IH.
    + exact IHl.
Qed.

Lemma zipnd_Ar (f : num -> num -> num) (l1 l2 : list array) :
  zipnd f (Ar l1) (Ar l2) = Ar (map2 (zipnd f) l1 l2).
Proof.
  simpl. f_equal.
  revert l2.
  induction l1 as [| x l1 IH]; intros [| y l2]; simpl; try reflexivity.
  now rewrite IH.
Qed.

Lemma nth_error_map2 {A B C : Type} (g : A -> B -> C) (l1 : list A)
    (l2 : list B) (i : nat) :
  nth_error (map2 g l1 l2) i =
  match nth_error l1 i, nth_error l2 i with
  | Some x, Some y => Some (g x y)
  | _, _ => None
  end.
Proof.
  revert l2 i.
  induction l1 as [| x l1 IH]; intros [| y l2] [| i]; simpl; try reflexivity.
  - now destruct (nth_error l1 i).
  - apply IH.
Qed.

Lemma length_map2 {A B C : Type} (g : A -> B -> C) (l1 : list A)
    (l2 : list B) :
  length l1 = length l2 -> length (map2 g l1 l2) = length l1.
Proof.
  revert l2.
  induction l1 as [| x l1 IH]; intros [| y l2]; simpl; intros H;
    try congruence.
  f_equal. apply IH. congruence.
Qed.

Lemma map2_repeat_r {A B C : Type} (g : A -> B -> C) (l : list A) (c : B) :
  map2 g l (repeat c (length l)) = map (fun x => g x c) l.
Proof.
  induction l as [| x l IH]; simpl; [reflexivity | now rewrite IH].
Qed.

Lemma map2_repeat_l {A B C : Type} (g : A -> B -> C) (c : A) (l : list B) :
  map2 g (repeat c (length l)) l = map (g c) l.
Proof.
  induction l as [| x l IH]; simpl; [reflexivity | now rewrite IH].
Qed.

Lemma nd_get_nil_Ar (idx : list nat) : nd_get idx (@Ar num []) = None.
Proof.
  destruct idx as [| [| i] idx]; reflexivity.
Qed.

(** Reading an item of [zipnd f a b] reads the two items and applies [f]. *)
Lemma nd_get_zipnd (f : num -> num -> num) (a b : array) (idx : list nat) :
  nd_get idx (zipnd f a b) = olift2 f (nd_get idx a) (nd_get idx b).
Proof.
  revert b idx.
  induction a as [x | l IH] using nd_induction; intros [y | l2] idx.
  - destruct idx; reflexivity.
  - simpl zipnd. rewrite nd_get_nil_Ar.
    destruct idx; simpl; [reflexivity |].
    reflexivity.
  - simpl zipnd. rewrite nd_get_nil_Ar.
    destruct idx as [| i idx]; simpl; [reflexivity |].
    now destruct (nth_error l i) as [c |]; [destruct (nd_get idx c) |].
  - rewrite zipnd_Ar.
    destruct idx as [| i idx]; simpl; [reflexivity |].
    rewrite nth_error_map2.
    destruct (nth_error l i) as [c |] eqn:E1; [| reflexivity].
    destruct (nth_error l2 i) as [d |] eqn:E2.
    + rewrite Forall_forall in IH.
      apply IH. eapply nth_error_In; eassumption.
    + now destruct (nd_get idx c).
Qed.

Lemma nd_get_mapnd (g : num -> num) (a : array) (idx : list nat) :
  nd_get idx (mapnd g a) = option_map g (nd_get idx a).
Proof.
  revert idx.
  induction a as [x | l IH] using nd_induction; intros idx.
  - destruct idx; reflexivity.
  - destruct idx as [| i idx]; simpl; [reflexivity |].
    rewrite nth_error_map.
    destruct (nth_error l i) as [c |] eqn:E; simpl; [| reflexivity].
    rewrite Forall_forall in IH.
    apply IH. eapply nth_error_In; eassumption.
Qed.

Lemma fold_left_olift2 (f : num -> num -> num) (os : list (option num))
    (o : option num) :
  fold_left (olift2 f) os o =
  match o, all_some os with
  | Some x, Some xs => Some (fold_left f xs x)
  | _, _ => None
  end.
Proof.
  revert o.
  induction os as [| [y |] os IH]; intros [x |]; simpl; try reflexivity.
  - rewrite IH. simpl. now destruct (all_some os).
  - rewrite IH. simpl. now destruct (all_some os).
  - rewrite IH. reflexivity.
  - rewrite IH. reflexivity.
Qed.

Lemma nd_get_fold_zipnd (f : num -> num -> num) (r : list array) (x : array)
    (idx : list nat) :
  nd_get idx (fold_left (zipnd f) r x) =
  fold_left (olift2 f) (map (nd_get idx) r) (nd_get idx x).
Proof.
  revert x.
  induction r as [| y r IH]; intros x; simpl; [reflexivity |].
  rewrite IH, nd_get_zipnd. reflexivity.
Qed.

(** An item of the sum over the first axis is the total of the column. *)
Lemma nd_get_sum_axis0 (x : array) (r : list array) (idx : list nat) :
  nd_get idx (fold_left (zipnd nadd) r x) =
  option_map total (elements idx (x :: r)).
Proof.
  rewrite nd_get_fold_zipnd, fold_left_olift2.
  unfold elements. simpl.
  destruct (nd_get idx x) as [x0 |]; [| reflexivity].
  now destruct (all_some (map (nd_get idx) r)).
Qed.


(** *** Shapes *)

Lemma shape_eqb_eq (s t : list nat) : shape_eqb s t = true <-> s = t.
Proof.
  revert t.
  induction s as [| m s IH]; intros [| n t]; simpl; split; intros H;
    try reflexivity; try discriminate.
  - apply andb_true_iff in H as [H1 H2].
    apply Nat.eqb_eq in H1. apply IH in H2. congruence.
  - injection H as -> ->. rewrite Nat.eqb_refl. simpl. now apply IH.
Qed.

Lemma shape_Ar (l : list array) : shape (Ar l) = length l :: item_shape l.
Proof. reflexivity. Qed.

Lemma rect_Ar (l : list array) :
  rect (Ar l) = true <->
  Forall (fun y => rect y = true /\ shape y = item_shape l) l.
Proof.
  simpl. rewrite andb_true_iff, forallb_forall.
  rewrite Forall_forall.
  destruct l as [| x l].
  - split; [intros _ y [] | intros _; split; [intros y [] | reflexivity]].
  - rewrite forallb_forall. unfold item_shape.
    split.
    + intros [H1 H2] y Hy. split; [now apply H1 |].
      apply shape_eqb_eq. now apply H2.
    + intros H. split; intros y Hy; destruct (H y Hy) as [H1 H2];
        [exact H1 | now apply shape_eqb_eq].
Qed.

Lemma np_array_Ok (a b : array) :
  np_array a = Ok b <-> rect a = true /\ b = a.
Proof.
  unfold np_array.
  destruct (rect a); split.
  - intros H. injection H as <-. now split.
  - intros [_ ->]. reflexivity.
  - discriminate.
  - intros [H _]. discriminate.
Qed.

Lemma shape_mapnd (g : num -> num) (a : array) : shape (mapnd g a) = shape a.
Proof.
  induction a as [x | l IH] using nd_induction; [reflexivity |].
  simpl. rewrite length_map. f_equal.
  destruct l as [| y l]; simpl; [reflexivity |].
  now inversion IH.
Qed.

Lemma rect_mapnd (g : num -> num) (a : array) :
  rect a = true -> rect (mapnd g a) = true.
Proof.
  induction a as [x | l IH] using nd_induction; [reflexivity |].
  intros H. apply rect_Ar in H.
  change (mapnd g (Ar l)) with (Ar (map (mapnd g) l)).
  apply rect_Ar.
  rewrite Forall_forall in *.
  intros y Hy. apply in_map_iff in Hy as [x [<- Hx]].
  destruct (H x Hx) as [H1 H2].
  split; [now apply IH |].
  rewrite shape_mapnd, H2.
  destruct l as [| z l]; simpl; [reflexivity |].
  now rewrite shape_mapnd.
Qed.

(** [zipnd] on two rectangular arrays of one shape keeps the shape. *)
Lemma zipnd_shape (f : num -> num -> num) (a b : array) :
  rect a = true -> rect b = true -> shape a = shape b ->
  rect (zipnd f a b) = true /\ shape (zipnd f a b) = shape a.
Proof.
  revert b.
  induction a as [x | l IH] using nd_induction; intros [y | l2] Ha Hb Hs;
    try discriminate.
  - now split.
  - rewrite zipnd_Ar.
    rewrite !shape_Ar in Hs. injection Hs as Hlen Hitem.
    apply rect_Ar in Ha. apply rect_Ar in Hb.
    assert (Hall : Forall (fun z => rect z = true /\ shape z = item_shape l)
                     (map2 (zipnd f) l l2)).
    { rewrite <- Hitem in Hb.
      remember (item_shape l) as s eqn:Es. clear Es Hitem.
      revert l2 Hlen Hb.
      induction l as [| c l IHl]; intros [| d l2] Hlen Hb; simpl;
        try discriminate; constructor.
      - inversion IH as [| ? ? IHc _]; subst.
        inversion Ha as [| ? ? [Hc1 Hc2] _]; subst.
        inversion Hb as [| ? ? [Hd1 Hd2] _]; subst.
        destruct (IHc d Hc1 Hd1) as [H1 H2]; [congruence |].
        split; [exact H1 | congruence].
      - inversion IH; subst. inversion Ha; subst. inversion Hb; subst.
        apply IHl; try assumption. simpl in Hlen. congruence. }
    assert (Hitem' : item_shape (map2 (zipnd f) l l2) = item_shape l).
    { destruct l as [| c l]; destruct l2 as [| d l2]; simpl in *;
        try discriminate; [reflexivity |].
      inversion Hall as [| ? ? [_ Hc] _]; subst. exact Hc. }
    split.
    + apply rect_Ar. now rewrite Hitem'.
    + rewrite !shape_Ar, Hitem'. f_equal. now apply length_map2.
Qed.

(** *** Broadcasting *)

Lemma bdim_same (m : nat) : bdim m m = Some m.
Proof. unfold bdim. now rewrite Nat.eqb_refl. Qed.

Lemma bdim_1_r (m : nat) : bdim m 1 = Some m.
Proof.
  unfold bdim. destruct (Nat.eqb_spec m 1) as [-> | H]; [reflexivity |].
  reflexivity.
Qed.

Lemma bdim_1_l (n : nat) : bdim 1 n = Some n.
Proof.
  unfold bdim. destruct (Nat.eqb_spec 1 n) as [<- | H]; reflexivity.
Qed.

Lemma pad_same (s : list nat) : pad (length s) s = s.
Proof. unfold pad. now rewrite Nat.sub_diag. Qed.

Lemma bshape_aligned_same (s : list nat) : bshape_aligned s s = Some s.
Proof.
  induction s as [| m s IH]; simpl; [reflexivity |].
  now rewrite bdim_same, IH.
Qed.

Lemma bshape_same (s : list nat) : bshape s s = Some s.
Proof.
  unfold bshape. rewrite Nat.max_id, pad_same. apply bshape_aligned_same.
Qed.

Lemma bshape_aligned_ones_r (s : list nat) :
  bshape_aligned s (repeat 1 (length s)) = Some s.
Proof.
  induction s as [| m s IH]; simpl; [reflexivity |].
  now rewrite bdim_1_r, IH.
Qed.

Lemma bshape_aligned_ones_l (s : list nat) :
  bshape_aligned (repeat 1 (length s)) s = Some s.
Proof.
  induction s as [| m s IH]; simpl; [reflexivity |].
  now rewrite bdim_1_l, IH.
Qed.

Lemma bshape_nil_r (s : list nat) : bshape s [] = Some s.
Proof.
  unfold bshape. cbn [length]. rewrite Nat.max_0_r, pad_same.
  unfold pad. cbn [length]. rewrite Nat.sub_0_r, app_nil_r.
  apply bshape_aligned_ones_r.
Qed.

Lemma bshape_nil_l (s : list nat) : bshape [] s = Some s.
Proof.
  unfold bshape. cbn [length]. rewrite Nat.max_0_l, pad_same.
  unfold pad. cbn [length]. rewrite Nat.sub_0_r, app_nil_r.
  apply bshape_aligned_ones_l.
Qed.

(** Broadcasting an array to its own shape changes nothing. *)
Lemma expand_same (a : array) : rect a = true -> expand (shape a) a = a.
Proof.
  induction a as [x | l IH] using nd_induction; intros Ha; [reflexivity |].
  rewrite shape_Ar.
  cbn [expand].
  replace (Nat.ltb (ndim (Ar l)) (length (length l :: item_shape l)))
    with false
    by (symmetry; apply Nat.ltb_ge; unfold ndim; rewrite shape_Ar; apply Nat.le_refl).
  rewrite Nat.eqb_refl. f_equal.
  apply rect_Ar in Ha.
  transitivity (map (fun x : array => x) l); [| apply map_id].
  apply map_ext_in. intros y Hy.
  rewrite Forall_forall in IH, Ha.
  destruct (Ha y Hy) as [H1 H2].
  rewrite <- H2. now apply IH.
Qed.

(** [a op b] on two arrays of one shape works item by item. *)
Lemma bcast2_same_shape (f : num -> num -> num) (a b : array) :
  rect a = true -> rect b = true -> shape a = shape b ->
  bcast2 f a b = Ok (zipnd f a b).
Proof.
  intros Ha Hb Hs. unfold bcast2.
  rewrite <- Hs, bshape_same.
  rewrite expand_same by assumption.
  rewrite Hs, expand_same by assumption.
  reflexivity.
Qed.

Lemma zipnd_scalar_r (f : num -> num -> num) (a : array) (y : num) :
  rect a = true ->
  zipnd f a (expand (shape a) (Sc y)) = mapnd (fun x => f x y) a.
Proof.
  induction a as [x | l IH] using nd_induction; intros Ha; [reflexivity |].
  rewrite shape_Ar. cbn [expand]. cbn [ndim shape length Nat.ltb Nat.leb].
  rewrite zipnd_Ar, map2_repeat_r. simpl. f_equal.
  apply rect_Ar in Ha.
  apply map_ext_in. intros c Hc.
  rewrite Forall_forall in IH, Ha.
  destruct (Ha c Hc) as [H1 H2].
  rewrite <- H2. now apply IH.
Qed.

Lemma zipnd_scalar_l (f : num -> num -> num) (x : num) (b : array) :
  rect b = true ->
  zipnd f (expand (shape b) (Sc x)) b = mapnd (f x) b.
Proof.
  induction b as [y | l IH] using nd_induction; intros Hb; [reflexivity |].
  rewrite shape_Ar. cbn [expand]. cbn [ndim shape length Nat.ltb Nat.leb].
  rewrite zipnd_Ar, map2_repeat_l. simpl. f_equal.
  apply rect_Ar in Hb.
  apply map_ext_in. intros c Hc.
  rewrite Forall_forall in IH, Hb.
  destruct (Hb c Hc) as [H1 H2].
  rewrite <- H2. now apply IH.
Qed.

(** [a op y] for a number [y] applies [op y] to every item. *)
Lemma bcast2_scalar_r (f : num -> num -> num) (a : array) (y : num) :
  rect a = true -> bcast2 f a (Sc y) = Ok (mapnd (fun x => f x y) a).
Proof.
  intros Ha. unfold bcast2. simpl shape at 2.
  rewrite bshape_nil_r, expand_same by assumption.
  now rewrite zipnd_scalar_r.
Qed.

Lemma bcast2_scalar_l (f : num -> num -> num) (x : num) (b : array) :
  rect b = true -> bcast2 f (Sc x) b = Ok (mapnd (f x) b).
Proof.
  intros Hb. unfold bcast2. simpl shape at 1.
  rewrite bshape_nil_l, expand_same by assumption.
  now rewrite zipnd_scalar_l.
Qed.

(** *** Broadcasting to another shape *)

Lemma broadcasts_to_nil (sa : list nat) :
  broadcasts_to sa [] = true -> sa = [].
Proof. destruct sa; [reflexivity | discriminate]. Qed.

Lemma broadcasts_to_shorter (sa : list nat) (e : nat) (s : list nat) :
  length sa < length (e :: s) ->
  broadcasts_to sa (e :: s) = broadcasts_to sa s.
Proof.
  intros H. cbn [broadcasts_to].
  destruct (Nat.ltb_spec (length sa) (length (e :: s))); [reflexivity | lia].
Qed.

Lemma broadcasts_to_cons (d : nat) (sa : list nat) (e : nat) (s : list nat) :
  length s <= length sa ->
  broadcasts_to (d :: sa) (e :: s) =
  (Nat.eqb d e || Nat.eqb d 1) && broadcasts_to sa s.
Proof.
  intros H. cbn [broadcasts_to].
  destruct (Nat.ltb_spec (length (d :: sa)) (length (e :: s))) as [Hlt | Hge];
    [simpl in Hlt; lia | reflexivity].
Qed.

Lemma broadcasts_to_length (sa s : list nat) :
  broadcasts_to sa s = true -> length sa <= length s.
Proof.
  revert sa.
  induction s as [| e s IH]; intros sa H.
  - apply broadcasts_to_nil in H. subst. apply Nat.le_refl.
  - destruct (Nat.lt_ge_cases (length sa) (length (e :: s))) as [Hlt | Hge];
      [now apply Nat.lt_le_incl |].
    destruct sa as [| d sa']; [simpl in Hge; lia |].
    simpl in Hge.
    rewrite broadcasts_to_cons in H by lia.
    apply andb_true_iff in H as [_ H]. apply IH in H. simpl. lia.
Qed.

(** The two ways a shape broadcasts to a longer or equally long one. *)
Lemma broadcasts_to_cases (sa : list nat) (e : nat) (s : list nat) :
  broadcasts_to sa (e :: s) = true ->
  (length sa < length (e :: s) /\ broadcasts_to sa s = true) \/
  (exists d sa', sa = d :: sa' /\ length sa' = length s /\
                 (d = e \/ d = 1) /\ broadcasts_to sa' s = true).
Proof.
  intros H. pose proof (broadcasts_to_length _ _ H) as Hlen.
  destruct (Nat.lt_ge_cases (length sa) (length (e :: s))) as [Hlt | Hge].
  - left. split; [exact Hlt |]. now rewrite broadcasts_to_shorter in H.
  - right. destruct sa as [| d sa']; [simpl in Hge; lia |].
    simpl in Hge, Hlen.
    rewrite broadcasts_to_cons in H by lia.
    apply andb_true_iff in H as [Hd H].
    exists d, sa'. repeat split; [lia | | exact H].
    apply orb_true_iff in Hd as [Hd | Hd]; apply Nat.eqb_eq in Hd; auto.
Qed.

Lemma broadcasts_to_cons_intro (d : nat) (sa : list nat) (e : nat)
    (s : list nat) :
  length sa = length s -> d = e \/ d = 1 -> broadcasts_to sa s = true ->
  broadcasts_to (d :: sa) (e :: s) = true.
Proof.
  intros Hl Hd H. rewrite broadcasts_to_cons by lia.
  rewrite H, andb_true_r. apply orb_true_iff.
  destruct Hd as [-> | ->]; [left | right]; apply Nat.eqb_refl.
Qed.

Lemma broadcasts_to_refl (s : list nat) : broadcasts_to s s = true.
Proof.
  induction s as [| e s IH]; [reflexivity |].
  apply broadcasts_to_cons_intro; auto.
Qed.

Lemma broadcasts_to_trans (sa s T : list nat) :
  broadcasts_to sa s = true -> broadcasts_to s T = true ->
  broadcasts_to sa T = true.
Proof.
  revert sa s.
  induction T as [| M T IH]; intros sa s H1 H2.
  - apply broadcasts_to_nil in H2. subst. exact H1.
  - pose proof (broadcasts_to_length _ _ H1) as L1.
    destruct (broadcasts_to_cases _ _ _ H2)
      as [[Hlt H2'] | (m & s' & -> & Hl & Hm & H2')].
    + rewrite broadcasts_to_shorter by lia. eapply IH; eassumption.
    + destruct (broadcasts_to_cases _ _ _ H1)
        as [[Hlt H1'] | (d & sa' & -> & Hl' & Hd & H1')].
      * rewrite broadcasts_to_shorter by (simpl in *; lia).
        eapply IH; eassumption.
      * apply broadcasts_to_cons_intro; [congruence | |
                                          eapply IH; eassumption].
        destruct Hd as [-> | ->]; [exact Hm | now right].
Qed.

Lemma broadcasts_to_tail (d : nat) (u s : list nat) :
  broadcasts_to (d :: u) s = true -> broadcasts_to u s = true.
Proof.
  induction s as [| e s IH]; intros H; [discriminate |].
  destruct (broadcasts_to_cases _ _ _ H)
    as [[Hlt H'] | (d' & u' & E & Hl & _ & H')].
  - rewrite broadcasts_to_shorter by (simpl in *; lia). now apply IH.
  - injection E as <- <-.
    rewrite broadcasts_to_shorter by (simpl; lia). exact H'.
Qed.

Lemma broadcasts_to_unpad (k : nat) (u s : list nat) :
  broadcasts_to (repeat 1 k ++ u) s = true -> broadcasts_to u s = true.
Proof.
  induction k as [| k IH]; simpl; intros H; [exact H |].
  apply IH. eapply broadcasts_to_tail. exact H.
Qed.

Lemma bdim_Some (m n r : nat) :
  bdim m n = Some r -> (m = r \/ m = 1) /\ (n = r \/ n = 1) /\
                       (r = 0 -> m = 0 \/ n = 0).
Proof.
  unfold bdim.
  destruct (Nat.eqb_spec m n) as [-> | Hmn].
  - intros H. injection H as <-. auto.
  - destruct (Nat.eqb_spec m 1) as [-> | Hm].
    + intros H. injection H as <-. auto.
    + destruct (Nat.eqb_spec n 1) as [-> | Hn]; [| discriminate].
      intros H. injection H as <-. auto.
Qed.

Lemma bshape_aligned_Some (s t r : list nat) :
  bshape_aligned s t = Some r ->
  length s = length r /\ length t = length r /\
  broadcasts_to s r = true /\ broadcasts_to t r = true /\
  (proper s -> proper t -> proper r).
Proof.
  revert t r.
  induction s as [| m s IH]; intros [| n t] r H; simpl in H;
    try discriminate.
  - injection H as <-. repeat split; auto.
  - destruct (bdim m n) as [d |] eqn:Ed; [| discriminate].
    destruct (bshape_aligned s t) as [rs |] eqn:Er; [| discriminate].
    injection H as <-.
    destruct (IH _ _ Er) as (L1 & L2 & B1 & B2 & P).
    destruct (bdim_Some _ _ _ Ed) as (D1 & D2 & D0).
    simpl. split; [congruence |]. split; [congruence |].
    split; [now apply broadcasts_to_cons_intro |].
    split; [now apply broadcasts_to_cons_intro |].
    intros [Hs0 Hs] [Ht0 Ht]. split; [| now apply P].
    intros ->. destruct (D0 eq_refl) as [-> | ->].
    + rewrite (Hs0 eq_refl) in L1. now destruct rs.
    + rewrite (Ht0 eq_refl) in L2. now destruct rs.
Qed.

Lemma proper_pad (k : nat) (s : list nat) :
  proper s -> proper (repeat 1 k ++ s).
Proof.
  intros H. induction k as [| k IH]; simpl; [exact H |].
  split; [discriminate | exact IH].
Qed.

(** The shape two shapes broadcast to. *)
Lemma bshape_Some (sa sb s : list nat) :
  bshape sa sb = Some s ->
  broadcasts_to sa s = true /\ broadcasts_to sb s = true /\
  (proper sa -> proper sb -> proper s).
Proof.
  unfold bshape, pad. intros H.
  apply bshape_aligned_Some in H as (_ & _ & B1 & B2 & P).
  repeat split.
  - eapply broadcasts_to_unpad; eassumption.
  - eapply broadcasts_to_unpad; eassumption.
  - intros Ha Hb. apply P; now apply proper_pad.
Qed.

Lemma shape_proper (a : array) : proper (shape a).
Proof.
  induction a as [x | l IH] using nd_induction; [exact I |].
  rewrite shape_Ar. simpl. split.
  - intros H. now destruct l.
  - destruct l as [| y l]; [exact I |]. simpl. now inversion IH.
Qed.


Lemma shape_repeat (x : array) (m : nat) :
  shape (Ar (repeat x m)) = m :: match m with 0 => [] | S _ => shape x end.
Proof.
  rewrite shape_Ar, repeat_length. now destruct m.
Qed.

Lemma rect_repeat (x : array) (m : nat) :
  rect x = true -> rect (Ar (repeat x m)) = true.
Proof.
  intros H. apply rect_Ar. apply Forall_forall.
  intros y Hy. destruct m; [contradiction |].
  apply repeat_spec in Hy. subst y. now split.
Qed.

(** An array with one axis more than its items. *)
Lemma shape_cons_inv (a : array) (d : nat) (sa : list nat) :
  rect a = true -> shape a = d :: sa ->
  exists l, a = Ar l /\ length l = d /\
            Forall (fun y => rect y = true /\ shape y = sa) l /\
            (l = [] -> sa = []).
Proof.
  intros Ha Hs. destruct a as [x | l]; [discriminate |].
  rewrite shape_Ar in Hs. injection Hs as Hd Hsa.
  apply rect_Ar in Ha. rewrite Hsa in Ha.
  exists l. repeat split; try assumption.
  intros ->. now rewrite <- Hsa.
Qed.

(** Broadcasting an array to a shape its own shape broadcasts to gives a
    rectangular array of that shape. *)
Lemma expand_rect_shape (s : list nat) (a : array) :
  rect a = true -> broadcasts_to (shape a) s = true -> proper s ->
  rect (expand s a) = true /\ shape (expand s a) = s.
Proof.
  revert a.
  induction s as [| m s IH]; intros a Ha Hb Hp.
  - apply broadcasts_to_nil in Hb. now split.
  - destruct Hp as [Hm Hp].
    assert (Hrep : forall x : array, rect x = true ->
                     broadcasts_to (shape x) s = true ->
                     rect (Ar (repeat (expand s x) m)) = true /\
                     shape (Ar (repeat (expand s x) m)) = m :: s).
    { intros x Hx Hbx. destruct (IH x Hx Hbx Hp) as [H1 H2].
      split; [now apply rect_repeat |].
      rewrite shape_repeat. destruct m; [now rewrite Hm | now rewrite H2]. }
    cbn [expand]. unfold ndim.
    destruct (broadcasts_to_cases _ _ _ Hb)
      as [[Hlt Hb'] | (d & sa & Hs & Hl & Hd & Hb')].
    + apply Nat.ltb_lt in Hlt. rewrite Hlt. now apply Hrep.
    + replace (Nat.ltb (length (shape a)) (length (m :: s))) with false
        by (symmetry; apply Nat.ltb_ge; rewrite Hs; simpl; lia).
      destruct (shape_cons_inv a d sa Ha Hs) as (l & -> & Hlen & Hall & Hnil).
      destruct (Nat.eqb_spec (length l) m) as [Hlm | Hlm].
      * assert (Hall' : Forall (fun y => rect y = true /\ shape y = s)
                          (map (expand s) l)).
        { apply Forall_forall. intros y Hy.
          apply in_map_iff in Hy as (x & <- & Hx).
          rewrite Forall_forall in Hall. destruct (Hall x Hx) as [H1 H2].
          apply IH; [exact H1 | now rewrite H2 | exact Hp]. }
        assert (Hitem : item_shape (map (expand s) l) = s).
        { destruct l as [| x l]; simpl.
          - symmetry. apply Hm. now rewrite <- Hlm.
          - inversion Hall' as [| ? ? [_ H2] _]. exact H2. }
        split.
        -- apply rect_Ar. now rewrite Hitem.
        -- now rewrite shape_Ar, Hitem, length_map, Hlm.
      * destruct Hd as [Hd | Hd]; [congruence |].
        destruct l as [| x [| ? ?]]; simpl in Hlen; try lia.
        inversion Hall as [| ? ? [H1 H2] _].
        apply Hrep; [exact H1 | now rewrite H2].
Qed.


Lemma map2_repeat {A B C : Type} (g : A -> B -> C) (x : A) (y : B) (m : nat) :
  map2 g (repeat x m) (repeat y m) = repeat (g x y) m.
Proof.
  induction m as [| m IH]; simpl; [reflexivity | now rewrite IH].
Qed.

Lemma map2_map {A B C : Type} (g : A -> B -> C) (h : A -> A) (k : B -> B)
    (h' : C -> C) (l1 : list A) (l2 : list B) :
  Forall2 (fun x y => h' (g x y) = g (h x) (k y)) l1 l2 ->
  map h' (map2 g l1 l2) = map2 g (map h l1) (map k l2).
Proof.
  induction 1 as [| x y l1 l2 Hxy _ IH]; simpl; [reflexivity |].
  now rewrite Hxy, IH.
Qed.

(** Broadcasting commutes with an item-by-item operation. *)
Lemma expand_zipnd (f : num -> num -> num) (s : list nat) (a b : array) :
  rect a = true -> rect b = true -> shape a = shape b ->
  expand s (zipnd f a b) = zipnd f (expand s a) (expand s b).
Proof.
  revert a b.
  induction s as [| m s IH]; intros a b Ha Hb Hs; [reflexivity |].
  destruct (zipnd_shape f a b Ha Hb Hs) as [_ Hz].
  cbn [expand]. unfold ndim. rewrite Hz, <- Hs.
  destruct (Nat.ltb (length (shape a)) (length (m :: s))).
  - rewrite zipnd_Ar, map2_repeat. now rewrite IH.
  - destruct a as [x | l1]; destruct b as [y | l2]; try discriminate;
      [reflexivity |].
    rewrite zipnd_Ar.
    rewrite !shape_Ar in Hs. injection Hs as Hlen Hitem.
    rewrite length_map2 by exact Hlen. rewrite <- Hlen.
    apply rect_Ar in Ha. apply rect_Ar in Hb. rewrite <- Hitem in Hb.
    destruct (Nat.eqb (length l1) m).
    + rewrite zipnd_Ar. f_equal. apply map2_map.
      clear Hz Hitem.
      remember (item_shape l1) as sh eqn:Esh. clear Esh.
      revert l2 Hlen Hb.
      induction l1 as [| x l1 IHl]; intros [| y l2] Hlen Hb;
        try discriminate; constructor.
      * inversion Ha as [| ? ? [Hx1 Hx2] _]; subst.
        inversion Hb as [| ? ? [Hy1 Hy2] _]; subst.
        apply IH; congruence.
      * inversion Ha; subst. inversion Hb; subst.
        apply IHl; [assumption | simpl in Hlen; congruence | assumption].
    + destruct l1 as [| x l1]; destruct l2 as [| y l2]; try discriminate;
        [reflexivity |].
      rewrite zipnd_Ar, map2_repeat. simpl map2.
      inversion Ha as [| ? ? [Hx1 Hx2] _]; subst.
      inversion Hb as [| ? ? [Hy1 Hy2] _]; subst.
      rewrite IH; [reflexivity | assumption | assumption | congruence].
Qed.

Lemma expand_mapnd (g : num -> num) (s : list nat) (a : array) :
  expand s (mapnd g a) = mapnd g (expand s a).
Proof.
  revert a.
  induction s as [| m s IH]; intros a; [reflexivity |].
  cbn [expand]. unfold ndim. rewrite shape_mapnd.
  destruct (Nat.ltb (length (shape a)) (length (m :: s))).
  - simpl. rewrite map_repeat. now rewrite IH.
  - destruct a as [x | l]; [reflexivity |].
    change (mapnd g (Ar l)) with (Ar (map (mapnd g) l)).
    cbv iota beta. rewrite length_map.
    destruct (Nat.eqb (length l) m).
    + simpl. rewrite !map_map. f_equal. apply map_ext. intros x. apply IH.
    + destruct l as [| x l]; [reflexivity |].
      simpl. rewrite map_repeat. now rewrite IH.
Qed.

Lemma expand_cons_lt (m : nat) (s : list nat) (a : array) :
  ndim a < length (m :: s) ->
  expand (m :: s) a = Ar (repeat (expand s a) m).
Proof.
  intros H. cbn [expand]. apply Nat.ltb_lt in H. now rewrite H.
Qed.

Lemma expand_cons_map (m : nat) (s : list nat) (l : list array) :
  ndim (Ar l) = length (m :: s) -> length l = m ->
  expand (m :: s) (Ar l) = Ar (map (expand s) l).
Proof.
  intros H Hl. cbn [expand].
  replace (Nat.ltb (ndim (Ar l)) (length (m :: s))) with false
    by (symmetry; apply Nat.ltb_ge; rewrite H; apply Nat.le_refl).
  apply Nat.eqb_eq in Hl. now rewrite Hl.
Qed.

Lemma expand_cons_one (m : nat) (s : list nat) (x : array) :
  ndim (Ar [x]) = length (m :: s) -> m <> 1 ->
  expand (m :: s) (Ar [x]) = Ar (repeat (expand s x) m).
Proof.
  intros H Hm. cbn [expand].
  replace (Nat.ltb (ndim (Ar [x])) (length (m :: s))) with false
    by (symmetry; apply Nat.ltb_ge; rewrite H; apply Nat.le_refl).
  destruct (Nat.eqb_spec (length [x]) m) as [E | _]; [| reflexivity].
  simpl in E. congruence.
Qed.

(** Broadcasting in two steps is broadcasting in one. *)
Lemma expand_expand (T s : list nat) (a : array) :
  rect a = true -> broadcasts_to (shape a) s = true ->
  broadcasts_to s T = true -> proper s ->
  expand T (expand s a) = expand T a.
Proof.
  revert s a.
  induction T as [| M T IH]; intros s a Ha Hb HB Hp;
    [apply broadcasts_to_nil in HB; now subst |].
  pose proof (broadcasts_to_length _ _ Hb) as La.
  destruct (expand_rect_shape s a Ha Hb Hp) as [_ Hse].
  destruct (broadcasts_to_cases _ _ _ HB)
    as [[Hlt HB'] | (m & s' & -> & Hl & Hm & HB')].
  - rewrite !expand_cons_lt by (unfold ndim; rewrite ?Hse; lia).
    now rewrite (IH s a).
  - destruct Hp as [Hm0 Hp].
    destruct (broadcasts_to_cases _ _ _ Hb)
      as [[Hlt Hb'] | (d & sa & Hs & Hl' & Hd & Hb')].
    + rewrite (expand_cons_lt M T a) by (unfold ndim; simpl in *; lia).
      destruct (expand_rect_shape s' a Ha Hb' Hp) as [_ Hse'].
      rewrite (expand_cons_lt m s' a) by exact Hlt.
      assert (Hnd : ndim (Ar (repeat (expand s' a) m)) = length (M :: T)).
      { unfold ndim. rewrite <- expand_cons_lt by exact Hlt.
        rewrite Hse. simpl. congruence. }
      destruct (Nat.eq_dec m M) as [-> | Hne].
      * rewrite expand_cons_map by (rewrite ?repeat_length; auto).
        rewrite map_repeat. now rewrite (IH s' a).
      * destruct Hm as [Hm | ->]; [contradiction |].
        simpl repeat. simpl repeat in Hnd.
        rewrite expand_cons_one by auto.
        now rewrite (IH s' a).
    + destruct (shape_cons_inv a d sa Ha Hs) as (l & -> & Hlen & Hall & Hnil).
      assert (Hnd : ndim (Ar l) = length (M :: T)).
      { unfold ndim. rewrite Hs. simpl. congruence. }
      assert (Hnd' : ndim (Ar l) = length (m :: s')).
      { unfold ndim. rewrite Hs. simpl. congruence. }
      assert (Hnde : ndim (expand (m :: s') (Ar l)) = length (M :: T)).
      { unfold ndim. rewrite Hse. simpl. congruence. }
      assert (Hitems : forall x, In x l ->
                expand T (expand s' x) = expand T x).
      { intros x Hx. rewrite Forall_forall in Hall.
        destruct (Hall x Hx) as [H1 H2].
        apply IH; [exact H1 | now rewrite H2 | exact HB' | exact Hp]. }
      destruct (Nat.eq_dec d m) as [Edm | Ndm].
      * rewrite (expand_cons_map m s' l) in * by congruence.
        destruct (Nat.eq_dec m M) as [-> | Hne].
        -- rewrite !expand_cons_map by (rewrite ?length_map; congruence).
           rewrite map_map. f_equal. now apply map_ext_in.
        -- destruct Hm as [Hm | ->]; [contradiction |].
           destruct l as [| x [| ? ?]]; simpl in Hlen; try lia.
           simpl map in *.
           rewrite !expand_cons_one by auto.
           rewrite Hitems by now left. reflexivity.
      * destruct Hd as [Hd | ->]; [contradiction |].
        destruct l as [| x [| ? ?]]; simpl in Hlen; try lia.
        rewrite (expand_cons_one m s' x) in * by auto.
        destruct Hm as [<- | ->]; [| contradiction].
        rewrite expand_cons_map by (rewrite ?repeat_length; auto).
        rewrite expand_cons_one by auto.
        rewrite map_repeat. rewrite Hitems by now left. reflexivity.
Qed.

(** [a op b]: the operands are broadcast to a common shape. *)
Lemma bcast2_Ok (f : num -> num -> num) (a b c : array) :
  rect a = true -> rect b = true -> bcast2 f a b = Ok c ->
  rect c = true /\
  broadcasts_to (shape a) (shape c) = true /\
  broadcasts_to (shape b) (shape c) = true /\
  c = zipnd f (expand (shape c) a) (expand (shape c) b).
Proof.
  intros Ha Hb H. unfold bcast2 in H.
  destruct (bshape (shape a) (shape b)) as [s |] eqn:Es; [| discriminate].
  injection H as <-.
  apply bshape_Some in Es as (B1 & B2 & P).
  specialize (P (shape_proper a) (shape_proper b)).
  destruct (expand_rect_shape s a Ha B1 P) as [Ra Sa].
  destruct (expand_rect_shape s b Hb B2 P) as [Rb Sb].
  destruct (zipnd_shape f _ _ Ra Rb (eq_trans Sa (eq_sym Sb))) as [Rc Sc'].
  rewrite Sc', Sa. now repeat split.
Qed.

End ArrayFacts.

(** * Facts about the error monad *)

Lemma existsb_eqb_In (t : string) (tags : list string) :
  existsb (String.eqb t) tags = true <-> In t tags.
Proof.
  rewrite existsb_exists. split.
  - intros [x [Hx Heq]]. apply String.eqb_eq in Heq. now subst.
  - intros Hin. exists t. split; [exact Hin | apply String.eqb_refl].
Qed.

Lemma existsb_eqb_not_In (t : string) (tags : list string) :
  ~ In t tags -> existsb (String.eqb t) tags = false.
Proof.
  intros H. destruct (existsb (String.eqb t) tags) eqn:E; [| reflexivity].
  apply existsb_eqb_In in E. contradiction.
Qed.

Lemma bind_Ok {A B : Type} (c : result A) (k : A -> result B) (y : B) :
  bind c k = Ok y -> exists x, c = Ok x /\ k x = Ok y.
Proof.
  destruct c as [x | e]; simpl; intros H; [now exists x | discriminate].
Qed.

Lemma bind_Err {A B : Type} (c : result A) (k : A -> result B) (e : exn) :
  c = Err e -> bind c k = Err e.
Proof. now intros ->. Qed.

(** Takes a successful chain of binds apart, one step at a time. *)
Ltac bind_inv H :=
  let x := fresh "x" in
  let E := fresh "E" in
  apply bind_Ok in H; destruct H as [x [E H]].

Tactic Notation "bind_step" hyp(H) "as" ident(x) ident(E) :=
  apply bind_Ok in H; destruct H as [x [E H]].

Lemma mapM_Ok {A B : Type} (f : A -> result B) (l : list A) (ys : list B) :
  mapM f l = Ok ys <-> Forall2 (fun x y => f x = Ok y) l ys.
Proof.
  revert ys.
  induction l as [| x l IH]; intros ys; simpl.
  - split; intros H.
    + injection H as <-. constructor.
    + now inversion H.
  - split; intros H.
    + bind_inv H. bind_inv H. injection H as <-.
      constructor; [assumption | now apply IH].
    + inversion H as [| ? y ? ys' Hx Hl]; subst.
      rewrite Hx. simpl. apply IH in Hl. rewrite Hl. reflexivity.
Qed.

Lemma getitem_Ok {A : Type} (key : string) (v : option A) (x : A) :
  getitem key v = Ok x <-> v = Some x.
Proof.
  destruct v; simpl; split; intros H; congruence.
Qed.

(** The comprehension [[d[site][key] for site in d]]. *)
Lemma mapM_getitem {T V : Type} (key : string) (field : T -> option V)
    (l : list T) (xs : list V) :
  mapM (fun s => getitem key (field s)) l = Ok xs <->
  map field l = map Some xs.
Proof.
  rewrite mapM_Ok.
  revert xs.
  induction l as [| s l IH]; intros [| x xs]; simpl.
  - split; [reflexivity | constructor].
  - split; intros H; [inversion H | discriminate].
  - split; intros H; [inversion H | discriminate].
  - split; intros H.
    + inversion H as [| ? ? ? ? Hs Hl]; subst.
      apply getitem_Ok in Hs. apply IH in Hl. congruence.
    + injection H as Hs Hl.
      constructor; [now apply getitem_Ok | now apply IH].
Qed.

(** A comprehension over a missing key ends with an exception. *)
Lemma mapM_getitem_None {T V : Type} (key : string) (field : T -> option V)
    (l : list T) :
  Exists (fun s => field s = None) l ->
  mapM (fun s => getitem key (field s)) l = Err (KeyError key).
Proof.
  induction 1 as [s l Hs | s l _ IH]; simpl.
  - now rewrite Hs.
  - destruct (field s); cbn [getitem bind]; [| reflexivity].
    now rewrite IH.
Qed.

Section FieldFacts.

Context {num : Type} {NumOps : Numeric num} {T : Type}.

Local Abbreviation array := (nd num).

(** The comprehension [[np.array(d[site][key]) for site in d]]. *)
Lemma mapM_getitem_array (key : string) (field : T -> option array)
    (l : list T) (xs : list array) :
  mapM (fun s => x <- getitem key (field s) ;; np_array x) l = Ok xs <->
  map field l = map Some xs /\ Forall (fun x => rect x = true) xs.
Proof.
  rewrite mapM_Ok.
  revert xs.
  induction l as [| s l IH]; intros [| x xs]; simpl.
  - split; [split; [reflexivity | constructor] | constructor].
  - split; intros H; [inversion H | destruct H; discriminate].
  - split; intros H; [inversion H | destruct H; discriminate].
  - split; intros H.
    + inversion H as [| ? ? ? ? Hs Hl]; subst.
      bind_inv Hs. apply getitem_Ok in E. apply np_array_Ok in Hs as [Hr ->].
      apply IH in Hl as [Hl1 Hl2].
      split; [congruence | now constructor].
    + destruct H as [H1 H2]. inversion H2; subst.
      injection H1 as Hs Hl.
      constructor.
      * rewrite Hs. simpl. apply np_array_Ok. now split.
      * apply IH. now split.
Qed.

End FieldFacts.

(** * Sums over the sites *)

Section SumFacts.

Context {num : Type} {NumOps : Numeric num}.

Local Abbreviation array := (nd num).

(** The items of a rectangular list, seen from its first item. *)
Lemma rect_cons (x : array) (r : list array) :
  rect (Ar (x :: r)) = true <->
  rect x = true /\ Forall (fun y => rect y = true /\ shape y = shape x) r.
Proof.
  rewrite rect_Ar. simpl. split.
  - intros H. inversion H as [| ? ? [H1 _] H2]; subst. now split.
  - intros [H1 H2]. constructor; [now split | exact H2].
Qed.

Lemma fold_zipnd_shape (f : num -> num -> num) (r : list array) (x : array) :
  rect x = true ->
  Forall (fun y => rect y = true /\ shape y = shape x) r ->
  rect (fold_left (zipnd f) r x) = true /\
  shape (fold_left (zipnd f) r x) = shape x.
Proof.
  revert x.
  induction r as [| y r IH]; intros x Hx Hr; simpl; [now split |].
  inversion Hr as [| ? ? [Hy1 Hy2] Hr']; subst.
  destruct (zipnd_shape f x y Hx Hy1 (eq_sym Hy2)) as [H1 H2].
  destruct (IH (zipnd f x y) H1) as [H3 H4].
  - eapply Forall_impl; [| exact Hr'].
    intros z [Hz1 Hz2]. split; [exact Hz1 | congruence].
  - split; [exact H3 | congruence].
Qed.

(** The builtin [sum], from a start value of the shape of the items. *)
Lemma py_sum_from_same_shape (l : list array) (acc : array) :
  rect acc = true ->
  Forall (fun y => rect y = true /\ shape y = shape acc) l ->
  py_sum_from acc l = Ok (fold_left (zipnd nadd) l acc).
Proof.
  revert acc.
  induction l as [| y l IH]; intros acc Hacc Hl; cbn [py_sum_from fold_left];
    [reflexivity |].
  inversion Hl as [| ? ? [Hy1 Hy2] Hl']; subst.
  rewrite bcast2_same_shape by (assumption || congruence). cbn [bind].
  destruct (zipnd_shape nadd acc y Hacc Hy1 (eq_sym Hy2)) as [H1 H2].
  apply IH; [exact H1 |].
  eapply Forall_impl; [| exact Hl'].
  intros z [Hz1 Hz2]. split; [exact Hz1 | congruence].
Qed.

(** The builtin [sum] of arrays of one shape. *)
Lemma py_sum_same_shape (x : array) (r : list array) :
  rect (Ar (x :: r)) = true ->
  py_sum (x :: r) =
  Ok (fold_left (zipnd nadd) r (mapnd (nadd (of_nat 0)) x)).
Proof.
  intros H. apply rect_cons in H as [Hx Hr].
  unfold py_sum. cbn [py_sum_from].
  rewrite bcast2_scalar_l by assumption. cbn [bind].
  apply py_sum_from_same_shape.
  - now apply rect_mapnd.
  - eapply Forall_impl; [| exact Hr].
    intros z [Hz1 Hz2]. split; [exact Hz1 |].
    now rewrite shape_mapnd.
Qed.

(** An item of the builtin [sum] is the total of the column, from 0. *)
Lemma nd_get_py_sum (x : array) (r : list array) (idx : list nat) :
  nd_get idx (fold_left (zipnd nadd) r (mapnd (nadd (of_nat 0)) x)) =
  option_map total_from_zero (elements idx (x :: r)).
Proof.
  rewrite nd_get_fold_zipnd, fold_left_olift2, nd_get_mapnd.
  unfold elements, total_from_zero. simpl.
  destruct (nd_get idx x) as [x0 |]; [| reflexivity].
  simpl. now destruct (all_some (map (nd_get idx) r)).
Qed.

Lemma py_sum_rect (x : array) (r : list array) :
  rect (Ar (x :: r)) = true ->
  rect (fold_left (zipnd nadd) r (mapnd (nadd (of_nat 0)) x)) = true /\
  shape (fold_left (zipnd nadd) r (mapnd (nadd (of_nat 0)) x)) = shape x.
Proof.
  intros H. apply rect_cons in H as [Hx Hr].
  rewrite <- (shape_mapnd (nadd (of_nat 0)) x).
  apply fold_zipnd_shape.
  - now apply rect_mapnd.
  - eapply Forall_impl; [| exact Hr].
    intros z [Hz1 Hz2]. split; [exact Hz1 |].
    now rewrite shape_mapnd.
Qed.

(** The builtin [sum] from a start value: the result has a shape the
    start value and every array broadcast to, and each of its items is the
    start value's plus the arrays' items there, added in order. *)
Lemma py_sum_from_Ok (l : list array) (acc t : array) :
  rect acc = true -> Forall (fun a => rect a = true) l ->
  py_sum_from acc l = Ok t ->
  rect t = true /\
  broadcasts_to (shape acc) (shape t) = true /\
  Forall (fun a => broadcasts_to (shape a) (shape t) = true) l /\
  forall idx,
    nd_get idx t =
    fold_left (olift2 nadd)
              (map (fun a => nd_get idx (expand (shape t) a)) l)
              (nd_get idx (expand (shape t) acc)).
Proof.
  revert acc.
  induction l as [| a r IH]; intros acc Hacc Hl H; cbn [py_sum_from] in H.
  - injection H as <-.
    split; [exact Hacc |]. split; [apply broadcasts_to_refl |].
    split; [constructor |].
    intros idx. now rewrite expand_same.
  - inversion Hl as [| ? ? Ha Hr]; subst.
    bind_step H as acc' Hstep.
    destruct (bcast2_Ok _ _ _ _ Hacc Ha Hstep) as (Rc & B1 & B2 & Ec).
    destruct (IH acc' Rc Hr H) as (Rt & Bt & Ft & Hget).
    pose proof (shape_proper acc') as P.
    destruct (expand_rect_shape _ acc Hacc B1 P) as [Ra Sa].
    destruct (expand_rect_shape _ a Ha B2 P) as [Rb Sb].
    split; [exact Rt |].
    split; [eapply broadcasts_to_trans; eassumption |].
    split; [constructor; [eapply broadcasts_to_trans; eassumption | exact Ft] |].
    intros idx. rewrite Hget. cbn [map fold_left]. f_equal.
    rewrite Ec at 1.
    rewrite expand_zipnd by congruence.
    rewrite nd_get_zipnd.
    now rewrite !expand_expand by assumption.
Qed.

(** The builtin [sum] of at least one array: every array broadcasts to the
    shape of the result, and the result is the item-by-item sum of the
    arrays broadcast to it. *)
Lemma py_sum_broadcast (l : list array) (t : array) :
  l <> [] -> Forall (fun a => rect a = true) l -> py_sum l = Ok t ->
  rect t = true /\
  Forall (fun a => broadcasts_to (shape a) (shape t) = true) l /\
  elementwise_sum (map (expand (shape t)) l) t.
Proof.
  intros Hne Hl H. destruct l as [| x r]; [congruence |].
  inversion Hl as [| ? ? Hx Hr]; subst.
  unfold py_sum in H. cbn [py_sum_from] in H.
  rewrite bcast2_scalar_l in H by exact Hx. cbn [bind] in H.
  apply py_sum_from_Ok in H as (Rt & Bx & Br & Hget);
    [| now apply rect_mapnd | exact Hr].
  rewrite shape_mapnd in Bx.
  split; [exact Rt |]. split; [now constructor |].
  intros idx. rewrite Hget, fold_left_olift2, expand_mapnd, nd_get_mapnd.
  unfold elements, total_from_zero. rewrite !map_map. simpl.
  destruct (nd_get idx (expand (shape t) x)) as [x0 |]; [| reflexivity].
  simpl.
  now destruct (all_some (map (fun a => nd_get idx (expand (shape t) a)) r)).
Qed.

(** An array has an item when none of its axes has length 0. *)
Lemma size_nonzero (a : array) :
  size a <> 0 <-> Forall (fun d => d <> 0) (shape a).
Proof.
  unfold size.
  induction (shape a) as [| d s IH]; simpl.
  - split; [constructor | discriminate].
  - rewrite <- Nat.neq_mul_0, IH. split.
    + intros [H1 H2]. now constructor.
    + intros H. inversion H; subst. now split.
Qed.

Lemma size_mapnd (g : num -> num) (a : array) : size (mapnd g a) = size a.
Proof. unfold size. now rewrite shape_mapnd. Qed.

(** [np.average(l, axis=0)] of at least one array. *)
Lemma np_average_axis0_Ok (x : array) (r : list array) (avg : array) :
  np_average_axis0 (x :: r) = Ok avg ->
  rect (Ar (x :: r)) = true /\
  avg = mapnd (fun t => ndiv t (of_nat (length (x :: r))))
              (fold_left (zipnd nadd) r x) /\
  size x <> 0.
Proof.
  unfold np_average_axis0. intros H.
  bind_inv H. apply np_array_Ok in E as [Hr ->].
  cbn [sum_axis0 bind] in H.
  destruct (Nat.eqb_spec
              (size (mapnd (fun t => ndiv t (of_nat (length (x :: r))))
                       (fold_left (zipnd nadd) r x))) 0) as [E | E];
    [discriminate |].
  injection H as <-.
  split; [exact Hr |]. split; [reflexivity |].
  pose proof Hr as Hr'. apply rect_cons in Hr' as [H1 H2].
  destruct (fold_zipnd_shape nadd r x H1 H2) as [_ Hs].
  rewrite size_mapnd in E. unfold size in *. now rewrite <- Hs.
Qed.

(** [np.average(l, axis=0)] of arrays of one shape that have an item. *)
Lemma np_average_axis0_returns (x : array) (r : list array) :
  rect (Ar (x :: r)) = true ->
  size x <> 0 ->
  np_average_axis0 (x :: r) =
  Ok (mapnd (fun t => ndiv t (of_nat (length (x :: r))))
            (fold_left (zipnd nadd) r x)).
Proof.
  intros Hr Hx. unfold np_average_axis0.
  rewrite (proj2 (np_array_Ok _ _) (conj Hr eq_refl)).
  cbn [sum_axis0 bind].
  pose proof Hr as Hr'. apply rect_cons in Hr' as [H1 H2].
  destruct (fold_zipnd_shape nadd r x H1 H2) as [_ Hs].
  destruct (Nat.eqb_spec
              (size (mapnd (fun t => ndiv t (of_nat (length (x :: r))))
                       (fold_left (zipnd nadd) r x))) 0) as [E | E];
    [| reflexivity].
  exfalso. apply Hx. rewrite size_mapnd in E. unfold size in *.
  now rewrite <- Hs.
Qed.

(** The arrays without any item: [np.average] ends with the
    ZeroDivisionError of the size division. *)
Lemma np_average_axis0_empty (x : array) (r : list array) :
  rect (Ar (x :: r)) = true ->
  size x = 0 ->
  np_average_axis0 (x :: r) = Err ZeroDivisionError.
Proof.
  intros Hr Hx. unfold np_average_axis0.
  rewrite (proj2 (np_array_Ok _ _) (conj Hr eq_refl)).
  cbn [sum_axis0 bind].
  pose proof Hr as Hr'. apply rect_cons in Hr' as [H1 H2].
  destruct (fold_zipnd_shape nadd r x H1 H2) as [_ Hs].
  rewrite size_mapnd. unfold size in *. now rewrite Hs, Hx.
Qed.

End SumFacts.

(** * remote_1 *)

Section Remote1Facts.

Context {num : Type} {NumOps : Numeric num} {blob : Type}.

Local Abbreviation array := (nd num).
Local Abbreviation payload := (args num blob).
Local Abbreviation sites := (fun a : payload => values (input a)).

(** What a successful run of [remote_1] went through. *)
Lemma remote_1_Ok (a : payload) (out : computation_output_1 num blob) :
  remote_1 a = Ok out ->
  exists (b : array) (bs : list array) (means : list array)
         (c : array) (cs : list array)
         (weighted weighted_sum count_sum mean_y_global dof_global : array)
         (p : nat),
    map beta_vector_local (sites a) = map Some (b :: bs) /\
    map mean_y_local (sites a) = map Some means /\
    map count_local (sites a) = map Some (c :: cs) /\
    rect (Ar (b :: bs)) = true /\
    rect (Ar means) = true /\
    rect (Ar (c :: cs)) = true /\
    bcast2 nmul (Ar means) (Ar (c :: cs)) = Ok weighted /\
    sum_axis0 weighted = Ok weighted_sum /\
    count_sum = fold_left (zipnd nadd) cs c /\
    bcast2 ndiv weighted_sum count_sum = Ok mean_y_global /\
    nth_error (shape b) 1 = Some p /\
    dof_global =
      mapnd (fun t => nsub t (of_nat p))
            (fold_left (zipnd nadd) cs (mapnd (nadd (of_nat 0)) c)) /\
    out_avg_beta_vector (output_1 out) =
      mapnd (fun t => ndiv t (of_nat (length (b :: bs))))
            (fold_left (zipnd nadd) bs b) /\
    out_mean_y_global (output_1 out) = mean_y_global /\
    cache_avg_beta_vector (cache_1 out) =
      Some (out_avg_beta_vector (output_1 out)) /\
    cache_mean_y_global (cache_1 out) = Some mean_y_global /\
    cache_dof_global (cache_1 out) = Some dof_global /\
    cache_local_stats_dict (cache_1 out) <> None /\
    map local_stats_dict (sites a) =
      map Some (match cache_local_stats_dict (cache_1 out) with
                | Some l => l
                | None => []
                end).
Proof.
  unfold remote_1. intros H.
  bind_step H as user Huser.
  bind_step H as Xl HXl. bind_step H as yl Hyl.
  bind_step H as stats Hstats.
  bind_step H as betas Hbetas.
  bind_step H as avg Havg.
  bind_step H as means Hmeans.
  bind_step H as counts Hcounts.
  bind_step H as means' Hmeans'.
  bind_step H as counts' Hcounts'.
  bind_step H as weighted Hweighted.
  bind_step H as weighted_sum Hwsum.
  bind_step H as count_sum Hcsum.
  bind_step H as mean_y_global Hmy.
  bind_step H as count_total Hctot.
  bind_step H as p Hp.
  bind_step H as dof_global Hdof.
  injection H as <-. cbn [output_1 cache_1 out_avg_beta_vector
    out_mean_y_global cache_avg_beta_vector cache_mean_y_global
    cache_dof_global cache_local_stats_dict].
  unfold tolist.
  apply mapM_getitem_array in Hbetas as [Hbetas Hbrect].
  apply mapM_getitem in Hmeans.
  apply mapM_getitem_array in Hcounts as [Hcounts Hcrect].
  apply np_array_Ok in Hmeans' as [Hmrect ->].
  apply np_array_Ok in Hcounts' as [Hcrect' ->].
  (* there is at least one site *)
  unfold first_item in Huser.
  destruct (input a) as [| kv rest] eqn:Hin; [discriminate |].
  assert (Hsites : values (input a) = snd kv :: values rest)
    by (now rewrite Hin).
  rewrite <- Hin in *. rewrite Hsites in *.
  destruct betas as [| b bs]; [discriminate |].
  destruct counts as [| c cs]; [discriminate |].
  apply np_average_axis0_Ok in Havg as (Hbr & -> & _).
  unfold np_sum_axis0 in Hcsum. bind_step Hcsum as counts_array Hca.
  apply np_array_Ok in Hca as [_ ->]. simpl in Hcsum. injection Hcsum as <-.
  rewrite py_sum_same_shape in Hctot by assumption. injection Hctot as <-.
  destruct (py_sum_rect c cs Hcrect') as [Hr1 Hr2].
  rewrite bcast2_scalar_r in Hdof by assumption. injection Hdof as <-.
  unfold shape_at in Hp.
  destruct (nth_error _ 1) as [p' |] eqn:Hp'; [| discriminate].
  injection Hp as ->.
  rewrite shape_mapnd in Hp'.
  apply rect_cons in Hbr as [Hb1 Hb2].
  destruct (fold_zipnd_shape nadd bs b Hb1 Hb2) as [_ Hsh].
  rewrite Hsh in Hp'.
  apply mapM_getitem in Hstats.
  exists b, bs, means, c, cs, weighted, weighted_sum,
    (fold_left (zipnd nadd) cs c), mean_y_global,
    (mapnd (fun t => nsub t (of_nat p))
       (fold_left (zipnd nadd) cs (mapnd (nadd (of_nat 0)) c))), p.
  repeat split; try assumption; try reflexivity.
  - now apply rect_cons.
  - discriminate.
Qed.


Lemma map_Some_inj {A : Type} (l1 l2 : list A) :
  map Some l1 = map Some l2 -> l1 = l2.
Proof.
  revert l2.
  induction l1 as [| x l1 IH]; intros [| y l2] H; simpl in H;
    try discriminate; [reflexivity |].
  injection H as -> H. f_equal. now apply IH.
Qed.

Lemma Forall_map_Some {T V : Type} (field : T -> option V) (P : V -> Prop)
    (l : list T) (vs : list V) :
  map field l = map Some vs ->
  Forall P vs ->
  Forall (fun s => exists v, field s = Some v /\ P v) l.
Proof.
  revert vs.
  induction l as [| s l IH]; intros [| v vs] Hmap Hall; simpl in Hmap;
    try discriminate; constructor.
  - injection Hmap as Hs _. inversion Hall; subst. now exists v.
  - injection Hmap as _ Hl. inversion Hall; subst. now apply (IH vs).
Qed.

Lemma elements_map2 (f : num -> num -> num) (l1 l2 : list array)
    (idx : list nat) :
  length l1 = length l2 ->
  elements idx (map2 (zipnd f) l1 l2) =
  match elements idx l1, elements idx l2 with
  | Some xs, Some ys => Some (map2 f xs ys)
  | _, _ => None
  end.
Proof.
  unfold elements. revert l2.
  induction l1 as [| a l1 IH]; intros [| b l2] Hlen; simpl in *;
    try discriminate; [reflexivity |].
  rewrite nd_get_zipnd, IH by congruence.
  destruct (nd_get idx a) as [x |]; simpl; [| reflexivity].
  destruct (nd_get idx b) as [y |]; simpl.
  - destruct (all_some (map (nd_get idx) l1)); simpl; [| reflexivity].
    now destruct (all_some (map (nd_get idx) l2)).
  - now destruct (all_some (map (nd_get idx) l1)).
Qed.

(** C1.  Whenever [remote_1] returns, the "avg_beta_vector" of its output
    and of its cache is the item-by-item unweighted arithmetic mean of the
    sites' "beta_vector_local" arrays: there is at least one site, all
    arrays have the shape of the result, and the item at every index is
    the total of the sites' items at that index divided by the number of
    sites. *)
Theorem remote_1_avg_beta_vector_is_mean (a : payload)
    (out : computation_output_1 num blob) :
  remote_1 a = Ok out ->
  exists betas : list array,
    map beta_vector_local (sites a) = map Some betas /\
    1 <= length betas /\
    Forall (fun b => shape b = shape (out_avg_beta_vector (output_1 out)))
           betas /\
    cache_avg_beta_vector (cache_1 out) =
      Some (out_avg_beta_vector (output_1 out)) /\
    forall idx : list nat,
      nd_get idx (out_avg_beta_vector (output_1 out)) =
      option_map (fun xs => ndiv (total xs) (of_nat (length betas)))
                 (elements idx betas).
Proof.
  intros H.
  destruct (remote_1_Ok a out H)
    as (b & bs & means & c & cs & w & ws & csum & my & dof & p &
        Hb & _ & _ & Hbr & _ & _ & _ & _ & _ & _ & _ & _ & Havg & _ &
        Hcache & _).
  exists (b :: bs).
  apply rect_cons in Hbr as [Hb1 Hb2].
  destruct (fold_zipnd_shape nadd bs b Hb1 Hb2) as [_ Hsh].
  repeat split.
  - exact Hb.
  - simpl. lia.
  - rewrite Havg, shape_mapnd, Hsh.
    constructor; [reflexivity |].
    eapply Forall_impl; [| exact Hb2]. now intros z [_ Hz].
  - exact Hcache.
  - intros idx.
    rewrite Havg, nd_get_mapnd, nd_get_sum_axis0.
    now destruct (elements idx (b :: bs)).
Qed.

(** The general part of C3: whenever [remote_1] returns, every site's
    coefficient array has the same number [p] of columns ([shape[1]]) and
    every item of "dof_global" is the builtin sum of the sites' counts at
    that index, minus [p]. *)
Lemma remote_1_dof_global (a : payload) (out : computation_output_1 num blob) :
  remote_1 a = Ok out ->
  exists (betas counts : list array) (p : nat) (dof : array),
    map beta_vector_local (sites a) = map Some betas /\
    map count_local (sites a) = map Some counts /\
    Forall (fun b => nth_error (shape b) 1 = Some p) betas /\
    cache_dof_global (cache_1 out) = Some dof /\
    forall idx : list nat,
      nd_get idx dof =
      option_map (fun cs => nsub (total_from_zero cs) (of_nat p))
                 (elements idx counts).
Proof.
  intros H.
  destruct (remote_1_Ok a out H)
    as (b & bs & means & c & cs & w & ws & csum & my & dof & p &
        Hb & _ & Hc & Hbr & _ & _ & _ & _ & _ & _ & Hp & Hdof & _ & _ &
        _ & _ & Hcache & _).
  exists (b :: bs), (c :: cs), p, dof.
  apply rect_cons in Hbr as [Hb1 Hb2].
  repeat split; try assumption.
  - constructor; [exact Hp |].
    eapply Forall_impl; [| exact Hb2]. intros z [_ Hz]. now rewrite Hz.
  - intros idx.
    rewrite Hdof, nd_get_mapnd, nd_get_py_sum.
    now destruct (elements idx (c :: cs)).
Qed.

(** The weighted mean, when every site's count has the shape of its mean:
    whenever [remote_1] returns, the item of "mean_y_global" at every index
    is the total of the sites' mean times count at that index, divided by
    the total of the counts there. *)
Lemma remote_1_mean_y_global (a : payload)
    (out : computation_output_1 num blob) (means counts : list array) :
  remote_1 a = Ok out ->
  map mean_y_local (sites a) = map Some means ->
  map count_local (sites a) = map Some counts ->
  Forall2 (fun m c => shape m = shape c) means counts ->
  forall idx : list nat,
    nd_get idx (out_mean_y_global (output_1 out)) =
    match elements idx means, elements idx counts with
    | Some ms, Some cs => Some (ndiv (total (map2 nmul ms cs)) (total cs))
    | _, _ => None
    end.
Proof.
  intros H Hm Hc Hshape idx.
  destruct (remote_1_Ok a out H)
    as (b & bs & means' & c & cs & w & ws & csum & my & dof & p &
        _ & Hm' & Hc' & _ & Hmr & Hcr & Hw & Hws & Hcsum & Hmy & _ & _ &
        _ & Hout & _).
  rewrite Hm in Hm'. apply map_Some_inj in Hm'. subst means'.
  rewrite Hc in Hc'. apply map_Some_inj in Hc'. subst counts.
  destruct means as [| m ms]; [inversion Hshape |].
  assert (Hmc : shape m = shape c) by (now inversion Hshape).
  assert (Hlen : length ms = length cs).
  { apply Forall2_length in Hshape. simpl in Hshape. congruence. }
  assert (Hs : shape (Ar (m :: ms)) = shape (Ar (c :: cs))).
  { rewrite !shape_Ar. simpl. congruence. }
  rewrite bcast2_same_shape in Hw by assumption.
  destruct (zipnd_shape nmul _ _ Hmr Hcr Hs) as [Hwr _].
  rewrite zipnd_Ar in Hw, Hwr. cbn [map2] in Hw, Hwr.
  injection Hw as Hw. rewrite <- Hw in Hws.
  cbn [sum_axis0] in Hws. injection Hws as Hws.
  apply rect_cons in Hwr as [Hw1 Hw2].
  destruct (fold_zipnd_shape nadd _ _ Hw1 Hw2) as [Hr1 Hr2].
  rewrite Hws in Hr1, Hr2.
  apply rect_cons in Hmr as [Hm1 Hm2].
  apply rect_cons in Hcr as [Hc1 Hc2].
  destruct (fold_zipnd_shape nadd _ _ Hc1 Hc2) as [Hr3 Hr4].
  rewrite <- Hcsum in Hr3, Hr4.
  destruct (zipnd_shape nmul m c Hm1 Hc1 Hmc) as [_ Hmcs].
  rewrite bcast2_same_shape in Hmy by congruence.
  injection Hmy as Hmy.
  rewrite Hout, <- Hmy, <- Hws, Hcsum.
  rewrite nd_get_zipnd, !nd_get_sum_axis0.
  change (zipnd nmul m c :: map2 (zipnd nmul) ms cs)
    with (map2 (zipnd nmul) (m :: ms) (c :: cs)).
  rewrite elements_map2 by (simpl; congruence).
  destruct (elements idx (m :: ms)) as [xs |]; [| reflexivity].
  now destruct (elements idx (c :: cs)).
Qed.

(** C10, as the code has it.  [remote_1] returns only when every site's
    "beta_vector_local" is a rectangular array of at least two dimensions
    (it reads [shape[1]]); when every site's "beta_vector_local" is
    one-dimensional it fails with an exception. *)
Theorem remote_1_needs_two_dimensions :
  (forall (a : payload) (out : computation_output_1 num blob),
      remote_1 a = Ok out ->
      Forall (fun s => exists b, beta_vector_local s = Some b /\
                                 rect b = true /\ 2 <= ndim b)
             (sites a)) /\
  (forall a : payload,
      Forall (fun s => exists b, beta_vector_local s = Some b /\ ndim b = 1)
             (sites a) ->
      exists e, remote_1 a = Err e).
Proof.
  assert (Hmain : forall (a : payload) (out : computation_output_1 num blob),
             remote_1 a = Ok out ->
             sites a <> [] /\
             Forall (fun s => exists b, beta_vector_local s = Some b /\
                                        rect b = true /\ 2 <= ndim b)
                    (sites a)).
  { intros a out H.
    destruct (remote_1_Ok a out H)
      as (b & bs & means & c & cs & w & ws & csum & my & dof & p &
          Hb & _ & _ & Hbr & _ & _ & _ & _ & _ & _ & Hp & _).
    split; [intros E; rewrite E in Hb; discriminate |].
    apply rect_cons in Hbr as [Hb1 Hb2].
    assert (Hall : Forall (fun z => rect z = true /\ 2 <= ndim z) (b :: bs)).
    { assert (Hnd : 2 <= ndim b).
      { unfold ndim. assert (Hlt : 1 < length (shape b))
          by (apply nth_error_Some; congruence). lia. }
      constructor; [now split |].
      eapply Forall_impl; [| exact Hb2].
      intros z [Hz1 Hz2]. split; [exact Hz1 |]. unfold ndim in *. now rewrite Hz2. }
    eapply Forall_map_Some in Hall; [| exact Hb].
    eapply Forall_impl; [| exact Hall].
    intros s [z [Hs [Hz1 Hz2]]]. now exists z. }
  split.
  - intros a out H. now apply (Hmain a out).
  - intros a Hflat.
    destruct (remote_1 a) as [out | e] eqn:E; [| now exists e].
    exfalso.
    destruct (Hmain a out E) as [Hne Hdeep].
    destruct (sites a) as [| s l]; [now apply Hne |].
    inversion Hflat as [| ? ? [b1 [Hb1 Hn1]] _]; subst.
    inversion Hdeep as [| ? ? [b2 [Hb2 [_ Hn2]]] _]; subst.
    rewrite Hb1 in Hb2. injection Hb2 as <-. lia.
Qed.

(** [remote_1] returns on every well-formed payload: at least one site,
    every key present, coefficient arrays of one shape with at least two
    dimensions and at least one item (no axis of length 0), and means and
    counts of one shape. *)
Lemma remote_1_returns (a : payload) (user : string * site num blob)
    (rest : dict (site num blob)) (Xl yl : list string) (stats : list blob)
    (betas means counts : list array) (V p : nat) (s sy : list nat) :
  input a = user :: rest ->
  X_labels (snd user) = Some Xl ->
  y_labels (snd user) = Some yl ->
  map local_stats_dict (sites a) = map Some stats ->
  map beta_vector_local (sites a) = map Some betas ->
  map mean_y_local (sites a) = map Some means ->
  map count_local (sites a) = map Some counts ->
  Forall (fun b => rect b = true /\ shape b = V :: p :: s) betas ->
  Forall (fun d => d <> 0) (V :: p :: s) ->
  Forall (fun m => rect m = true /\ shape m = sy) means ->
  Forall (fun c => rect c = true /\ shape c = sy) counts ->
  exists out, remote_1 a = Ok out.
Proof.
  intros Hin HXl Hyl Hstats Hbetas Hmeans Hcounts Hb Hitems Hm Hc.
  assert (Hrect : forall (l : list array) (t : list nat),
             Forall (fun x => rect x = true /\ shape x = t) l ->
             rect (Ar l) = true /\ Forall (fun x => rect x = true) l).
  { intros l t H. split.
    - apply rect_Ar. rewrite Forall_forall in *. intros y Hy.
      destruct (H y Hy) as [H1 H2]. split; [exact H1 |].
      destruct l as [| z l]; [destruct Hy |].
      simpl. destruct (H z (or_introl eq_refl)) as [_ H3]. congruence.
    - eapply Forall_impl; [| exact H]. now intros x [Hx _]. }
  destruct (Hrect _ _ Hb) as [Hbr Hbr'].
  destruct (Hrect _ _ Hm) as [Hmr _].
  destruct (Hrect _ _ Hc) as [Hcr Hcr'].
  assert (Hlen : forall (f : site num blob -> option array) l,
             map f (sites a) = map Some l -> length l = S (length rest)).
  { intros f l H. apply (f_equal (@length _)) in H.
    rewrite !length_map in H. unfold values in H.
    rewrite length_map, Hin in H. simpl in H. congruence. }
  destruct betas as [| b bs]; [now apply Hlen in Hbetas |].
  destruct means as [| m ms]; [now apply Hlen in Hmeans |].
  destruct counts as [| c cs]; [now apply Hlen in Hcounts |].
  unfold remote_1. rewrite Hin. cbn [first_item bind fst snd].
  rewrite HXl, Hyl. cbn [getitem bind].
  rewrite <- Hin.
  rewrite (proj2 (mapM_getitem _ _ _ _) Hstats). cbn [bind].
  rewrite (proj2 (mapM_getitem_array _ _ _ _) (conj Hbetas Hbr')). cbn [bind].
  assert (Hsize : size b <> 0).
  { apply size_nonzero. now destruct (Forall_inv Hb) as [_ ->]. }
  rewrite (np_average_axis0_returns b bs Hbr Hsize). cbn [bind].
  rewrite (proj2 (mapM_getitem _ _ _ _) Hmeans). cbn [bind].
  rewrite (proj2 (mapM_getitem_array _ _ _ _) (conj Hcounts Hcr')). cbn [bind].
  rewrite (proj2 (np_array_Ok _ _) (conj Hmr eq_refl)). cbn [bind].
  rewrite (proj2 (np_array_Ok _ _) (conj Hcr eq_refl)). cbn [bind].
  assert (Hs : shape (Ar (m :: ms)) = shape (Ar (c :: cs))).
  { rewrite !shape_Ar. simpl.
    apply Hlen in Hmeans. apply Hlen in Hcounts. simpl in Hmeans, Hcounts.
    destruct (Forall_inv Hm) as [_ ->]. destruct (Forall_inv Hc) as [_ ->].
    congruence. }
  rewrite bcast2_same_shape by assumption. cbn [bind].
  destruct (zipnd_shape nmul _ _ Hmr Hcr Hs) as [Hwr _].
  rewrite zipnd_Ar in *. cbn [map2 sum_axis0 bind] in *.
  unfold np_sum_axis0.
  rewrite (proj2 (np_array_Ok _ _) (conj Hcr eq_refl)). cbn [bind sum_axis0].
  apply rect_cons in Hwr as [Hw1 Hw2].
  destruct (fold_zipnd_shape nadd _ _ Hw1 Hw2) as [Hr1 Hr2].
  pose proof Hcr as Hcr2. apply rect_cons in Hcr2 as [Hc1 Hc2].
  destruct (fold_zipnd_shape nadd _ _ Hc1 Hc2) as [Hr3 Hr4].
  pose proof Hmr as Hmr2. apply rect_cons in Hmr2 as [Hm1 _].
  assert (Hmc : shape m = shape c).
  { destruct (Forall_inv Hm) as [_ ->]. now destruct (Forall_inv Hc) as [_ ->]. }
  destruct (zipnd_shape nmul m c Hm1 Hc1 Hmc) as [_ Hmcs].
  rewrite bcast2_same_shape by congruence. cbn [bind].
  rewrite py_sum_same_shape by assumption. cbn [bind].
  pose proof Hbr as Hbr2. apply rect_cons in Hbr2 as [Hb1 Hb2].
  destruct (fold_zipnd_shape nadd _ _ Hb1 Hb2) as [_ Hsh].
  unfold shape_at. rewrite shape_mapnd, Hsh.
  destruct (Forall_inv Hb) as [_ ->]. cbn [nth_error bind].
  destruct (py_sum_rect c cs Hcr) as [Hr5 _].
  rewrite bcast2_scalar_r by assumption. cbn [bind].
  eexists. reflexivity.
Qed.

End Remote1Facts.

(** * Matrices and their diagonal *)

Section MatrixFacts.

Context {num : Type} {NumOps : Numeric num}.

Local Abbreviation array := (nd num).

Lemma shape_nil_Sc (x : array) : shape x = [] -> exists v, x = Sc v.
Proof.
  destruct x as [v | l]; [now exists v | discriminate].
Qed.

Lemma nd_get_nil_Some (x : array) (v : num) : nd_get [] x = Some v -> x = Sc v.
Proof.
  destruct x as [w | l]; simpl; intros H; [congruence | discriminate].
Qed.

Lemma nd_get_cons (i : nat) (idx : list nat) (l : list array) (b : array) :
  nth_error l i = Some b -> nd_get (i :: idx) (Ar l) = nd_get idx b.
Proof. simpl. now intros ->. Qed.

(** The items of a rectangular array of shape [n :: s] have shape [s]. *)
Lemma rect_items (l : list array) (n : nat) (s : list nat) (b : array) :
  rect (Ar l) = true -> shape (Ar l) = n :: s -> In b l ->
  rect b = true /\ shape b = s.
Proof.
  intros Hr Hs Hb.
  apply rect_Ar in Hr. rewrite Forall_forall in Hr.
  rewrite shape_Ar in Hs. injection Hs as _ Hs.
  destruct (Hr b Hb) as [H1 H2]. split; congruence.
Qed.

Lemma shape_cons_Ar (a : array) (n : nat) (s : list nat) :
  shape a = n :: s -> exists l, a = Ar l /\ length l = n.
Proof.
  destruct a as [v | l]; [discriminate |].
  rewrite shape_Ar. intros H. injection H as H _. now exists l.
Qed.

(** A list of numbers is a rectangular array of one dimension. *)
Lemma scalars_rect (l : list array) :
  Forall (fun d => shape d = []) l ->
  rect (Ar l) = true /\ shape (Ar l) = [length l].
Proof.
  intros H. split.
  - apply rect_Ar. rewrite Forall_forall in *. intros y Hy.
    destruct (shape_nil_Sc y (H y Hy)) as [v ->].
    split; [reflexivity |].
    destruct l as [| z l]; [destruct Hy |].
    simpl. symmetry. apply H. now left.
  - rewrite shape_Ar. f_equal.
    destruct l as [| z l]; [reflexivity |].
    simpl. apply (Forall_inv H).
Qed.

Lemma nth_error_diag_entries (m : nat) (rows : list array) (k j : nat) :
  Forall (fun r => length (children r) = m) rows ->
  nth_error (diag_entries rows k) j =
  match nth_error rows j with
  | Some r => nth_error (children r) (k + j)
  | None => None
  end.
Proof.
  revert k j.
  induction rows as [| r rows IH]; intros k j Hm.
  - now destruct j.
  - inversion Hm as [| ? ? Hr Hrows]; subst.
    cbn [diag_entries].
    destruct (nth_error (children r) k) as [d |] eqn:Ek.
    + destruct j as [| j]; simpl.
      * now rewrite Nat.add_0_r.
      * rewrite IH by assumption. now rewrite Nat.add_succ_r.
    + destruct j as [| j]; simpl.
      * now rewrite Nat.add_0_r.
      * destruct (nth_error rows j) as [r' |] eqn:Ej; [| reflexivity].
        symmetry. apply nth_error_None.
        apply nth_error_None in Ek.
        rewrite Forall_forall in Hrows.
        rewrite (Hrows r') by (eapply nth_error_In; eassumption).
        lia.
Qed.

Lemma length_diag_entries (m : nat) (rows : list array) (k : nat) :
  Forall (fun r => length (children r) = m) rows ->
  length (diag_entries rows k) = Nat.min (length rows) (m - k).
Proof.
  revert k.
  induction rows as [| r rows IH]; intros k Hm; [reflexivity |].
  inversion Hm as [| ? ? Hr Hrows]; subst.
  cbn [diag_entries].
  destruct (nth_error (children r) k) as [d |] eqn:Ek.
  - assert (k < length (children r)) by (apply nth_error_Some; congruence).
    cbn [length]. rewrite IH by assumption. lia.
  - apply nth_error_None in Ek. cbn [length]. lia.
Qed.

Lemma diag_entries_In (rows : list array) (k : nat) (d : array) :
  In d (diag_entries rows k) -> exists r, In r rows /\ In d (children r).
Proof.
  revert k.
  induction rows as [| r rows IH]; intros k Hd; [destruct Hd |].
  cbn [diag_entries] in Hd.
  destruct (nth_error (children r) k) as [d' |] eqn:Ek; [| destruct Hd].
  destruct Hd as [<- | Hd].
  - exists r. split; [now left | eapply nth_error_In; eassumption].
  - destruct (IH _ Hd) as [r' [H1 H2]]. exists r'. split; [now right | exact H2].
Qed.

(** The diagonal of an [n] by [m] matrix: the numbers [M[j][j]]. *)
Lemma diagonal_matrix (M : array) (n m : nat) :
  rect M = true -> shape M = [n; m] ->
  exists d,
    diagonal M = Ok d /\
    rect d = true /\
    shape d = [Nat.min n m] /\
    forall j, nd_get [j] d = nd_get [j; j] M.
Proof.
  intros Hr Hs.
  destruct (shape_cons_Ar M n [m] Hs) as [rows [-> Hn]].
  assert (Hrows : forall r, In r rows ->
            exists cols, r = Ar cols /\ length cols = m /\
                         Forall (fun c => shape c = []) cols).
  { intros r Hin.
    destruct (rect_items rows n [m] r Hr Hs Hin) as [Hr1 Hr2].
    destruct (shape_cons_Ar r m [] Hr2) as [cols [-> Hm]].
    exists cols. repeat split; [exact Hm |].
    rewrite Forall_forall. intros c Hc.
    now destruct (rect_items cols m [] c Hr1 Hr2 Hc). }
  assert (Hlen : Forall (fun r => length (children r) = m) rows).
  { rewrite Forall_forall. intros r Hin.
    destruct (Hrows r Hin) as [cols [-> [Hm _]]]. exact Hm. }
  assert (Hsc : Forall (fun d => shape d = []) (diag_entries rows 0)).
  { rewrite Forall_forall. intros d Hd.
    destruct (diag_entries_In rows 0 d Hd) as [r [H1 H2]].
    destruct (Hrows r H1) as [cols [-> [_ Hcols]]].
    rewrite Forall_forall in Hcols. now apply Hcols. }
  destruct (scalars_rect _ Hsc) as [Hd1 Hd2].
  exists (Ar (diag_entries rows 0)).
  repeat split.
  - destruct rows as [| r rows]; [discriminate |].
    destruct (Hrows r (or_introl eq_refl)) as [cols [-> _]].
    unfold diagonal. f_equal.
    destruct (diag_entries (Ar cols :: rows) 0) as [| d ds] eqn:Ed;
      [reflexivity |].
    rewrite (Forall_inv Hsc). reflexivity.
  - exact Hd1.
  - rewrite Hd2, (length_diag_entries m) by assumption.
    rewrite Hn, Nat.sub_0_r. reflexivity.
  - intros j. simpl.
    rewrite (nth_error_diag_entries m) by assumption. simpl.
    destruct (nth_error rows j) as [r |] eqn:Ej; [| reflexivity].
    destruct (Hrows r (nth_error_In _ _ Ej)) as [cols [-> _]].
    reflexivity.
Qed.

Lemma Forall2_seq_nth {B : Type} (R : nat -> B -> Prop) (l : list B)
    (k n : nat) :
  Forall2 R (seq k n) l ->
  length l = n /\
  forall i, i < n -> exists y, nth_error l i = Some y /\ R (k + i) y.
Proof.
  revert k l.
  induction n as [| n IH]; intros k l H; simpl in H.
  - inversion H; subst. split; [reflexivity | intros i Hi; lia].
  - inversion H as [| ? y ? l' Hy Hl]; subst.
    destruct (IH _ _ Hl) as [H1 H2].
    split; [simpl; congruence |].
    intros [| i] Hi.
    + exists y. rewrite Nat.add_0_r. now split.
    + destruct (H2 i) as [z [Hz1 Hz2]]; [lia |].
      exists z. rewrite Nat.add_succ_r. now split.
Qed.

(** A vector of length [V] has an item at every index below [V]. *)
Lemma nd_get_vector (a : array) (V i : nat) :
  rect a = true -> shape a = [V] -> i < V ->
  exists x, nd_get [i] a = Some x.
Proof.
  intros Hr Hs Hi.
  destruct (shape_cons_Ar _ _ _ Hs) as [l [-> Hl]].
  destruct (nth_error l i) as [y |] eqn:Ey;
    [| apply nth_error_None in Ey; lia].
  destruct (rect_items l V [] y Hr Hs (nth_error_In _ _ Ey)) as [_ Hy].
  destruct (shape_nil_Sc _ Hy) as [x ->].
  exists x. simpl. now rewrite Ey.
Qed.

(** A [V] by [p] array has an item at every [i < V], [j < p]. *)
Lemma nd_get_matrix (a : array) (V p i j : nat) :
  rect a = true -> shape a = [V; p] -> i < V -> j < p ->
  exists x, nd_get [i; j] a = Some x.
Proof.
  intros Hr Hs Hi Hj.
  destruct (shape_cons_Ar _ _ _ Hs) as [rows [-> Hl]].
  destruct (nth_error rows i) as [row |] eqn:Erow;
    [| apply nth_error_None in Erow; lia].
  destruct (rect_items rows V [p] row Hr Hs (nth_error_In _ _ Erow))
    as [Hrow_r Hrow_s].
  destruct (nd_get_vector row p j Hrow_r Hrow_s Hj) as [x Hx].
  exists x. now rewrite (nd_get_cons i [j] rows row Erow).
Qed.

End MatrixFacts.

(** * remote_2 *)

Section Remote2Facts.

Context {num : Type} {NumOps : Numeric num} {blob artifact : Type}.

Variable linalg_inv : nd num -> result (nd num).
Variable t_to_p : nd num -> nd num -> nd num.
Variable list_recursive : args num blob -> string -> list string.
Variable encode_png : args num blob -> artifact.

Local Abbreviation array := (nd num).
Local Abbreviation payload := (args num blob).
Local Abbreviation sites := (fun a : payload => values (input a)).
Local Abbreviation remote_2' := (remote_2 linalg_inv t_to_p encode_png).
Local Abbreviation t_and_p' := (t_and_p linalg_inv t_to_p).
Local Abbreviation remote_2_values' := (remote_2_values linalg_inv t_to_p).
Local Abbreviation effects := (M num blob artifact).

Lemma bindM_lift {A B : Type} (c : result A) (k : A -> effects B) :
  bindM (lift c) k =
  match c with
  | Ok x => k x
  | Err e => ([], Err e)
  end.
Proof.
  destruct c as [x | e]; simpl; [| reflexivity].
  now destruct (k x).
Qed.

(** [remote_2] either fails before any rendering call, or makes the two
    rendering calls and returns. *)
Lemma remote_2_eq (a : payload) :
  remote_2' a =
  match remote_2_values' a with
  | Ok (Xl, stats, avg_beta_vector, _, tps) =>
      ([print_pvals a (map snd tps) (map fst tps) Xl;
        print_beta_images a avg_beta_vector Xl],
       Ok {| output_2 :=
               {| global_stats := encode_png a;
                  local_stats := combine (keys (input a)) stats |};
             success := true |})
  | Err e => ([], Err e)
  end.
Proof.
  unfold remote_2, remote_2_values.
  repeat (rewrite bindM_lift;
          match goal with
          | |- context [bind ?c _] =>
              destruct c; cbn [bind]; [| reflexivity]
          end).
  reflexivity.
Qed.


Lemma remote_2_Ok (a : payload) (evs : list (event num blob artifact))
    (out : computation_output_2 blob artifact) :
  remote_2' a = (evs, Ok out) ->
  exists Xl stats avg_beta_vector dof_global tps,
    remote_2_values' a = Ok (Xl, stats, avg_beta_vector, dof_global, tps) /\
    evs = [print_pvals a (map snd tps) (map fst tps) Xl;
           print_beta_images a avg_beta_vector Xl] /\
    out = {| output_2 :=
               {| global_stats := encode_png a;
                  local_stats := combine (keys (input a)) stats |};
             success := true |}.
Proof.
  rewrite remote_2_eq.
  destruct (remote_2_values' a) as [[[[[Xl stats] beta] dof] tps] | e];
    intros H; [| discriminate].
  injection H as <- <-.
  now exists Xl, stats, beta, dof, tps.
Qed.

Lemma sum_over_sites_Ok (key : string) (field : site num blob -> option array)
    (input_list : dict (site num blob)) (t : array) :
  sum_over_sites key field input_list = Ok t ->
  exists arrays,
    map field (values input_list) = map Some arrays /\
    Forall (fun x => rect x = true) arrays /\
    py_sum arrays = Ok t.
Proof.
  unfold sum_over_sites. intros H. bind_inv H.
  apply mapM_getitem_array in E as [H1 H2].
  now exists x.
Qed.

(** The sum over the sites of one field: the sites' arrays are broadcast
    to the shape of the total and added item by item. *)
Lemma sum_over_sites_broadcast (key : string)
    (field : site num blob -> option array)
    (input_list : dict (site num blob)) (t : array) (arrays : list array) :
  sum_over_sites key field input_list = Ok t ->
  map field (values input_list) = map Some arrays ->
  arrays <> [] ->
  broadcast_sum arrays t.
Proof.
  intros H Hmap Hne.
  apply sum_over_sites_Ok in H as (arrays' & Hmap' & Hrect & Hsum).
  rewrite Hmap in Hmap'. apply map_Some_inj in Hmap'. subst arrays'.
  now destruct (py_sum_broadcast arrays t Hne Hrect Hsum) as (_ & H1 & H2).
Qed.

(** The sum over the sites of one field, for arrays of one shape. *)
Lemma sum_over_sites_elementwise (key : string)
    (field : site num blob -> option array)
    (input_list : dict (site num blob)) (t : array) (arrays : list array) :
  sum_over_sites key field input_list = Ok t ->
  map field (values input_list) = map Some arrays ->
  arrays <> [] ->
  same_shape arrays ->
  elementwise_sum arrays t.
Proof.
  intros H Hmap Hne Hsame.
  apply sum_over_sites_Ok in H as (arrays' & Hmap' & Hrect & Hsum).
  rewrite Hmap in Hmap'. apply map_Some_inj in Hmap'. subst arrays'.
  destruct arrays as [| x r]; [congruence |].
  assert (Hr : rect (Ar (x :: r)) = true).
  { apply rect_cons. inversion Hrect as [| ? ? Hx Hr']; subst.
    split; [exact Hx |].
    rewrite Forall_forall in *. intros y Hy.
    split; [now apply Hr' |].
    apply Hsame; simpl; auto. }
  rewrite py_sum_same_shape in Hsum by assumption.
  injection Hsum as <-.
  intros idx. apply nd_get_py_sum.
Qed.

(** C4.  Whenever [remote_2] returns, the three totals it computed are the
    builtin sums over the sites (there is at least one) of "SSE_local",
    "SST_local" and "varX_matrix_local".  Each total is the item-by-item
    sum of the sites' arrays broadcast to the shape of the total, that is,
    of the sites' arrays themselves when these have one shape. *)
Theorem remote_2_global_sums (a : payload)
    (evs : list (event num blob artifact))
    (out : computation_output_2 blob artifact) :
  remote_2' a = (evs, Ok out) ->
  exists (SSEs SSTs varXs : list array)
         (SSE_global SST_global varX_matrix_global : array),
    sites a <> [] /\
    map SSE_local (sites a) = map Some SSEs /\
    map SST_local (sites a) = map Some SSTs /\
    map varX_matrix_local (sites a) = map Some varXs /\
    sum_over_sites "SSE_local" SSE_local (input a) = Ok SSE_global /\
    sum_over_sites "SST_local" SST_local (input a) = Ok SST_global /\
    sum_over_sites "varX_matrix_local" varX_matrix_local (input a) =
      Ok varX_matrix_global /\
    broadcast_sum SSEs SSE_global /\
    broadcast_sum SSTs SST_global /\
    broadcast_sum varXs varX_matrix_global /\
    (same_shape SSEs -> elementwise_sum SSEs SSE_global) /\
    (same_shape SSTs -> elementwise_sum SSTs SST_global) /\
    (same_shape varXs -> elementwise_sum varXs varX_matrix_global).
Proof.
  intros H.
  apply remote_2_Ok in H as (Xl & stats & beta & dof & tps & H & _ & _).
  unfold remote_2_values in H.
  bind_step H as Xl' HXl. bind_step H as stats' Hstats.
  bind_step H as beta' Hbeta. bind_step H as dof' Hdof.
  bind_step H as SSE HSSE.
  bind_step H as SST HSST.
  bind_step H as varX HvarX.
  bind_step H as ratio Hdiv.
  clear H.
  assert (Hne : sites a <> []).
  { unfold divide_totals in Hdiv.
    destruct (input a); [discriminate | discriminate]. }
  destruct (sum_over_sites_Ok _ _ _ _ HSSE) as (SSEs & H1 & _ & _).
  destruct (sum_over_sites_Ok _ _ _ _ HSST) as (SSTs & H2 & _ & _).
  destruct (sum_over_sites_Ok _ _ _ _ HvarX) as (varXs & H3 & _ & _).
  assert (Hnil : forall (f : site num blob -> option array) l,
             map f (sites a) = map Some l -> l <> []).
  { intros f l Hl ->. destruct (sites a); [congruence | discriminate]. }
  exists SSEs, SSTs, varXs, SSE, SST, varX.
  split; [exact Hne |].
  split; [exact H1 |]. split; [exact H2 |]. split; [exact H3 |].
  split; [exact HSSE |]. split; [exact HSST |]. split; [exact HvarX |].
  split; [eapply sum_over_sites_broadcast; eauto |].
  split; [eapply sum_over_sites_broadcast; eauto |].
  split; [eapply sum_over_sites_broadcast; eauto |].
  split; [| split]; intros Hs; eapply sum_over_sites_elementwise; eauto.
Qed.

Lemma t_and_p_Ok (MSE G beta dof : array) (i : nat) (tp : array * array) :
  t_and_p' MSE G beta dof i = Ok tp ->
  exists MSE_i inverse cov d beta_i dof_i,
    nd_getitem MSE i = Ok MSE_i /\
    linalg_inv G = Ok inverse /\
    bcast2 nmul MSE_i inverse = Ok cov /\
    diagonal cov = Ok d /\
    py_getitem beta i = Ok beta_i /\
    rect beta_i = true /\
    bcast2 ndiv beta_i (mapnd nsqrt d) = Ok (fst tp) /\
    py_getitem dof i = Ok dof_i /\
    snd tp = t_to_p (fst tp) dof_i.
Proof.
  unfold t_and_p. intros H.
  bind_step H as MSE_i H1. bind_step H as inverse H2.
  bind_step H as cov H3. bind_step H as d H4.
  bind_step H as beta_i H5.
  bind_step H as beta_i_array H6. apply np_array_Ok in H6 as [Hr ->].
  bind_step H as quotient H7. bind_step H as dof_i H8.
  injection H as <-.
  exists MSE_i, inverse, cov, d, beta_i, dof_i. unfold tolist. simpl.
  repeat split; assumption.
Qed.

(** The totals of a field that is a vector of length [V] at every site. *)
Lemma sum_over_sites_vector (key : string)
    (field : site num blob -> option array)
    (input_list : dict (site num blob)) (t : array) (s : list nat) :
  sum_over_sites key field input_list = Ok t ->
  input_list <> [] ->
  Forall (fun st => exists x, field st = Some x /\ shape x = s)
         (values input_list) ->
  rect t = true /\ shape t = s.
Proof.
  intros H Hne Hall.
  apply sum_over_sites_Ok in H as (arrays & Hmap & Hrect & Hsum).
  assert (Hshapes : Forall (fun x => shape x = s) arrays).
  { clear Hsum Hrect Hne. revert arrays Hmap.
    induction Hall as [| st l [x [Hx Hs]] _ IH]; intros [| y ys] Hmap;
      simpl in Hmap; try discriminate; constructor.
    - injection Hmap as Hy _. congruence.
    - injection Hmap as _ Hl. now apply IH. }
  destruct arrays as [| x r].
  { destruct input_list; [congruence | discriminate]. }
  assert (Hr : rect (Ar (x :: r)) = true).
  { apply rect_cons.
    inversion Hrect as [| ? ? Hx Hr']; subst.
    inversion Hshapes as [| ? ? Hsx Hsr]; subst.
    split; [exact Hx |].
    rewrite Forall_forall in *. intros y Hy.
    split; [now apply Hr' | now apply Hsr]. }
  rewrite py_sum_same_shape in Hsum by assumption.
  injection Hsum as <-.
  destruct (py_sum_rect x r Hr) as [H1 H2].
  split; [exact H1 |]. rewrite H2. apply (Forall_inv Hshapes).
Qed.

(** The t-statistics of a run of [remote_2] that returned, on an input
    whose dimensions agree: for output dimension [i] and coefficient [j]
    they hold [avg_beta_vector[i][j] / sqrt (MSE[i] * inverse[j][j])] with
    [MSE[i] = SSE_global[i] / dof_global[i]]. *)
Lemma remote_2_t_statistics_of_run (a : payload)
    (evs : list (event num blob artifact))
    (out : computation_output_2 blob artifact)
    (V p : nat) (SSE_global G inverse beta dof : array) :
  remote_2' a = (evs, Ok out) ->
  Forall (fun s => exists x, SSE_local s = Some x /\ shape x = [V]) (sites a) ->
  sum_over_sites "SSE_local" SSE_local (input a) = Ok SSE_global ->
  sum_over_sites "varX_matrix_local" varX_matrix_local (input a) = Ok G ->
  linalg_inv G = Ok inverse ->
  rect inverse = true ->
  shape inverse = [p; p] ->
  cache_avg_beta_vector (cache a) = Some beta ->
  rect beta = true ->
  shape beta = [V; p] ->
  cache_dof_global (cache a) = Some dof ->
  shape dof = [V] ->
  exists ts_global ps_global Xl,
    In (print_pvals a ps_global ts_global Xl) evs /\
    length ts_global = V /\
    forall i j sse_i dof_i beta_ij inv_jj,
      nd_get [i] SSE_global = Some sse_i ->
      nd_get [i] dof = Some dof_i ->
      nd_get [i; j] beta = Some beta_ij ->
      nd_get [j; j] inverse = Some inv_jj ->
      exists ts_i,
        nth_error ts_global i = Some ts_i /\
        nd_get [j] ts_i =
        Some (ndiv beta_ij (nsqrt (nmul (ndiv sse_i dof_i) inv_jj))).
Proof.
  intros H Hvalid HSSE HG Hinv Hinv_r Hinv_s Hbeta Hbeta_r Hbeta_s Hdof Hdof_s.
  apply remote_2_Ok in H as (Xl & stats & beta' & dof' & tps & H & -> & _).
  unfold remote_2_values in H.
  bind_step H as Xl' HXl. bind_step H as stats' Hstats.
  bind_step H as b Hb. apply getitem_Ok in Hb. rewrite Hbeta in Hb.
  injection Hb as <-.
  bind_step H as d Hd. apply getitem_Ok in Hd. rewrite Hdof in Hd.
  injection Hd as <-.
  bind_step H as SSE' HSSE'. rewrite HSSE in HSSE'. injection HSSE' as <-.
  bind_step H as SST HSST.
  bind_step H as G' HG'. rewrite HG in HG'. injection HG' as <-.
  bind_step H as ratio Hdiv.
  bind_step H as r2 Hr2.
  bind_step H as dof_array Hdof_a. apply np_array_Ok in Hdof_a as [Hdof_r ->].
  bind_step H as MSE HMSE.
  bind_step H as n Hn.
  bind_step H as tps' Htps.
  injection H as <- <- <- <- <-.
  assert (Hne : input a <> []).
  { unfold divide_totals in Hdiv. destruct (input a); discriminate. }
  destruct (sum_over_sites_vector _ _ _ _ _ HSSE Hne Hvalid) as [HSSE_r HSSE_s].
  rewrite bcast2_same_shape in HMSE by congruence.
  injection HMSE as <-.
  destruct (zipnd_shape ndiv SSE_global dof HSSE_r Hdof_r) as [HMSE_r HMSE_s];
    [congruence |].
  rewrite HSSE_s in HMSE_s.
  destruct (shape_cons_Ar _ _ _ HMSE_s) as [l [HMSE Hl]].
  rewrite HMSE in Hn. simpl in Hn. injection Hn as <-.
  apply mapM_Ok in Htps. apply Forall2_seq_nth in Htps as [Hlen Hnth].
  exists (map fst tps'), (map snd tps'), Xl'.
  split; [now left |].
  split; [rewrite length_map; congruence |].
  intros i j sse_i dof_i beta_ij inv_jj Hsse Hdofi Hbij Hjj.
  assert (Hmse : nd_get [i] (zipnd ndiv SSE_global dof) =
                 Some (ndiv sse_i dof_i)).
  { now rewrite nd_get_zipnd, Hsse, Hdofi. }
  rewrite HMSE in Hmse. simpl in Hmse.
  destruct (nth_error l i) as [MSE_i |] eqn:Ei; [| discriminate].
  apply nd_get_nil_Some in Hmse. subst MSE_i.
  assert (Hi : i < length l) by (apply nth_error_Some; congruence).
  destruct (Hnth i Hi) as [tp [Htp Hrun]]. simpl in Hrun.
  apply t_and_p_Ok in Hrun
    as (MSE_i & inverse' & cov & d & beta_i & dof_i' &
        H1 & H2 & H3 & H4 & H5 & H6 & H7 & _).
  rewrite HMSE in H1. simpl in H1. rewrite Ei in H1. injection H1 as <-.
  rewrite Hinv in H2. injection H2 as <-.
  rewrite bcast2_scalar_l in H3 by assumption. injection H3 as <-.
  destruct (diagonal_matrix (mapnd (nmul (ndiv sse_i dof_i)) inverse) p p)
    as (d' & Hd1 & Hd2 & Hd3 & Hd4).
  { now apply rect_mapnd. }
  { now rewrite shape_mapnd. }
  rewrite Hd1 in H4. injection H4 as <-.
  rewrite Nat.min_id in Hd3.
  destruct (shape_cons_Ar _ _ _ Hbeta_s) as [rows [-> Hrows]].
  simpl in H5.
  destruct (nth_error rows i) as [row |] eqn:Erow; [| discriminate].
  injection H5 as <-.
  destruct (rect_items rows V [p] row Hbeta_r Hbeta_s (nth_error_In _ _ Erow))
    as [_ Hrow_s].
  rewrite bcast2_same_shape in H7;
    [| assumption | now apply rect_mapnd | now rewrite shape_mapnd, Hd3].
  exists (fst tp). split.
  - rewrite nth_error_map, Htp. reflexivity.
  - injection H7 as <-.
    rewrite nd_get_zipnd, nd_get_mapnd, Hd4, nd_get_mapnd, Hjj.
    rewrite (nd_get_cons i [j] rows row Erow) in Hbij.
    now rewrite Hbij.
Qed.

Lemma mapM_map {A B C : Type} (f : A -> B) (g : B -> result C) (l : list A) :
  mapM (fun x => g (f x)) l = mapM g (map f l).
Proof.
  induction l as [| x l IH]; simpl; [reflexivity | now rewrite IH].
Qed.

Lemma sum_over_sites_ext (key : string) (field : site num blob -> option array)
    (l l' : dict (site num blob)) :
  map field (values l') = map field (values l) ->
  sum_over_sites key field l' = sum_over_sites key field l.
Proof.
  intros H. unfold sum_over_sites.
  rewrite (mapM_map field (fun o => x <- getitem key o ;; np_array x)).
  rewrite (mapM_map field (fun o => x <- getitem key o ;; np_array x)
             (values l)).
  now rewrite H.
Qed.

(** The values [remote_2] computes depend on the cache and on what the
    sites send in phase 2, and on nothing else of the payload. *)
Lemma remote_2_values_ext (a a' : payload) :
  cache a' = cache a ->
  map phase_2_fields (sites a') = map phase_2_fields (sites a) ->
  remote_2_values' a' = remote_2_values' a.
Proof.
  intros Hc Hf.
  assert (H1 : map SSE_local (sites a') = map SSE_local (sites a)).
  { apply (f_equal (map (fun t => fst (fst t)))) in Hf.
    now rewrite !map_map in Hf. }
  assert (H2 : map SST_local (sites a') = map SST_local (sites a)).
  { apply (f_equal (map (fun t => snd (fst t)))) in Hf.
    now rewrite !map_map in Hf. }
  assert (H3 : map varX_matrix_local (sites a') =
               map varX_matrix_local (sites a)).
  { apply (f_equal (map (@snd _ _))) in Hf.
    now rewrite !map_map in Hf. }
  assert (H4 : forall x y : array,
             divide_totals (input a') x y = divide_totals (input a) x y).
  { intros x y. apply (f_equal (@length _)) in H1.
    unfold values in H1. rewrite !length_map in H1.
    unfold divide_totals.
    destruct (input a'), (input a); try discriminate; reflexivity. }
  unfold remote_2_values.
  rewrite Hc.
  rewrite (sum_over_sites_ext _ _ _ _ H1), (sum_over_sites_ext _ _ _ _ H2),
    (sum_over_sites_ext _ _ _ _ H3).
  repeat (match goal with
          | |- bind ?c _ = bind ?c _ =>
              destruct c; cbn [bind]; [| reflexivity]
          end).
  rewrite H4. reflexivity.
Qed.

(** C6.  In a run of [remote_2] that returns, the cache is only read: the
    arguments, cache included, reach the renderers as they were received;
    [print_beta_images] gets the cached "avg_beta_vector" itself; the
    t-statistics of dimension [i] are the cached [avg_beta_vector[i]]
    divided by a standard error, and its p-values are
    [t_to_p] of them and of the cached [dof_global[i]].  Nothing is
    recomputed from the payload: a payload that differs only in what the
    sites do not send in phase 2 (coefficients, means, counts) gives the
    same statistics and the same output.  When the cache is the one a run
    of [remote_1] returned, the coefficients and degrees of freedom used
    are those of that run. *)
Theorem remote_2_cache_read_only (a : payload)
    (evs : list (event num blob artifact))
    (out : computation_output_2 blob artifact) :
  remote_2' a = (evs, Ok out) ->
  exists beta dof Xl ts_global ps_global,
    cache_avg_beta_vector (cache a) = Some beta /\
    cache_dof_global (cache a) = Some dof /\
    cache_X_labels (cache a) = Some Xl /\
    evs = [print_pvals a ps_global ts_global Xl;
           print_beta_images a beta Xl] /\
    (forall i ts_i,
        nth_error ts_global i = Some ts_i ->
        exists beta_i dof_i se_i,
          py_getitem beta i = Ok beta_i /\
          py_getitem dof i = Ok dof_i /\
          bcast2 ndiv beta_i se_i = Ok ts_i /\
          nth_error ps_global i = Some (t_to_p ts_i dof_i)) /\
    (forall a' : payload,
        cache a' = cache a ->
        keys (input a') = keys (input a) ->
        map phase_2_fields (sites a') = map phase_2_fields (sites a) ->
        remote_2' a' =
        ([print_pvals a' ps_global ts_global Xl;
          print_beta_images a' beta Xl],
         Ok {| output_2 :=
                 {| global_stats := encode_png a';
                    local_stats := local_stats (output_2 out) |};
               success := true |})) /\
    (forall (a1 : payload) (out1 : computation_output_1 num blob),
        remote_1 a1 = Ok out1 ->
        cache a = cache_1 out1 ->
        beta = out_avg_beta_vector (output_1 out1) /\
        cache_dof_global (cache_1 out1) = Some dof).
Proof.
  intros H.
  apply remote_2_Ok in H as (Xl & stats & beta & dof & tps & Hv & -> & ->).
  exists beta, dof, Xl, (map fst tps), (map snd tps).
  pose proof Hv as H. unfold remote_2_values in H.
  bind_step H as Xl' HXl. apply getitem_Ok in HXl.
  bind_step H as stats' Hstats.
  bind_step H as b Hb. apply getitem_Ok in Hb.
  bind_step H as d Hd. apply getitem_Ok in Hd.
  bind_step H as SSE HSSE. bind_step H as SST HSST. bind_step H as G HG.
  bind_step H as ratio Hdiv. bind_step H as r2 Hr2.
  bind_step H as dof_array Hdof_a.
  bind_step H as MSE HMSE. bind_step H as n Hn.
  bind_step H as tps' Htps.
  injection H as <- <- <- <- <-.
  do 4 (split; [assumption || reflexivity |]).
  split; [| split].
  - intros i ts_i Hi.
    rewrite nth_error_map in Hi.
    destruct (nth_error tps' i) as [tp |] eqn:Etp; [| discriminate].
    injection Hi as <-.
    apply mapM_Ok in Htps. apply Forall2_seq_nth in Htps as [Hlen Hnth].
    assert (Hlt : i < n).
    { rewrite <- Hlen. apply nth_error_Some. congruence. }
    destruct (Hnth i Hlt) as [tp' [Htp' Hrun]]. simpl in Hrun.
    rewrite Etp in Htp'. injection Htp' as <-.
    apply t_and_p_Ok in Hrun
      as (MSE_i & inverse & cov & dg & beta_i & dof_i &
          _ & _ & _ & _ & H5 & _ & H7 & H8 & H9).
    exists beta_i, dof_i, (mapnd nsqrt dg).
    repeat split; try assumption.
    rewrite nth_error_map, Etp. simpl. now rewrite H9.
  - intros a' Hc Hk Hf.
    rewrite remote_2_eq, (remote_2_values_ext a a' Hc Hf), Hv.
    cbn [output_2 local_stats]. now rewrite Hk.
  - intros a1 out1 H1 Hc.
    destruct (remote_1_Ok a1 out1 H1)
      as (b1 & bs & means & c & cs & w & ws & csum & my & dof1 & p & Hrest).
    do 14 (destruct Hrest as [_ Hrest]). destruct Hrest as [Hcb _].
    split; [| now rewrite <- Hc].
    rewrite Hc, Hcb in Hb. now injection Hb.
Qed.

(** C7.  The dispatcher: with "local_1" among the tags
    [list_recursive] finds, the run is that of [remote_1] and its result is
    written to stdout; otherwise, with "local_2" among them, it is that of
    [remote_2]; otherwise it ends with a ValueError and nothing is
    written. *)
Theorem main_dispatch (parsed_args : payload) :
  let tags := list_recursive parsed_args "computation_phase" in
  let run := main linalg_inv t_to_p list_recursive encode_png parsed_args in
  (In "local_1" tags ->
   run = match remote_1 parsed_args with
         | Ok o => ([stdout_write_1 o], Ok tt)
         | Err e => ([], Err e)
         end) /\
  (~ In "local_1" tags -> In "local_2" tags ->
   run = match remote_2' parsed_args with
         | (evs, Ok o) => (evs ++ [stdout_write_2 o], Ok tt)
         | (evs, Err e) => (evs, Err e)
         end) /\
  (~ In "local_1" tags -> ~ In "local_2" tags ->
   run = ([], Err (ValueError "Error occurred at Remote"))).
Proof.
  intros tags run.
  unfold run, main. fold tags.
  repeat split.
  - intros H1. apply existsb_eqb_In in H1. rewrite H1.
    rewrite bindM_lift. now destruct (remote_1 parsed_args).
  - intros H1 H2.
    rewrite (existsb_eqb_not_In _ _ H1).
    apply existsb_eqb_In in H2. rewrite H2.
    unfold bindM. now destruct (remote_2' parsed_args) as [evs [o | e]].
  - intros H1 H2.
    now rewrite (existsb_eqb_not_In _ _ H1), (existsb_eqb_not_In _ _ H2).
Qed.

(** The "local_stats" of the final output pair the site names of the
    phase 2 payload, in its order, with the statistics the sites sent in
    phase 1, in the order of the phase 1 payload. *)
Lemma local_stats_by_position (a1 a2 : payload)
    (out1 : computation_output_1 num blob)
    (evs : list (event num blob artifact))
    (out2 : computation_output_2 blob artifact) :
  remote_1 a1 = Ok out1 ->
  cache a2 = cache_1 out1 ->
  remote_2' a2 = (evs, Ok out2) ->
  exists blobs,
    map local_stats_dict (sites a1) = map Some blobs /\
    local_stats (output_2 out2) = combine (keys (input a2)) blobs.
Proof.
  intros H1 Hc H2.
  destruct (remote_1_Ok a1 out1 H1)
    as (b & bs & means & c & cs & w & ws & csum & my & dof & p & Hrest).
  do 17 (destruct Hrest as [_ Hrest]). destruct Hrest as [Hsome Hstats].
  apply remote_2_Ok in H2 as (Xl & stats & beta & dof' & tps & Hv & _ & ->).
  unfold remote_2_values in Hv.
  bind_step Hv as Xl' HXl. bind_step Hv as stats' Hstats'.
  apply getitem_Ok in Hstats'. rewrite Hc in Hstats'.
  rewrite Hstats' in Hstats.
  exists stats'. split; [exact Hstats |].
  do 11 (let x := fresh in let E := fresh in bind_step Hv as x E).
  injection Hv as _ <- _ _ _. reflexivity.
Qed.

Lemma Forall_fields {V : Type} (field : site num blob -> option V)
    (P : V -> Prop) (l : list (site num blob)) :
  Forall (fun st => exists x, field st = Some x /\ P x) l ->
  exists xs, map field l = map Some xs /\ Forall P xs.
Proof.
  induction 1 as [| st l [x [Hx HP]] _ [xs [Hxs HPs]]].
  - exists []. split; [reflexivity | constructor].
  - exists (x :: xs). split; [simpl; congruence | now constructor].
Qed.

(** The sum over the sites of a field that is, at every site, a
    rectangular array of shape [s]. *)
Lemma sum_over_sites_returns (key : string)
    (field : site num blob -> option array)
    (input_list : dict (site num blob)) (s : list nat) :
  input_list <> [] ->
  Forall (fun st => exists x, field st = Some x /\
                              (rect x = true /\ shape x = s))
         (values input_list) ->
  exists t, sum_over_sites key field input_list = Ok t /\
            rect t = true /\ shape t = s.
Proof.
  intros Hne Hall.
  destruct (Forall_fields _ _ _ Hall) as [xs [Hxs HP]].
  assert (Hr : Forall (fun x => rect x = true) xs).
  { eapply Forall_impl; [| exact HP]. now intros x [Hx _]. }
  assert (Hrun : exists t, sum_over_sites key field input_list = Ok t).
  { unfold sum_over_sites.
    rewrite (proj2 (mapM_getitem_array _ _ _ _) (conj Hxs Hr)). cbn [bind].
    destruct xs as [| x r].
    { destruct input_list; [congruence | discriminate]. }
    rewrite py_sum_same_shape; [now eexists |].
    apply rect_cons. inversion HP as [| ? ? [Hx1 Hx2] HP']; subst.
    split; [exact Hx1 |].
    eapply Forall_impl; [| exact HP']. intros y [Hy1 Hy2]. now split. }
  destruct Hrun as [t Ht]. exists t. split; [exact Ht |].
  eapply sum_over_sites_vector; try eassumption.
  eapply Forall_impl; [| exact Hall].
  intros st [x [Hx [_ Hs]]]. now exists x.
Qed.

Lemma mapM_seq_returns {B : Type} (f : nat -> result B) (k n : nat) :
  (forall i, i < n -> exists y, f (k + i) = Ok y) ->
  exists ys, mapM f (seq k n) = Ok ys.
Proof.
  revert k.
  induction n as [| n IH]; intros k H; simpl; [now eexists |].
  destruct (H 0) as [y Hy]; [lia |].
  rewrite Nat.add_0_r in Hy. rewrite Hy. cbn [bind].
  destruct (IH (S k)) as [ys Hys].
  { intros i Hi. destruct (H (S i)) as [z Hz]; [lia |].
    exists z. now rewrite Nat.add_succ_comm. }
  rewrite Hys. now eexists.
Qed.

(** [remote_2] returns on every input whose dimensions agree and whose
    global cross-product matrix [scipy.linalg.inv] inverts. *)
Lemma remote_2_returns (a : payload) (user : string * site num blob)
    (rest : dict (site num blob)) (Xl : list string) (stats : list blob)
    (beta dof G inverse : array) (V p : nat) :
  input a = user :: rest ->
  cache_X_labels (cache a) = Some Xl ->
  cache_local_stats_dict (cache a) = Some stats ->
  cache_avg_beta_vector (cache a) = Some beta ->
  cache_dof_global (cache a) = Some dof ->
  Forall (fun st => exists x, SSE_local st = Some x /\
                              (rect x = true /\ shape x = [V])) (sites a) ->
  Forall (fun st => exists x, SST_local st = Some x /\
                              (rect x = true /\ shape x = [V])) (sites a) ->
  sum_over_sites "varX_matrix_local" varX_matrix_local (input a) = Ok G ->
  linalg_inv G = Ok inverse ->
  rect inverse = true -> shape inverse = [p; p] ->
  rect beta = true -> shape beta = [V; p] ->
  rect dof = true -> shape dof = [V] ->
  exists evs out, remote_2' a = (evs, Ok out).
Proof.
  intros Hin HXl Hstats Hbeta Hdof HSSE HSST HG Hinv Hinv_r Hinv_s
    Hbeta_r Hbeta_s Hdof_r Hdof_s.
  assert (Hne : input a <> []) by (rewrite Hin; discriminate).
  destruct (sum_over_sites_returns "SSE_local" _ _ _ Hne HSSE)
    as (SSE & HSSE' & HSSE_r & HSSE_s).
  destruct (sum_over_sites_returns "SST_local" _ _ _ Hne HSST)
    as (SST & HSST' & HSST_r & HSST_s).
  destruct (zipnd_shape ndiv SSE dof HSSE_r Hdof_r) as [HMSE_r HMSE_s];
    [congruence |].
  rewrite HSSE_s in HMSE_s.
  destruct (shape_cons_Ar _ _ _ HMSE_s) as [l [HMSE Hl]].
  destruct (shape_cons_Ar _ _ _ Hbeta_s) as [rows [Hrows Hlr]].
  destruct (shape_cons_Ar _ _ _ Hdof_s) as [ld [Hld Hlld]].
  assert (Hloop : exists tps,
             mapM (t_and_p' (zipnd ndiv SSE dof) G beta dof) (seq 0 V) =
             Ok tps).
  { apply mapM_seq_returns. intros i Hi. simpl.
    unfold t_and_p. rewrite HMSE. cbn [nd_getitem].
    destruct (nth_error l i) as [MSE_i |] eqn:Ei;
      [| apply nth_error_None in Ei; lia].
    cbn [bind]. rewrite Hinv. cbn [bind].
    rewrite HMSE in HMSE_r, HMSE_s.
    destruct (rect_items l V [] MSE_i HMSE_r HMSE_s (nth_error_In _ _ Ei))
      as [_ Hsc].
    destruct (shape_nil_Sc _ Hsc) as [v ->].
    rewrite bcast2_scalar_l by assumption. cbn [bind].
    destruct (diagonal_matrix (mapnd (nmul v) inverse) p p)
      as (d & Hd1 & Hd2 & Hd3 & _).
    { now apply rect_mapnd. }
    { now rewrite shape_mapnd. }
    rewrite Hd1. cbn [bind]. rewrite Nat.min_id in Hd3.
    rewrite Hrows. cbn [py_getitem].
    destruct (nth_error rows i) as [row |] eqn:Erow;
      [| apply nth_error_None in Erow; lia].
    cbn [bind].
    rewrite Hrows in Hbeta_r, Hbeta_s.
    destruct (rect_items rows V [p] row Hbeta_r Hbeta_s (nth_error_In _ _ Erow))
      as [Hrow_r Hrow_s].
    rewrite (proj2 (np_array_Ok _ _) (conj Hrow_r eq_refl)). cbn [bind].
    rewrite bcast2_same_shape;
      [| assumption | now apply rect_mapnd | now rewrite shape_mapnd, Hd3].
    cbn [bind]. rewrite Hld. cbn [py_getitem].
    destruct (nth_error ld i) as [dof_i |] eqn:Edof;
      [| apply nth_error_None in Edof; lia].
    cbn [bind]. now eexists. }
  destruct Hloop as [tps Htps].
  rewrite remote_2_eq. unfold remote_2_values.
  rewrite HXl, Hstats, Hbeta, Hdof. cbn [getitem bind].
  rewrite HSSE', HSST', HG. cbn [bind].
  unfold divide_totals. rewrite Hin. rewrite <- Hin.
  rewrite (bcast2_same_shape ndiv SSE SST) by congruence. cbn [bind].
  destruct (zipnd_shape ndiv SSE SST HSSE_r HSST_r) as [Hq_r _];
    [congruence |].
  rewrite bcast2_scalar_l by assumption. cbn [bind].
  rewrite (proj2 (np_array_Ok _ _) (conj Hdof_r eq_refl)). cbn [bind].
  rewrite (bcast2_same_shape ndiv SSE dof) by congruence. cbn [bind].
  assert (Hn : nd_len (zipnd ndiv SSE dof) = Ok V)
    by (rewrite HMSE; simpl; congruence).
  rewrite Hn. cbn [bind]. rewrite Htps. cbn [bind].
  now do 2 eexists.
Qed.


(** When the phase 2 payload lists the sites of the phase 1 payload in the
    same order, the "local_stats" of the final output give every site the
    statistics it sent in phase 1. *)
Lemma local_stats_same_order (a1 a2 : payload)
    (out1 : computation_output_1 num blob)
    (evs : list (event num blob artifact))
    (out2 : computation_output_2 blob artifact) :
  remote_1 a1 = Ok out1 ->
  cache a2 = cache_1 out1 ->
  remote_2' a2 = (evs, Ok out2) ->
  keys (input a2) = keys (input a1) ->
  Forall2 (fun kv kb => fst kb = fst kv /\
                        local_stats_dict (snd kv) = Some (snd kb))
          (input a1) (local_stats (output_2 out2)).
Proof.
  intros H1 Hc H2 Hk.
  destruct (local_stats_by_position a1 a2 out1 evs out2 H1 Hc H2)
    as [blobs [Hb ->]].
  rewrite Hk. unfold keys, values in *.
  clear - Hb. revert blobs Hb.
  induction (input a1) as [| kv l IH]; intros [| b bs] Hb; simpl in *;
    try discriminate; constructor.
  - injection Hb as Hb _. now split.
  - injection Hb as _ Hb. now apply IH.
Qed.

(** C5.  On every Phase-2 input whose dimensions agree (at least one
    site; "SSE_local" and "SST_local" vectors of length [V] at every site;
    the cached "dof_global" a vector of length [V] and the cached
    "avg_beta_vector" a [V] by [p] array) and whose global cross-product
    matrix [G] is invertible ([scipy.linalg.inv] returns a [p] by [p]
    matrix), [remote_2] returns, and for every output dimension [i < V]
    and coefficient [j < p] the t-statistic handed to [print_pvals] is
    [avg_beta_vector[i][j]] divided by the standard error
    [sqrt (MSE[i] * inverse[j][j])], the square root of the diagonal
    entry [j] of [MSE[i] * inverse], with
    [MSE[i] = SSE_global[i] / dof_global[i]]. *)
Theorem remote_2_t_statistics (a : payload) (user : string * site num blob)
    (rest : dict (site num blob)) (Xl : list string) (stats : list blob)
    (beta dof G inverse : array) (V p : nat) :
  input a = user :: rest ->
  cache_X_labels (cache a) = Some Xl ->
  cache_local_stats_dict (cache a) = Some stats ->
  cache_avg_beta_vector (cache a) = Some beta ->
  cache_dof_global (cache a) = Some dof ->
  Forall (fun st => exists x, SSE_local st = Some x /\
                              (rect x = true /\ shape x = [V])) (sites a) ->
  Forall (fun st => exists x, SST_local st = Some x /\
                              (rect x = true /\ shape x = [V])) (sites a) ->
  sum_over_sites "varX_matrix_local" varX_matrix_local (input a) = Ok G ->
  linalg_inv G = Ok inverse ->
  rect inverse = true -> shape inverse = [p; p] ->
  rect beta = true -> shape beta = [V; p] ->
  rect dof = true -> shape dof = [V] ->
  exists evs out SSE_global ts_global ps_global,
    remote_2' a = (evs, Ok out) /\
    In (print_pvals a ps_global ts_global Xl) evs /\
    sum_over_sites "SSE_local" SSE_local (input a) = Ok SSE_global /\
    length ts_global = V /\
    forall i j, i < V -> j < p ->
      exists sse_i dof_i beta_ij inv_jj ts_i,
        nd_get [i] SSE_global = Some sse_i /\
        nd_get [i] dof = Some dof_i /\
        nd_get [i; j] beta = Some beta_ij /\
        nd_get [j; j] inverse = Some inv_jj /\
        nth_error ts_global i = Some ts_i /\
        nd_get [j] ts_i =
        Some (ndiv beta_ij (nsqrt (nmul (ndiv sse_i dof_i) inv_jj))).
Proof.
  intros Hin HXl Hstats Hbeta Hdof HSSE HSST HG Hinv Hinv_r Hinv_s
    Hbeta_r Hbeta_s Hdof_r Hdof_s.
  destruct (remote_2_returns a user rest Xl stats beta dof G inverse V p)
    as (evs & out & Hrun); try assumption.
  assert (Hne : input a <> []) by (rewrite Hin; discriminate).
  destruct (sum_over_sites_returns "SSE_local" _ _ _ Hne HSSE)
    as (SSE & HSSE' & HSSE_r & HSSE_s).
  assert (HSSE_v : Forall (fun s => exists x, SSE_local s = Some x /\
                                              shape x = [V]) (sites a)).
  { eapply Forall_impl; [| exact HSSE].
    intros st [x [Hx [_ Hs]]]. now exists x. }
  destruct (remote_2_t_statistics_of_run a evs out V p SSE G inverse beta dof)
    as (ts_global & ps_global & Xl' & Hev & Hlen & Hts); try assumption.
  assert (HXl' : Xl' = Xl).
  { apply remote_2_Ok in Hrun as (Xl0 & ? & ? & ? & tps & Hv & -> & _).
    unfold remote_2_values in Hv. bind_step Hv as Xl1 HXl1.
    apply getitem_Ok in HXl1. rewrite HXl in HXl1. injection HXl1 as <-.
    do 12 (let x := fresh in let E := fresh in bind_step Hv as x E).
    injection Hv as <- _ _ _ _.
    destruct Hev as [Hev | [Hev | []]]; [| discriminate].
    now injection Hev. }
  subst Xl'.
  exists evs, out, SSE, ts_global, ps_global.
  repeat split; try assumption.
  intros i j Hi Hj.
  destruct (nd_get_vector SSE V i HSSE_r HSSE_s Hi) as [sse_i Hsse].
  destruct (nd_get_vector dof V i Hdof_r Hdof_s Hi) as [dof_i Hdofi].
  destruct (nd_get_matrix beta V p i j Hbeta_r Hbeta_s Hi Hj) as [b Hb].
  destruct (nd_get_matrix inverse p p j j Hinv_r Hinv_s Hj Hj) as [v Hv].
  destruct (Hts i j sse_i dof_i b v Hsse Hdofi Hb Hv) as [ts_i [H1 H2]].
  now exists sse_i, dof_i, b, v, ts_i.
Qed.

End Remote2Facts.

(** * Errors, edge cases and the two rounds together *)

Section Remote1Edges.

Context {num : Type} {NumOps : Numeric num} {blob : Type}.

Local Abbreviation array := (nd num).
Local Abbreviation payload := (args num blob).
Local Abbreviation sites := (fun a : payload => values (input a)).

(** A missing part of the payload.  Without any site [remote_1] ends with
    the IndexError of [list(input_list)[0]].  The labels are looked up at
    the first site, then "local_stats_dict" at every site: the first of
    these that is missing ends it with the KeyError of that key.  A site
    without "beta_vector_local", "mean_y_local" or "count_local" ends it
    with an exception too. *)
Lemma remote_1_missing_input (a : payload) :
  (input a = [] -> remote_1 a = Err IndexError) /\
  (forall user rest,
      input a = user :: rest ->
      (X_labels (snd user) = None ->
       remote_1 a = Err (KeyError "X_labels")) /\
      (X_labels (snd user) <> None -> y_labels (snd user) = None ->
       remote_1 a = Err (KeyError "y_labels")) /\
      (X_labels (snd user) <> None -> y_labels (snd user) <> None ->
       Exists (fun s => local_stats_dict s = None) (sites a) ->
       remote_1 a = Err (KeyError "local_stats_dict"))) /\
  (Exists (fun s => beta_vector_local s = None \/ mean_y_local s = None \/
                    count_local s = None) (sites a) ->
   exists e, remote_1 a = Err e).
Proof.
  split; [| split].
  - intros H. unfold remote_1. now rewrite H.
  - intros user rest Hin.
    split; [| split].
    + intros H. unfold remote_1. rewrite Hin. cbn [first_item bind].
      now rewrite H.
    + intros H1 H2. unfold remote_1. rewrite Hin. cbn [first_item bind].
      destruct (X_labels (snd user)); [| congruence].
      cbn [getitem bind]. now rewrite H2.
    + intros H1 H2 H3. unfold remote_1. rewrite Hin. cbn [first_item bind].
      destruct (X_labels (snd user)); [| congruence].
      destruct (y_labels (snd user)); [| congruence].
      cbn [getitem bind]. rewrite <- Hin.
      now rewrite (mapM_getitem_None _ _ _ H3).
  - intros H.
    destruct (remote_1 a) as [out | e] eqn:E; [exfalso | now exists e].
    destruct (remote_1_Ok a out E)
      as (b & bs & means & c & cs & w & ws & csum & my & dof & p &
          Hb & Hm & Hc & _).
    apply Exists_exists in H as (s & Hs & Hnone).
    assert (Hfield : forall (f : site num blob -> option array) l,
               map f (sites a) = map Some l -> f s <> None).
    { intros f l Hl Hf.
      apply (in_map f) in Hs. rewrite Hl, Hf in Hs.
      apply in_map_iff in Hs as (? & ? & _). discriminate. }
    destruct Hnone as [Hn | [Hn | Hn]];
      [exact (Hfield _ _ Hb Hn) | exact (Hfield _ _ Hm Hn) |
        exact (Hfield _ _ Hc Hn)].
Qed.

(** The labels of a successful run: those of the first site. *)
Lemma remote_1_labels_Ok (a : payload) (out : computation_output_1 num blob) :
  remote_1 a = Ok out ->
  exists user rest Xl yl,
    input a = user :: rest /\
    X_labels (snd user) = Some Xl /\
    y_labels (snd user) = Some yl /\
    cache_X_labels (cache_1 out) = Some Xl /\
    cache_y_labels (cache_1 out) = Some yl /\
    out_computation_phase (output_1 out) = "remote_1".
Proof.
  unfold remote_1. intros H.
  bind_step H as user Huser.
  bind_step H as Xl HXl. apply getitem_Ok in HXl.
  bind_step H as yl Hyl. apply getitem_Ok in Hyl.
  do 14 (let x := fresh in let E := fresh in bind_step H as x E).
  injection H as <-.
  unfold first_item in Huser.
  destruct (input a) as [| kv rest]; [discriminate |].
  injection Huser as ->.
  now exists user, rest, Xl, yl.
Qed.

(** The shapes of what a successful run caches: the mean coefficients have
    the shape of the sites' coefficients, the degrees of freedom that of
    the sites' counts. *)
Lemma remote_1_shapes (a : payload) (out : computation_output_1 num blob) :
  remote_1 a = Ok out ->
  exists (betas counts : list array) (dof : array) (sb sc : list nat),
    map beta_vector_local (sites a) = map Some betas /\
    map count_local (sites a) = map Some counts /\
    Forall (fun b => rect b = true /\ shape b = sb) betas /\
    Forall (fun c => rect c = true /\ shape c = sc) counts /\
    cache_dof_global (cache_1 out) = Some dof /\
    rect (out_avg_beta_vector (output_1 out)) = true /\
    shape (out_avg_beta_vector (output_1 out)) = sb /\
    rect dof = true /\ shape dof = sc.
Proof.
  intros H.
  destruct (remote_1_Ok a out H)
    as (b & bs & means & c & cs & w & ws & csum & my & dof & p &
        Hb & _ & Hc & Hbr & _ & Hcr & _ & _ & _ & _ & _ & Hdof & Havg & _ &
        _ & _ & Hcache & _).
  exists (b :: bs), (c :: cs), dof, (shape b), (shape c).
  pose proof Hbr as Hbr'. apply rect_cons in Hbr' as [Hb1 Hb2].
  pose proof Hcr as Hcr'. apply rect_cons in Hcr' as [Hc1 Hc2].
  destruct (fold_zipnd_shape nadd bs b Hb1 Hb2) as [Hr1 Hs1].
  destruct (py_sum_rect c cs Hcr) as [Hr2 Hs2].
  split; [exact Hb |]. split; [exact Hc |].
  split; [constructor; [now split | exact Hb2] |].
  split; [constructor; [now split | exact Hc2] |].
  split; [exact Hcache |].
  rewrite Havg, Hdof, !shape_mapnd.
  split; [now apply rect_mapnd |]. split; [exact Hs1 |].
  split; [now apply rect_mapnd | exact Hs2].
Qed.

(** [remote_1] returns only on a payload with at least one site, the labels
    at the first site, all four fields at every site, coefficient arrays of
    one shape with at least two dimensions, means of one shape, counts of
    one shape, and means and counts that broadcast together. *)
Lemma remote_1_returns_only_if (a : payload)
    (out : computation_output_1 num blob) :
  remote_1 a = Ok out ->
  exists user rest Xl yl stats (betas means counts : list array) sb sm sc,
    input a = user :: rest /\
    X_labels (snd user) = Some Xl /\
    y_labels (snd user) = Some yl /\
    map local_stats_dict (sites a) = map Some stats /\
    map beta_vector_local (sites a) = map Some betas /\
    map mean_y_local (sites a) = map Some means /\
    map count_local (sites a) = map Some counts /\
    Forall (fun b => rect b = true /\ shape b = sb) betas /\
    2 <= length sb /\
    Forall (fun m => rect m = true /\ shape m = sm) means /\
    Forall (fun c => rect c = true /\ shape c = sc) counts /\
    bshape (length means :: sm) (length counts :: sc) <> None.
Proof.
  intros H.
  destruct (remote_1_labels_Ok a out H)
    as (user & rest & Xl & yl & Hin & HXl & Hyl & _).
  destruct (remote_1_Ok a out H)
    as (b & bs & means & c & cs & w & ws & csum & my & dof & p &
        Hb & Hm & Hc & Hbr & Hmr & Hcr & Hw & _ & _ & _ & Hp & _ & _ & _ &
        _ & _ & _ & Hsome & Hstats).
  destruct (cache_local_stats_dict (cache_1 out)) as [stats |];
    [| congruence].
  destruct means as [| m ms].
  { rewrite Hin in Hm. discriminate. }
  exists user, rest, Xl, yl, stats, (b :: bs), (m :: ms), (c :: cs),
    (shape b), (shape m), (shape c).
  apply rect_cons in Hbr as [Hb1 Hb2].
  pose proof Hmr as Hmr'. apply rect_cons in Hmr' as [Hm1 Hm2].
  pose proof Hcr as Hcr'. apply rect_cons in Hcr' as [Hc1 Hc2].
  do 7 (split; [assumption |]).
  split; [constructor; [now split | exact Hb2] |].
  split.
  { assert (Hlt : 1 < length (shape b)) by (apply nth_error_Some; congruence).
    lia. }
  split; [constructor; [now split | exact Hm2] |].
  split; [constructor; [now split | exact Hc2] |].
  unfold bcast2 in Hw. rewrite !shape_Ar in Hw. cbn [item_shape] in Hw.
  intros Hnone. rewrite Hnone in Hw. discriminate.
Qed.

(** What [remote_1] reads: the labels of the first site and the four
    fields of every site.  The incoming cache, the names and tags of the
    sites, the labels of the other sites and whatever else the records
    hold make no difference to what it returns. *)
Lemma remote_1_reads_only (a a' : payload) (user user' : string * site num blob)
    (rest rest' : dict (site num blob)) :
  input a = user :: rest ->
  input a' = user' :: rest' ->
  X_labels (snd user') = X_labels (snd user) ->
  y_labels (snd user') = y_labels (snd user) ->
  map phase_1_fields (sites a') = map phase_1_fields (sites a) ->
  remote_1 a' = remote_1 a.
Proof.
  intros Hin Hin' HX Hy Hf.
  assert (H1 : map local_stats_dict (sites a') = map local_stats_dict (sites a)).
  { apply (f_equal (map (fun t => fst (fst (fst t))))) in Hf.
    now rewrite !map_map in Hf. }
  assert (H2 : map beta_vector_local (sites a') =
               map beta_vector_local (sites a)).
  { apply (f_equal (map (fun t => snd (fst (fst t))))) in Hf.
    now rewrite !map_map in Hf. }
  assert (H3 : map mean_y_local (sites a') = map mean_y_local (sites a)).
  { apply (f_equal (map (fun t => snd (fst t)))) in Hf.
    now rewrite !map_map in Hf. }
  assert (H4 : map count_local (sites a') = map count_local (sites a)).
  { apply (f_equal (map (@snd _ _))) in Hf.
    now rewrite !map_map in Hf. }
  unfold remote_1.
  rewrite (mapM_map local_stats_dict (getitem "local_stats_dict")
             (values (input a'))),
    (mapM_map local_stats_dict (getitem "local_stats_dict")
       (values (input a))), H1.
  rewrite (mapM_map beta_vector_local
             (fun o => b <- getitem "beta_vector_local" o ;; np_array b)
             (values (input a'))),
    (mapM_map beta_vector_local
       (fun o => b <- getitem "beta_vector_local" o ;; np_array b)
       (values (input a))), H2.
  rewrite (mapM_map mean_y_local (getitem "mean_y_local")
             (values (input a'))),
    (mapM_map mean_y_local (getitem "mean_y_local") (values (input a))), H3.
  rewrite (mapM_map count_local
             (fun o => c <- getitem "count_local" o ;; np_array c)
             (values (input a'))),
    (mapM_map count_local
       (fun o => c <- getitem "count_local" o ;; np_array c)
       (values (input a))), H4.
  rewrite Hin, Hin'. cbn [first_item bind].
  now rewrite HX, Hy.
Qed.

(** What a successful run of [remote_1] caches for the second round: the
    labels of the first site, every site's statistics in the order of the
    payload, the mean coefficients and the mean response it also outputs,
    and degrees of freedom of the shape of the sites' counts. *)
Lemma remote_1_cache (a : payload) (out : computation_output_1 num blob) :
  remote_1 a = Ok out ->
  exists user rest stats dof,
    input a = user :: rest /\
    out_computation_phase (output_1 out) = "remote_1" /\
    cache_X_labels (cache_1 out) = X_labels (snd user) /\
    cache_y_labels (cache_1 out) = y_labels (snd user) /\
    cache_local_stats_dict (cache_1 out) = Some stats /\
    map local_stats_dict (sites a) = map Some stats /\
    cache_avg_beta_vector (cache_1 out) =
      Some (out_avg_beta_vector (output_1 out)) /\
    cache_mean_y_global (cache_1 out) =
      Some (out_mean_y_global (output_1 out)) /\
    cache_dof_global (cache_1 out) = Some dof /\
    rect dof = true /\
    Forall (fun s => exists c, count_local s = Some c /\ shape c = shape dof)
           (sites a).
Proof.
  intros H.
  destruct (remote_1_labels_Ok a out H)
    as (user & rest & Xl & yl & Hin & HXl & Hyl & HcX & Hcy & Hphase).
  destruct (remote_1_shapes a out H)
    as (betas & counts & dof & sb & sc & _ & Hc & _ & Hcs & Hdof & _ & _ &
        Hdr & Hds).
  destruct (remote_1_Ok a out H)
    as (b & bs & means & c & cs & w & ws & csum & my & dof' & p & Hrest).
  do 13 (destruct Hrest as [_ Hrest]).
  destruct Hrest as (Hmean & Hcb & Hcm & _ & Hsome & Hstats).
  destruct (cache_local_stats_dict (cache_1 out)) as [stats |];
    [| congruence].
  exists user, rest, stats, dof.
  do 2 (split; [assumption |]).
  split; [congruence |]. split; [congruence |].
  split; [reflexivity |]. split; [exact Hstats |].
  split; [exact Hcb |]. split; [now rewrite Hmean |].
  split; [exact Hdof |]. split; [exact Hdr |].
  eapply Forall_map_Some; [exact Hc |].
  eapply Forall_impl; [| exact Hcs]. intros x [_ Hx]. congruence.
Qed.

(** [[np.array(x) for x in l]]: the list itself, or the ValueError of the
    first ragged item. *)
Lemma mapM_np_array (l : list array) :
  (mapM np_array l = Ok l /\ Forall (fun x => rect x = true) l) \/
  (exists msg, mapM np_array l = Err (ValueError msg)).
Proof.
  induction l as [| x l IH]; simpl; [left; now split |].
  unfold np_array at 1 3.
  destruct (rect x) eqn:Ex; cbn [bind]; [| right; now eexists].
  destruct IH as [[-> Hl] | [msg ->]]; cbn [bind].
  - left. split; [reflexivity | now constructor].
  - right. now eexists.
Qed.

Lemma mapM_getitem_Some {T V B : Type} (key : string) (field : T -> option V)
    (g : V -> result B) (l : list T) (xs : list V) :
  map field l = map Some xs ->
  mapM (fun s => x <- getitem key (field s) ;; g x) l = mapM g xs.
Proof.
  revert xs.
  induction l as [| s l IH]; intros [| x xs] H; simpl in H; try discriminate;
    [reflexivity |].
  injection H as Hs Hl. simpl. rewrite Hs. cbn [getitem bind].
  now rewrite (IH xs Hl).
Qed.

(** Sites that disagree on the shape of "beta_vector_local": [remote_1]
    ends with the ValueError numpy raises for a ragged nesting. *)
Lemma remote_1_beta_shapes_differ (a : payload)
    (user : string * site num blob) (rest : dict (site num blob))
    (Xl yl : list string) (stats : list blob) (betas : list array)
    (b b' : array) :
  input a = user :: rest ->
  X_labels (snd user) = Some Xl ->
  y_labels (snd user) = Some yl ->
  map local_stats_dict (sites a) = map Some stats ->
  map beta_vector_local (sites a) = map Some betas ->
  In b betas -> In b' betas -> shape b <> shape b' ->
  exists msg, remote_1 a = Err (ValueError msg).
Proof.
  intros Hin HXl Hyl Hstats Hbetas Hb Hb' Hne.
  unfold remote_1. rewrite Hin. cbn [first_item bind].
  rewrite HXl, Hyl. cbn [getitem bind]. rewrite <- Hin.
  rewrite (proj2 (mapM_getitem _ _ _ _) Hstats). cbn [bind].
  rewrite (mapM_getitem_Some _ _ np_array _ _ Hbetas).
  destruct (mapM_np_array betas) as [[-> Hr] | [msg ->]];
    [| now exists msg].
  cbn [bind]. unfold np_average_axis0, np_array.
  destruct (rect (Ar betas)) eqn:Er; [exfalso | now eexists].
  apply rect_Ar in Er. rewrite Forall_forall in Er.
  destruct (Er b Hb) as [_ H1]. destruct (Er b' Hb') as [_ H2].
  congruence.
Qed.

Lemma bshape_rows_against_columns (N V : nat) :
  N <> V -> V <> 1 -> N <> 1 -> bshape [N; V] [N] = None.
Proof.
  intros H1 H2 H3. unfold bshape, pad. simpl. unfold bdim.
  rewrite (proj2 (Nat.eqb_neq N 1) H3). simpl.
  rewrite (proj2 (Nat.eqb_neq V N) (not_eq_sym H1)).
  now rewrite (proj2 (Nat.eqb_neq V 1) H2).
Qed.

(** Coefficient arrays without any item (an axis of length 0, as in
    [[], []]): with all keys present and the arrays rectangular and of one
    shape, [remote_1] ends with the ZeroDivisionError of [np.average],
    which divides the size of the stacked arrays by the size of their
    mean. *)
Lemma remote_1_empty_coefficients (a : payload)
    (user : string * site num blob) (rest : dict (site num blob))
    (Xl yl : list string) (stats : list blob) (betas : list array)
    (sb : list nat) :
  input a = user :: rest ->
  X_labels (snd user) = Some Xl ->
  y_labels (snd user) = Some yl ->
  map local_stats_dict (sites a) = map Some stats ->
  map beta_vector_local (sites a) = map Some betas ->
  Forall (fun b => rect b = true /\ shape b = sb) betas ->
  In 0 sb ->
  remote_1 a = Err ZeroDivisionError.
Proof.
  intros Hin HXl Hyl Hstats Hbetas Hb Hzero.
  assert (Hbr' : Forall (fun x : array => rect x = true) betas).
  { eapply Forall_impl; [| exact Hb]. now intros x [Hx _]. }
  destruct betas as [| b bs].
  { unfold values in Hbetas. rewrite Hin in Hbetas. discriminate. }
  assert (Hbr : rect (Ar (b :: bs)) = true).
  { apply rect_cons. inversion Hb as [| ? ? [H1 H2] Hbs]; subst.
    split; [exact H1 |].
    eapply Forall_impl; [| exact Hbs]. intros y [Hy1 Hy2]. now split. }
  assert (Hsize : size b = 0).
  { destruct (Nat.eq_dec (size b) 0) as [E | E]; [exact E | exfalso].
    apply size_nonzero in E. destruct (Forall_inv Hb) as [_ Hs].
    rewrite Hs in E. rewrite Forall_forall in E. now apply (E 0 Hzero). }
  unfold remote_1. rewrite Hin. cbn [first_item bind].
  rewrite HXl, Hyl. cbn [getitem bind]. rewrite <- Hin.
  rewrite (proj2 (mapM_getitem _ _ _ _) Hstats). cbn [bind].
  rewrite (proj2 (mapM_getitem_array _ _ _ _) (conj Hbetas Hbr')). cbn [bind].
  now rewrite (np_average_axis0_empty b bs Hbr Hsize).
Qed.

(** One count for the whole site with one mean per output dimension, as
    the docstring types the two fields, the coefficient arrays being of
    one shape with at least one item: with [V] output dimensions at a
    number of sites other than [V] (and neither is 1), the product of the
    means and the counts does not broadcast and [remote_1] ends with a
    ValueError. *)
Lemma remote_1_int_count_mismatch (a : payload)
    (user : string * site num blob) (rest : dict (site num blob))
    (Xl yl : list string) (stats : list blob)
    (betas means counts : list array) (sb : list nat) (V : nat) :
  input a = user :: rest ->
  X_labels (snd user) = Some Xl ->
  y_labels (snd user) = Some yl ->
  map local_stats_dict (sites a) = map Some stats ->
  map beta_vector_local (sites a) = map Some betas ->
  map mean_y_local (sites a) = map Some means ->
  map count_local (sites a) = map Some counts ->
  Forall (fun b => rect b = true /\ shape b = sb) betas ->
  Forall (fun d => d <> 0) sb ->
  Forall (fun m => rect m = true /\ shape m = [V]) means ->
  Forall (fun c => exists x, c = Sc x) counts ->
  length (sites a) <> V -> V <> 1 -> length (sites a) <> 1 ->
  exists msg, remote_1 a = Err (ValueError msg).
Proof.
  intros Hin HXl Hyl Hstats Hbetas Hmeans Hcounts Hb Hitems Hm Hc HNV HV HN.
  assert (Hc' : Forall (fun c : array => rect c = true /\ shape c = []) counts).
  { eapply Forall_impl; [| exact Hc]. now intros c [x ->]. }
  assert (Hrect : forall (l : list array) (t : list nat),
             Forall (fun x => rect x = true /\ shape x = t) l ->
             rect (Ar l) = true /\ Forall (fun x => rect x = true) l).
  { intros l t H. split.
    - apply rect_Ar. rewrite Forall_forall in *. intros y Hy.
      destruct (H y Hy) as [H1 H2]. split; [exact H1 |].
      destruct l as [| z l]; [destruct Hy |].
      simpl. destruct (H z (or_introl eq_refl)) as [_ H3]. congruence.
    - eapply Forall_impl; [| exact H]. now intros x [Hx _]. }
  destruct (Hrect _ _ Hb) as [Hbr Hbr'].
  destruct (Hrect _ _ Hm) as [Hmr _].
  destruct (Hrect _ _ Hc') as [Hcr Hcr'].
  assert (Hlen : forall (f : site num blob -> option array) l,
             map f (sites a) = map Some l -> length l = length (sites a)).
  { intros f l H. apply (f_equal (@length _)) in H.
    now rewrite !length_map in H. }
  assert (Hsites : length (sites a) = S (length rest)).
  { unfold values. now rewrite Hin, length_map. }
  destruct betas as [| b bs];
    [apply Hlen in Hbetas; simpl in Hbetas; lia |].
  destruct means as [| m ms];
    [apply Hlen in Hmeans; simpl in Hmeans; lia |].
  destruct counts as [| c cs];
    [apply Hlen in Hcounts; simpl in Hcounts; lia |].
  unfold remote_1. rewrite Hin. cbn [first_item bind].
  rewrite HXl, Hyl. cbn [getitem bind].
  rewrite <- Hin.
  rewrite (proj2 (mapM_getitem _ _ _ _) Hstats). cbn [bind].
  rewrite (proj2 (mapM_getitem_array _ _ _ _) (conj Hbetas Hbr')). cbn [bind].
  assert (Hsize : size b <> 0).
  { apply size_nonzero. now destruct (Forall_inv Hb) as [_ ->]. }
  rewrite (np_average_axis0_returns b bs Hbr Hsize). cbn [bind].
  rewrite (proj2 (mapM_getitem _ _ _ _) Hmeans). cbn [bind].
  rewrite (proj2 (mapM_getitem_array _ _ _ _) (conj Hcounts Hcr')). cbn [bind].
  rewrite (proj2 (np_array_Ok _ _) (conj Hmr eq_refl)). cbn [bind].
  rewrite (proj2 (np_array_Ok _ _) (conj Hcr eq_refl)). cbn [bind].
  unfold bcast2 at 1. rewrite !shape_Ar. cbn [item_shape].
  destruct (Forall_inv Hm) as [_ ->]. destruct (Forall_inv Hc') as [_ ->].
  rewrite (Hlen _ _ Hmeans), (Hlen _ _ Hcounts).
  rewrite bshape_rows_against_columns by assumption.
  cbn [bind]. now eexists.
Qed.

Lemma elements_zipnd_const (f : num -> num -> num) (C : array)
    (idx : list nat) (x : array) (r : list array) :
  elements idx (map (fun y => zipnd f y C) (x :: r)) =
  match elements idx (x :: r), nd_get idx C with
  | Some xs, Some c => Some (map (fun y => f y c) xs)
  | _, _ => None
  end.
Proof.
  unfold elements.
  destruct (nd_get idx C) as [c |] eqn:EC.
  - induction (x :: r) as [| y l IH]; [reflexivity |].
    cbn [map all_some]. rewrite nd_get_zipnd, EC.
    destruct (nd_get idx y) as [v |]; [| reflexivity].
    cbn [olift2]. rewrite IH.
    now destruct (all_some (map (nd_get idx) l)).
  - cbn [map all_some]. rewrite nd_get_zipnd, EC.
    destruct (nd_get idx x) as [v |]; [| reflexivity].
    cbn [olift2]. now destruct (all_some (map (nd_get idx) r)).
Qed.

Lemma bshape_square (N : nat) : bshape [N; N] [N] = Some [N; N].
Proof.
  unfold bshape, pad. simpl. now rewrite bdim_1_r, bdim_same.
Qed.

(** One count per site and as many output dimensions as sites: the
    product of the stacked means and counts broadcasts the counts along
    the output dimensions.  Whenever [remote_1] returns, the item [j] of
    "mean_y_global" is the total over the sites of their mean [j] times
    the count of site number [j], divided by the total of the counts. *)
Lemma remote_1_int_count_weights (a : payload)
    (out : computation_output_1 num blob) (means counts : list array) :
  remote_1 a = Ok out ->
  map mean_y_local (sites a) = map Some means ->
  map count_local (sites a) = map Some counts ->
  Forall (fun m => shape m = [length means]) means ->
  Forall (fun c => exists x, c = Sc x) counts ->
  forall j : nat,
    nd_get [j] (out_mean_y_global (output_1 out)) =
    match elements [j] means, nd_get [j] (Ar counts), elements [] counts with
    | Some ms, Some c_j, Some cs =>
        Some (ndiv (total (map (fun m => nmul m c_j) ms)) (total cs))
    | _, _, _ => None
    end.
Proof.
  intros H Hm Hc Hms Hcs j.
  destruct (remote_1_Ok a out H)
    as (b & bs & means' & c & cs & w & ws & csum & my & dof & p &
        _ & Hm' & Hc' & _ & Hmr & Hcr & Hw & Hws & Hcsum & Hmy & _ & _ &
        _ & Hout & _).
  rewrite Hm in Hm'. apply map_Some_inj in Hm'. subst means'.
  rewrite Hc in Hc'. apply map_Some_inj in Hc'. subst counts.
  assert (Hlen : length means = length (c :: cs)).
  { apply (f_equal (@length _)) in Hm. apply (f_equal (@length _)) in Hc.
    rewrite !length_map in Hm, Hc. congruence. }
  destruct means as [| m ms]; [discriminate |].
  set (N := length (m :: ms)) in *.
  (* the counts: numbers, their sum a number *)
  assert (Hcshape : shape (Ar (c :: cs)) = [N]).
  { rewrite shape_Ar. cbn [item_shape].
    destruct (Forall_inv Hcs) as [x ->]. simpl. now rewrite Hlen. }
  assert (Hmshape : shape (Ar (m :: ms)) = [N; N]).
  { rewrite shape_Ar. cbn [item_shape]. now rewrite (Forall_inv Hms). }
  pose proof Hcr as Hcr'. apply rect_cons in Hcr' as [Hc1 Hc2].
  destruct (fold_zipnd_shape nadd cs c Hc1 Hc2) as [Hsr Hss].
  rewrite <- Hcsum in Hsr, Hss.
  assert (Hcsc : shape c = []) by (now destruct (Forall_inv Hcs) as [x ->]).
  rewrite Hcsc in Hss. destruct (shape_nil_Sc csum Hss) as [v Hv].
  assert (Hv' : option_map total (elements [] (c :: cs)) = Some v).
  { rewrite <- nd_get_sum_axis0, <- Hcsum, Hv. reflexivity. }
  (* the product *)
  unfold bcast2 in Hw. rewrite Hmshape, Hcshape, bshape_square in Hw.
  rewrite <- Hmshape in Hw at 1. rewrite expand_same in Hw by exact Hmr.
  rewrite (expand_cons_lt N [N] (Ar (c :: cs))) in Hw
    by (unfold ndim; rewrite Hcshape; simpl; lia).
  rewrite <- Hcshape in Hw at 1. rewrite expand_same in Hw by exact Hcr.
  rewrite zipnd_Ar in Hw. unfold N in Hw at 1.
  rewrite map2_repeat_r in Hw. injection Hw as <-.
  cbn [map sum_axis0] in Hws. injection Hws as <-.
  (* the quotient *)
  assert (Hrows : Forall (fun y => rect y = true /\
                                   shape y = shape (zipnd nmul m (Ar (c :: cs))))
                    (map (fun x => zipnd nmul x (Ar (c :: cs))) ms) /\
                  rect (zipnd nmul m (Ar (c :: cs))) = true).
  { apply rect_cons in Hmr as [Hm1 Hm2].
    assert (Hz : forall y, rect y = true -> shape y = [N] ->
                   rect (zipnd nmul y (Ar (c :: cs))) = true /\
                   shape (zipnd nmul y (Ar (c :: cs))) = [N]).
    { intros y Hy1 Hy2.
      destruct (zipnd_shape nmul y (Ar (c :: cs)) Hy1 Hcr) as [R S];
        [congruence |].
      split; [exact R | congruence]. }
    destruct (Hz m Hm1 (Forall_inv Hms)) as [R0 S0].
    split; [| exact R0].
    apply Forall_forall. intros y Hy.
    apply in_map_iff in Hy as (x & <- & Hx).
    rewrite Forall_forall in Hm2. destruct (Hm2 x Hx) as [Hx1 Hx2].
    destruct (Hz x Hx1) as [R S]; [rewrite Hx2; apply (Forall_inv Hms) |].
    split; [exact R | congruence]. }
  destruct Hrows as [Hrows Hrow0].
  destruct (fold_zipnd_shape nadd _ _ Hrow0 Hrows) as [Hwr _].
  rewrite Hv, bcast2_scalar_r in Hmy by exact Hwr. injection Hmy as <-.
  rewrite Hout, nd_get_mapnd.
  rewrite nd_get_sum_axis0.
  change (zipnd nmul m (Ar (c :: cs)) ::
          map (fun x => zipnd nmul x (Ar (c :: cs))) ms)
    with (map (fun x => zipnd nmul x (Ar (c :: cs))) (m :: ms)).
  rewrite elements_zipnd_const.
  destruct (elements [j] (m :: ms)) as [xs |]; [| reflexivity].
  destruct (nd_get [j] (Ar (c :: cs))) as [c_j |]; [| reflexivity].
  destruct (elements [] (c :: cs)) as [cs0 |]; [| discriminate].
  simpl in Hv'. injection Hv' as <-.
  destruct xs; reflexivity.
Qed.

End Remote1Edges.

Section Remote2Edges.

Context {num : Type} {NumOps : Numeric num} {blob artifact : Type}.

Variable linalg_inv : nd num -> result (nd num).
Variable t_to_p : nd num -> nd num -> nd num.
Variable list_recursive : args num blob -> string -> list string.
Variable encode_png : args num blob -> artifact.

Local Abbreviation array := (nd num).
Local Abbreviation payload := (args num blob).
Local Abbreviation sites := (fun a : payload => values (input a)).
Local Abbreviation remote_2' := (remote_2 linalg_inv t_to_p encode_png).
Local Abbreviation t_and_p' := (t_and_p linalg_inv t_to_p).
Local Abbreviation remote_2_values' := (remote_2_values linalg_inv t_to_p).
Local Abbreviation main' :=
  (main linalg_inv t_to_p list_recursive encode_png).

(** A missing part of the second round.  The four cached values are
    looked up in the order "X_labels", "local_stats_dict",
    "avg_beta_vector", "dof_global": the first that is missing (all of
    them, when the first round was skipped) ends [remote_2] with the
    KeyError of that key.  With the cache but without any site, the totals
    are the 0 the builtin [sum] starts from and it ends with the
    ZeroDivisionError of [SSE_global / SST_global].  Nothing is rendered
    in either case. *)
Lemma remote_2_missing_input (a : payload) :
  (cache_X_labels (cache a) = None ->
   remote_2 linalg_inv t_to_p encode_png a =
   ([], Err (KeyError "X_labels"))) /\
  (cache_X_labels (cache a) <> None ->
   cache_local_stats_dict (cache a) = None ->
   remote_2 linalg_inv t_to_p encode_png a =
   ([], Err (KeyError "local_stats_dict"))) /\
  (cache_X_labels (cache a) <> None ->
   cache_local_stats_dict (cache a) <> None ->
   cache_avg_beta_vector (cache a) = None ->
   remote_2 linalg_inv t_to_p encode_png a =
   ([], Err (KeyError "avg_beta_vector"))) /\
  (cache_X_labels (cache a) <> None ->
   cache_local_stats_dict (cache a) <> None ->
   cache_avg_beta_vector (cache a) <> None ->
   cache_dof_global (cache a) = None ->
   remote_2 linalg_inv t_to_p encode_png a =
   ([], Err (KeyError "dof_global"))) /\
  (cache_X_labels (cache a) <> None ->
   cache_local_stats_dict (cache a) <> None ->
   cache_avg_beta_vector (cache a) <> None ->
   cache_dof_global (cache a) <> None ->
   input a = [] ->
   remote_2 linalg_inv t_to_p encode_png a =
   ([], Err ZeroDivisionError)).
Proof.
  rewrite remote_2_eq. unfold remote_2_values.
  destruct (cache_X_labels (cache a)) as [Xl |];
    destruct (cache_local_stats_dict (cache a)) as [stats |];
    destruct (cache_avg_beta_vector (cache a)) as [beta |];
    destruct (cache_dof_global (cache a)) as [dof |];
    cbn [getitem bind];
    repeat split; intros; try congruence; try reflexivity.
  match goal with H : input a = [] |- _ => now rewrite H end.
Qed.

(** A comprehension [[np.array(d[site][key]) for site in d]] over a
    missing key, the arrays before it rectangular. *)
Lemma mapM_getitem_array_None (key : string)
    (field : site num blob -> option array) (l : list (site num blob)) :
  Exists (fun s => field s = None) l ->
  Forall (fun s => forall x, field s = Some x -> rect x = true) l ->
  mapM (fun s => x <- getitem key (field s) ;; np_array x) l =
  Err (KeyError key).
Proof.
  induction 1 as [s l Hs | s l _ IH]; intros Hall; simpl.
  - now rewrite Hs.
  - destruct (field s) as [x |] eqn:Ex; cbn [getitem bind]; [| reflexivity].
    rewrite (proj2 (np_array_Ok x x)
               (conj (Forall_inv Hall x Ex) eq_refl)).
    cbn [bind]. now rewrite (IH (Forall_inv_tail Hall)).
Qed.

Lemma sum_over_sites_KeyError (key : string)
    (field : site num blob -> option array)
    (input_list : dict (site num blob)) :
  Exists (fun s => field s = None) (values input_list) ->
  Forall (fun s => forall x, field s = Some x -> rect x = true)
         (values input_list) ->
  sum_over_sites key field input_list = Err (KeyError key).
Proof.
  intros Hex Hall. unfold sum_over_sites.
  now rewrite (mapM_getitem_array_None key field _ Hex Hall).
Qed.

(** A site that sends no "SSE_local", "SST_local" or "varX_matrix_local",
    the arrays the other sites send for it being rectangular.  The three
    totals are taken in this order: the first of them with a site that
    lacks the field ends [remote_2] with the KeyError of that field,
    before anything is rendered. *)
Lemma remote_2_missing_field (a : payload) (Xl : list string)
    (stats : list blob) (beta dof : array) :
  cache_X_labels (cache a) = Some Xl ->
  cache_local_stats_dict (cache a) = Some stats ->
  cache_avg_beta_vector (cache a) = Some beta ->
  cache_dof_global (cache a) = Some dof ->
  (Exists (fun s => SSE_local s = None) (sites a) ->
   Forall (fun s => forall x, SSE_local s = Some x -> rect x = true)
          (sites a) ->
   remote_2' a = ([], Err (KeyError "SSE_local"))) /\
  (forall t,
      sum_over_sites "SSE_local" SSE_local (input a) = Ok t ->
      Exists (fun s => SST_local s = None) (sites a) ->
      Forall (fun s => forall x, SST_local s = Some x -> rect x = true)
             (sites a) ->
      remote_2' a = ([], Err (KeyError "SST_local"))) /\
  (forall t t',
      sum_over_sites "SSE_local" SSE_local (input a) = Ok t ->
      sum_over_sites "SST_local" SST_local (input a) = Ok t' ->
      Exists (fun s => varX_matrix_local s = None) (sites a) ->
      Forall (fun s => forall x, varX_matrix_local s = Some x ->
                                 rect x = true) (sites a) ->
      remote_2' a = ([], Err (KeyError "varX_matrix_local"))).
Proof.
  intros HXl Hstats Hbeta Hdof.
  rewrite remote_2_eq. unfold remote_2_values.
  rewrite HXl, Hstats, Hbeta, Hdof. cbn [getitem bind].
  split; [| split].
  - intros Hex Hall.
    now rewrite (sum_over_sites_KeyError _ _ _ Hex Hall).
  - intros t Ht Hex Hall. rewrite Ht. cbn [bind].
    now rewrite (sum_over_sites_KeyError _ _ _ Hex Hall).
  - intros t t' Ht Ht' Hex Hall. rewrite Ht, Ht'. cbn [bind].
    now rewrite (sum_over_sites_KeyError _ _ _ Hex Hall).
Qed.

(** What a run of [remote_2] does to the outside.  Either it ends with an
    exception and has rendered nothing, or it has called [print_pvals] and
    then [print_beta_images], once each, with the arguments it received,
    one list of p-values per list of t-statistics and the cached labels and
    coefficients, and returns "success": True with the image of
    [encode_png] and the site names zipped with the cached statistics. *)
Lemma remote_2_renders_then_returns (a : payload) :
  (exists e, remote_2' a = ([], Err e)) \/
  (exists Xl stats beta ts_global ps_global,
      cache_X_labels (cache a) = Some Xl /\
      cache_local_stats_dict (cache a) = Some stats /\
      cache_avg_beta_vector (cache a) = Some beta /\
      length ps_global = length ts_global /\
      remote_2' a =
      ([print_pvals a ps_global ts_global Xl; print_beta_images a beta Xl],
       Ok {| output_2 :=
               {| global_stats := encode_png a;
                  local_stats := combine (keys (input a)) stats |};
             success := true |})).
Proof.
  rewrite remote_2_eq.
  destruct (remote_2_values' a) as [[[[[Xl stats] beta] dof] tps] | e] eqn:H;
    [right | left; now exists e].
  exists Xl, stats, beta, (map fst tps), (map snd tps).
  unfold remote_2_values in H.
  bind_step H as Xl' HXl. apply getitem_Ok in HXl.
  bind_step H as stats' Hstats. apply getitem_Ok in Hstats.
  bind_step H as beta' Hbeta. apply getitem_Ok in Hbeta.
  do 10 (let x := fresh in let E := fresh in bind_step H as x E).
  injection H as <- <- <- _ _.
  rewrite !length_map. now repeat split.
Qed.

(** The dispatcher writes to stdout once, as the last thing it does, when
    the function it routed to returns; when the run ends with an exception
    nothing was rendered and nothing written. *)
Lemma main_writes_last (parsed_args : payload) :
  match main' parsed_args with
  | (evs, Ok _) =>
      exists evs' w, evs = evs' ++ [w] /\ is_stdout_write w = true /\
                     Forall (fun ev => is_stdout_write ev = false) evs'
  | (evs, Err _) => evs = []
  end.
Proof.
  unfold main.
  destruct (existsb (String.eqb "local_1") _).
  - rewrite bindM_lift.
    destruct (remote_1 parsed_args) as [o | e]; [| reflexivity].
    exists [], (stdout_write_1 o). now repeat split.
  - destruct (existsb (String.eqb "local_2") _); [| reflexivity].
    rewrite remote_2_eq.
    destruct (remote_2_values linalg_inv t_to_p parsed_args)
      as [[[[[Xl stats] beta] dof] tps] | e]; [| reflexivity].
    cbn [bindM emit].
    eexists _, _. split; [reflexivity |].
    split; [reflexivity |]. now repeat constructor.
Qed.

Lemma keys_combine {A : Type} (ks : list string) (vs : list A) :
  keys (combine ks vs) = firstn (length vs) ks /\
  values (combine ks vs) = firstn (length ks) vs.
Proof.
  unfold keys, values. revert vs.
  induction ks as [| k ks IH]; intros [| v vs]; simpl; try now split.
  destruct (IH vs) as [-> ->]. now split.
Qed.

(** The "local_stats" of the output are [zip]ped: as many entries as the
    shorter of the site names of the payload and the cached statistics,
    the first names with the first statistics.  A site beyond the cached
    list gets no entry, and no exception is raised for it. *)
Lemma local_stats_truncated (a : payload)
    (evs : list (event num blob artifact))
    (out : computation_output_2 blob artifact) (stats : list blob) :
  remote_2' a = (evs, Ok out) ->
  cache_local_stats_dict (cache a) = Some stats ->
  keys (local_stats (output_2 out)) = firstn (length stats) (keys (input a)) /\
  values (local_stats (output_2 out)) = firstn (length (input a)) stats /\
  length (local_stats (output_2 out)) =
    Nat.min (length (input a)) (length stats).
Proof.
  intros H Hstats.
  apply remote_2_Ok in H as (Xl & stats' & beta & dof & tps & Hv & _ & ->).
  cbn [output_2 local_stats].
  unfold remote_2_values in Hv.
  bind_step Hv as Xl' HXl.
  bind_step Hv as stats'' Hs. apply getitem_Ok in Hs.
  rewrite Hstats in Hs. injection Hs as <-.
  do 11 (let x := fresh in let E := fresh in bind_step Hv as x E).
  injection Hv as _ <- _ _ _.
  destruct (keys_combine (keys (input a)) stats) as [Hk Hv'].
  split; [exact Hk |].
  split; [rewrite Hv'; unfold keys; now rewrite length_map |].
  rewrite length_combine. unfold keys. now rewrite length_map.
Qed.

(** The steps of a successful run of [remote_2] up to the loop. *)
Lemma remote_2_values_Ok (a : payload) (Xl : list string) (stats : list blob)
    (beta dof : array) (tps : list (array * array)) :
  remote_2_values' a = Ok (Xl, stats, beta, dof, tps) ->
  exists SSE_global SST_global G MSE n,
    cache_X_labels (cache a) = Some Xl /\
    cache_local_stats_dict (cache a) = Some stats /\
    cache_avg_beta_vector (cache a) = Some beta /\
    cache_dof_global (cache a) = Some dof /\
    input a <> [] /\
    sum_over_sites "SSE_local" SSE_local (input a) = Ok SSE_global /\
    sum_over_sites "SST_local" SST_local (input a) = Ok SST_global /\
    sum_over_sites "varX_matrix_local" varX_matrix_local (input a) = Ok G /\
    rect dof = true /\
    bcast2 ndiv SSE_global dof = Ok MSE /\
    nd_len MSE = Ok n /\
    mapM (t_and_p' MSE G beta dof) (seq 0 n) = Ok tps.
Proof.
  unfold remote_2_values. intros H.
  bind_step H as Xl' HXl. apply getitem_Ok in HXl.
  bind_step H as stats' Hstats. apply getitem_Ok in Hstats.
  bind_step H as beta' Hbeta. apply getitem_Ok in Hbeta.
  bind_step H as dof' Hdof. apply getitem_Ok in Hdof.
  bind_step H as SSE HSSE. bind_step H as SST HSST. bind_step H as G HG.
  bind_step H as ratio Hdiv. bind_step H as r2 Hr2.
  bind_step H as dof_array Hdof_a. apply np_array_Ok in Hdof_a as [Hdr ->].
  bind_step H as MSE HMSE. bind_step H as n Hn.
  bind_step H as tps' Htps.
  injection H as <- <- <- <- <-.
  exists SSE, SST, G, MSE, n.
  repeat split; try assumption.
  intros E. unfold divide_totals in Hdiv. rewrite E in Hdiv. discriminate.
Qed.

(** The coefficient of determination is computed and dropped: of
    "SST_local" a run of [remote_2] uses nothing but that the division by
    the total goes through.  Two runs that return, on the same cache and
    site names with the same "SSE_local" and "varX_matrix_local", render
    the same statistics and return the same "local_stats". *)
Lemma remote_2_drops_r_squared (a a' : payload)
    (evs evs' : list (event num blob artifact))
    (out out' : computation_output_2 blob artifact) :
  remote_2' a = (evs, Ok out) ->
  remote_2' a' = (evs', Ok out') ->
  cache a' = cache a ->
  keys (input a') = keys (input a) ->
  map SSE_local (sites a') = map SSE_local (sites a) ->
  map varX_matrix_local (sites a') = map varX_matrix_local (sites a) ->
  exists ps_global ts_global Xl beta,
    evs = [print_pvals a ps_global ts_global Xl;
           print_beta_images a beta Xl] /\
    evs' = [print_pvals a' ps_global ts_global Xl;
            print_beta_images a' beta Xl] /\
    local_stats (output_2 out') = local_stats (output_2 out).
Proof.
  intros H H' Hc Hk HS HG.
  apply remote_2_Ok in H as (Xl & stats & beta & dof & tps & Hv & -> & ->).
  apply remote_2_Ok in H'
    as (Xl' & stats' & beta' & dof' & tps' & Hv' & -> & ->).
  apply remote_2_values_Ok in Hv
    as (SSE & SST & G & MSE & n & HXl & Hst & Hb & Hd & _ & HSSE & _ & HG1 &
        _ & HMSE & Hn & Htps).
  apply remote_2_values_Ok in Hv'
    as (SSE' & SST' & G' & MSE' & n' & HXl' & Hst' & Hb' & Hd' & _ & HSSE' &
        _ & HG1' & _ & HMSE' & Hn' & Htps').
  rewrite Hc in HXl', Hst', Hb', Hd'.
  rewrite (sum_over_sites_ext _ _ _ _ HS) in HSSE'.
  rewrite (sum_over_sites_ext _ _ _ _ HG) in HG1'.
  assert (Xl' = Xl) by congruence. assert (stats' = stats) by congruence.
  assert (beta' = beta) by congruence. assert (dof' = dof) by congruence.
  assert (SSE' = SSE) by congruence. assert (G' = G) by congruence.
  subst. assert (MSE' = MSE) by congruence. subst.
  assert (n' = n) by congruence. subst.
  assert (tps' = tps) by congruence. subst.
  exists (map snd tps), (map fst tps), Xl, beta.
  cbn [output_2 local_stats]. now rewrite Hk.
Qed.

(** One count for the whole site, as the docstring of [remote_1] types
    "count_local": the degrees of freedom [remote_1] caches are then a
    single number, which [remote_2] cannot index.  A second round on that
    cache delivers no statistic: whenever it returns, the total of
    "SSE_local" is an empty array and the lists of t-statistics and
    p-values it renders are empty. *)
Lemma int_counts_give_no_statistics (a1 a2 : payload)
    (out1 : computation_output_1 num blob)
    (evs : list (event num blob artifact))
    (out2 : computation_output_2 blob artifact) :
  remote_1 a1 = Ok out1 ->
  Forall (fun s => exists x, count_local s = Some (Sc x)) (sites a1) ->
  cache a2 = cache_1 out1 ->
  remote_2' a2 = (evs, Ok out2) ->
  sum_over_sites "SSE_local" SSE_local (input a2) = Ok (Ar []) /\
  exists Xl beta,
    evs = [print_pvals a2 [] [] Xl; print_beta_images a2 beta Xl].
Proof.
  intros H1 Hint Hc H2.
  destruct (remote_1_shapes a1 out1 H1)
    as (betas & counts & dof & sb & sc & _ & Hcounts & _ & Hcs & Hdof & _ &
        _ & Hdr & Hds).
  (* the cached degrees of freedom are one number *)
  assert (Hsc : sc = []).
  { destruct (remote_1_labels_Ok a1 out1 H1) as (user & rest & _ & _ & Hin & _).
    unfold values in Hint, Hcounts. rewrite Hin in Hint, Hcounts.
    simpl in Hint, Hcounts.
    destruct (Forall_inv Hint) as [x Hx].
    destruct counts as [| c cs]; [discriminate |].
    injection Hcounts as Hc0 _. rewrite Hx in Hc0. injection Hc0 as <-.
    now destruct (Forall_inv Hcs) as [_ <-]. }
  rewrite Hsc in Hds. destruct (shape_nil_Sc dof Hds) as [d ->].
  apply remote_2_Ok in H2 as (Xl & stats & beta & dof' & tps & Hv & -> & _).
  apply remote_2_values_Ok in Hv
    as (SSE & SST & G & MSE & n & _ & _ & _ & Hd & Hne & HSSE & _ & _ &
        _ & HMSE & Hn & Htps).
  rewrite Hc, Hdof in Hd. injection Hd as <-.
  destruct (sum_over_sites_Ok _ _ _ _ HSSE) as (arrays & Hmap & Hrect & Hsum).
  assert (Harr : arrays <> []).
  { intros ->. destruct (input a2); [congruence | discriminate]. }
  destruct (py_sum_broadcast arrays SSE Harr Hrect Hsum) as (Hr & _).
  rewrite bcast2_scalar_r in HMSE by exact Hr. injection HMSE as <-.
  destruct n as [| n].
  - simpl in Htps. injection Htps as <-.
    destruct SSE as [x | l]; [discriminate |].
    simpl in Hn. injection Hn as Hn. rewrite length_map in Hn.
    destruct l; [| discriminate].
    split; [exact HSSE |]. now exists Xl, beta.
  - exfalso. simpl in Htps. bind_step Htps as tp Htp.
    apply t_and_p_Ok in Htp as (? & ? & ? & ? & ? & ? & _ & _ & _ & _ & _ & _ &
                                _ & Hget & _).
    discriminate.
Qed.

(** One number per site instead of one per output dimension: with
    "SSE_local" and "SST_local" numbers at every site and the cached
    "dof_global" a number (what [remote_1] caches for numbers as counts),
    MSE is a number and [remote_2] ends with the TypeError of [len(MSE)],
    before anything is rendered. *)
Lemma remote_2_scalars_TypeError (a : payload)
    (user : string * site num blob) (rest : dict (site num blob))
    (Xl : list string) (stats : list blob) (beta G : array) (d : num) :
  input a = user :: rest ->
  cache_X_labels (cache a) = Some Xl ->
  cache_local_stats_dict (cache a) = Some stats ->
  cache_avg_beta_vector (cache a) = Some beta ->
  cache_dof_global (cache a) = Some (Sc d) ->
  Forall (fun st => exists x, SSE_local st = Some (Sc x)) (sites a) ->
  Forall (fun st => exists x, SST_local st = Some (Sc x)) (sites a) ->
  sum_over_sites "varX_matrix_local" varX_matrix_local (input a) = Ok G ->
  remote_2' a = ([], Err TypeError).
Proof.
  intros Hin HXl Hstats Hbeta Hdof HSSE HSST HG.
  assert (Hne : input a <> []) by (rewrite Hin; discriminate).
  assert (Hsc : forall (key : string) (field : site num blob -> option array),
             Forall (fun st => exists x, field st = Some (Sc x)) (sites a) ->
             exists t, sum_over_sites key field (input a) = Ok (Sc t)).
  { intros key field Hall.
    destruct (sum_over_sites_returns key field (input a) [] Hne)
      as (t & Ht & _ & Hs).
    - eapply Forall_impl; [| exact Hall].
      intros st [x Hx]. exists (Sc x). now repeat split.
    - destruct (shape_nil_Sc t Hs) as [v ->]. now exists v. }
  destruct (Hsc "SSE_local" SSE_local HSSE) as [sse HSSE'].
  destruct (Hsc "SST_local" SST_local HSST) as [sst HSST'].
  rewrite remote_2_eq. unfold remote_2_values.
  rewrite HXl, Hstats, Hbeta, Hdof. cbn [getitem bind].
  rewrite HSSE', HSST', HG. cbn [bind].
  unfold divide_totals. rewrite Hin.
  reflexivity.
Qed.

(** The two rounds together.  After a first round over sites with [V] by
    [p] coefficient arrays and [V] counts each, a second round on the
    cache it returned, over sites with [V] sums of squares each and a
    cross-product matrix [scipy.linalg.inv] inverts, returns; the
    t-statistic of output dimension [i] and coefficient [j] is the mean
    over the first round's sites of the coefficient, divided by the square
    root of [SSE_global[i] / (sum of the counts [i] - p)] times
    [inverse[j][j]]. *)
Lemma two_rounds_t_statistics (a1 a2 : payload)
    (out1 : computation_output_1 num blob) (user : string * site num blob)
    (rest : dict (site num blob)) (betas counts : list array)
    (G inverse : array) (V p : nat) :
  remote_1 a1 = Ok out1 ->
  map beta_vector_local (sites a1) = map Some betas ->
  map count_local (sites a1) = map Some counts ->
  Forall (fun b => shape b = [V; p]) betas ->
  Forall (fun c => shape c = [V]) counts ->
  cache a2 = cache_1 out1 ->
  input a2 = user :: rest ->
  Forall (fun st => exists x, SSE_local st = Some x /\
                              (rect x = true /\ shape x = [V])) (sites a2) ->
  Forall (fun st => exists x, SST_local st = Some x /\
                              (rect x = true /\ shape x = [V])) (sites a2) ->
  sum_over_sites "varX_matrix_local" varX_matrix_local (input a2) = Ok G ->
  linalg_inv G = Ok inverse ->
  rect inverse = true -> shape inverse = [p; p] ->
  exists evs out2 SSE_global ts_global ps_global Xl,
    remote_2' a2 = (evs, Ok out2) /\
    In (print_pvals a2 ps_global ts_global Xl) evs /\
    sum_over_sites "SSE_local" SSE_local (input a2) = Ok SSE_global /\
    forall i j, i < V -> j < p ->
      exists bs cs sse_i inv_jj ts_i,
        elements [i; j] betas = Some bs /\
        elements [i] counts = Some cs /\
        nd_get [i] SSE_global = Some sse_i /\
        nd_get [j; j] inverse = Some inv_jj /\
        nth_error ts_global i = Some ts_i /\
        nd_get [j] ts_i =
        Some (ndiv (ndiv (total bs) (of_nat (length betas)))
                   (nsqrt (nmul (ndiv sse_i
                                      (nsub (total_from_zero cs) (of_nat p)))
                                inv_jj))).
Proof.
  intros H1 Hbetas Hcounts Hbs Hcs Hc Hin HSSE HSST HG Hinv Hinv_r Hinv_s.
  destruct (remote_1_labels_Ok a1 out1 H1)
    as (user1 & rest1 & Xl & yl & _ & _ & _ & HXl & _).
  destruct (remote_1_Ok a1 out1 H1)
    as (b & bs & means & c & cs & w & ws & csum & my & dof & p' &
        Hb & _ & Hc' & Hbr & _ & Hcr & _ & _ & _ & _ & Hp & Hdof & Havg & _ &
        Hcb & _ & Hcd & Hsome & _).
  rewrite Hbetas in Hb. apply map_Some_inj in Hb. subst betas.
  rewrite Hcounts in Hc'. apply map_Some_inj in Hc'. subst counts.
  destruct (cache_local_stats_dict (cache_1 out1)) as [stats |] eqn:Hstats;
    [| congruence].
  rewrite (Forall_inv Hbs) in Hp. simpl in Hp. injection Hp as <-.
  pose proof Hbr as Hbr'. apply rect_cons in Hbr' as [Hb1 Hb2].
  destruct (fold_zipnd_shape nadd bs b Hb1 Hb2) as [Hr1 Hs1].
  destruct (py_sum_rect c cs Hcr) as [Hr2 Hs2].
  set (avg := out_avg_beta_vector (output_1 out1)) in *.
  assert (Havg_r : rect avg = true) by (rewrite Havg; now apply rect_mapnd).
  assert (Havg_s : shape avg = [V; p]).
  { rewrite Havg, shape_mapnd, Hs1. apply (Forall_inv Hbs). }
  assert (Hdof_r : rect dof = true) by (rewrite Hdof; now apply rect_mapnd).
  assert (Hdof_s : shape dof = [V]).
  { rewrite Hdof, shape_mapnd, Hs2. apply (Forall_inv Hcs). }
  rewrite <- Hc in HXl, Hstats, Hcb, Hcd.
  destruct (remote_2_returns linalg_inv t_to_p encode_png
              a2 user rest Xl stats avg dof G inverse V p)
    as (evs & out2 & Hrun); try assumption.
  assert (Hne : input a2 <> []) by (rewrite Hin; discriminate).
  destruct (sum_over_sites_returns "SSE_local" _ _ _ Hne HSSE)
    as (SSE & HSSE' & HSSE_r & HSSE_s).
  assert (HSSE_v : Forall (fun s => exists x, SSE_local s = Some x /\
                                              shape x = [V]) (sites a2)).
  { eapply Forall_impl; [| exact HSSE].
    intros st [x [Hx [_ Hs]]]. now exists x. }
  destruct (remote_2_t_statistics_of_run linalg_inv t_to_p encode_png
              a2 evs out2 V p SSE G inverse avg dof)
    as (ts_global & ps_global & Xl' & Hev & Hlen & Hts); try assumption.
  exists evs, out2, SSE, ts_global, ps_global, Xl'.
  do 3 (split; [assumption |]).
  intros i j Hi Hj.
  destruct (nd_get_vector SSE V i HSSE_r HSSE_s Hi) as [sse_i Hsse].
  destruct (nd_get_vector dof V i Hdof_r Hdof_s Hi) as [dof_i Hdofi].
  destruct (nd_get_matrix avg V p i j Havg_r Havg_s Hi Hj) as [beta_ij Hbij].
  destruct (nd_get_matrix inverse p p j j Hinv_r Hinv_s Hj Hj) as [v Hv].
  destruct (Hts i j sse_i dof_i beta_ij v Hsse Hdofi Hbij Hv)
    as [ts_i [Hnth Hget]].
  rewrite Havg, nd_get_mapnd, nd_get_sum_axis0 in Hbij.
  rewrite Hdof, nd_get_mapnd, nd_get_py_sum in Hdofi.
  destruct (elements [i; j] (b :: bs)) as [xs |]; [| discriminate].
  destruct (elements [i] (c :: cs)) as [ys |]; [| discriminate].
  simpl in Hbij, Hdofi. injection Hbij as <-. injection Hdofi as <-.
  now exists xs, ys, sse_i, v, ts_i.
Qed.

End Remote2Edges.

(** * The properties on the example payloads *)

Section OnExamples.

Import Examples.
Import PrimFloat.
Local Open Scope float_scope.

(** The model of numpy on small inputs. *)

Example np_array_ragged :
  np_array (Ar [vec [1; 2]; vec [3]]) =
  Err (ValueError "setting an array element with a sequence").
Proof. reflexivity. Qed.

Example np_average_two_rows :
  np_average_axis0 [mat [[1; 2]]; mat [[3; 6]]] = Ok (mat [[2; 4]]).
Proof. reflexivity. Qed.

Example broadcast_same_shape :
  bcast2 nmul (vec [2; 4]) (vec [10; 30]) = Ok (vec [20; 120]).
Proof. reflexivity. Qed.

Example broadcast_last_axis :
  bcast2 nmul (mat [[0; 1]; [0; 0]]) (vec [10; 30]) =
  Ok (mat [[0; 30]; [0; 0]]).
Proof. reflexivity. Qed.

Example broadcast_column :
  bcast2 nmul (mat [[1]; [2]]) (vec [10; 30; 40]) =
  Ok (mat [[10; 30; 40]; [20; 60; 80]]).
Proof. reflexivity. Qed.

Example broadcast_mismatch :
  bcast2 nmul (mat [[0; 1; 2]; [0; 0; 5]]) (vec [10; 30]) =
  Err (ValueError "operands could not be broadcast together").
Proof. reflexivity. Qed.

Example builtin_sum_of_vectors :
  py_sum [vec [1; 2]; vec [3; 4]] = Ok (vec [4; 6]).
Proof. reflexivity. Qed.

Example builtin_sum_broadcasts :
  py_sum [vec [1; 2; 3]; vec [10]] = Ok (vec [11; 12; 13]) /\
  broadcasts_to [1%nat] [3%nat] = true /\
  expand [3%nat] (vec [10]) = vec [10; 10; 10].
Proof. repeat split. Qed.

Example diagonal_of_matrix :
  diagonal (mat [[1; 2; 3]; [0; 1; 4]; [5; 6; 0]]) = Ok (vec [1; 1; 0]).
Proof. reflexivity. Qed.

Example diagonal_of_three_axes :
  diagonal (Ar [mat [[1; 2]; [3; 4]]; mat [[5; 6]; [7; 8]]]) =
  Ok (mat [[1; 7]; [2; 8]]).
Proof. reflexivity. Qed.

Example inverse_by_cofactors :
  float_inv (mat [[1; 2; 3]; [0; 1; 4]; [5; 6; 0]]) =
  Ok (mat [[-24; 18; 5]; [20; -15; -4]; [-5; 4; 1]]).
Proof. reflexivity. Qed.

Example inverse_of_singular :
  float_inv (mat [[1; 2]; [2; 4]]) = Err LinAlgError.
Proof. reflexivity. Qed.

(** The runs of [remote_1] on the example payloads. *)

Example run_scalar_payload : remote_1 scalar_payload = Ok scalar_output.
Proof. reflexivity. Qed.

Example run_payload_1 : remote_1 payload_1 = Ok output_1_of_payload_1.
Proof. reflexivity. Qed.

Example run_flat_payload : remote_1 flat_payload = Err IndexError.
Proof. reflexivity. Qed.

(** Three output dimensions at two sites, one integer count per site:
    the product of means and counts cannot be broadcast. *)
Example run_int_count_three_dimensions :
  remote_1
    (phase_1 [("site_A", site_1 "stats of A" (mat [[1; 2]; [1; 2]; [1; 2]])
                                (vec [0; 1; 2]) (Sc 10));
              ("site_B", site_1 "stats of B" (mat [[3; 6]; [3; 6]; [3; 6]])
                                (vec [0; 0; 5]) (Sc 30))]) =
  Err (ValueError "operands could not be broadcast together").
Proof. reflexivity. Qed.

(** C1 on the two sites with coefficients [[1, 2]] and [[3, 6]]. *)
Lemma remote_1_avg_beta_vector_is_mean_witness :
  remote_1 scalar_payload = Ok scalar_output /\
  exists betas : list fnd,
    map beta_vector_local (values (input scalar_payload)) = map Some betas /\
    (1 <= length betas)%nat /\
    Forall (fun b => shape b =
                     shape (out_avg_beta_vector (output_1 scalar_output)))
           betas /\
    cache_avg_beta_vector (cache_1 scalar_output) =
      Some (out_avg_beta_vector (output_1 scalar_output)) /\
    forall idx : list nat,
      nd_get idx (out_avg_beta_vector (output_1 scalar_output)) =
      option_map (fun xs => ndiv (total xs) (of_nat (length betas)))
                 (elements idx betas).
Proof.
  split; [reflexivity |].
  exact (remote_1_avg_beta_vector_is_mean scalar_payload scalar_output
           eq_refl).
Defined.

(** C2 at a payload the docstring of [remote_1] allows: two output
    dimensions, means [0, 1] with count 10 at site A and means [0, 0] with
    count 30 at site B.  [remote_1] returns [0, 0.75] as "mean_y_global";
    the count-weighted averages of the two dimensions are 0 and
    [(1 * 10 + 0 * 30) / (10 + 30) = 0.25]. *)
Theorem remote_1_mean_y_global_int_count :
  exists out,
    remote_1 int_count_payload = Ok out /\
    map mean_y_local (values (input int_count_payload)) =
      [Some (vec [0; 1]); Some (vec [0; 0])] /\
    map count_local (values (input int_count_payload)) =
      [Some (Sc 10); Some (Sc 30)] /\
    out_mean_y_global (output_1 out) = vec [0; 0.75] /\
    ndiv (total [nmul 0 10; nmul 0 30]) (total [10; 30]) = 0 /\
    ndiv (total [nmul 1 10; nmul 0 30]) (total [10; 30]) = 0.25.
Proof.
  eexists. repeat split; vm_compute; reflexivity.
Qed.

(** The weighted mean on the two sites with mean 2.0 / count 10 and
    mean 4.0 / count 30: 3.5. *)
Lemma remote_1_mean_y_global_witness :
  (remote_1 scalar_payload = Ok scalar_output /\
   map mean_y_local (values (input scalar_payload)) =
     map Some [Sc 2; Sc 4] /\
   map count_local (values (input scalar_payload)) =
     map Some [Sc 10; Sc 30] /\
   Forall2 (fun m c : fnd => shape m = shape c) [Sc 2; Sc 4] [Sc 10; Sc 30]) /\
  (forall idx : list nat,
      nd_get idx (out_mean_y_global (output_1 scalar_output)) =
      match elements idx [Sc 2; Sc 4], elements idx [Sc 10; Sc 30] with
      | Some ms, Some cs => Some (ndiv (total (map2 nmul ms cs)) (total cs))
      | _, _ => None
      end) /\
  out_mean_y_global (output_1 scalar_output) = Sc 3.5.
Proof.
  assert (H : Forall2 (fun m c : fnd => shape m = shape c)
                [Sc 2; Sc 4] [Sc 10; Sc 30])
    by (repeat constructor).
  split; [repeat split; try reflexivity; exact H |].
  split; [| reflexivity].
  exact (remote_1_mean_y_global scalar_payload scalar_output
           [Sc 2; Sc 4] [Sc 10; Sc 30] eq_refl eq_refl eq_refl H).
Defined.

(** C3.  Whenever [remote_1] returns, every site's coefficient array has
    the same number [p] of columns and every item of "dof_global" is the
    sum of the sites' "count_local" at that index minus [p]; with counts
    10 and 30 and two coefficients it is 38. *)
Theorem remote_1_dof_global_is_count_minus_p :
  (forall (num : Type) (NumOps : Numeric num) (blob : Type)
          (a : args num blob) (out : computation_output_1 num blob),
      remote_1 a = Ok out ->
      exists (betas counts : list (nd num)) (p : nat) (dof : nd num),
        map beta_vector_local (values (input a)) = map Some betas /\
        map count_local (values (input a)) = map Some counts /\
        Forall (fun b => nth_error (shape b) 1%nat = Some p) betas /\
        cache_dof_global (cache_1 out) = Some dof /\
        forall idx : list nat,
          nd_get idx dof =
          option_map (fun cs => nsub (total_from_zero cs) (of_nat p))
                     (elements idx counts)) /\
  (exists out,
      remote_1 scalar_payload = Ok out /\
      map count_local (values (input scalar_payload)) =
        [Some (Sc 10); Some (Sc 30)] /\
      map (fun s => option_map shape (beta_vector_local s))
          (values (input scalar_payload)) =
        [Some [1; 2]%nat; Some [1; 2]%nat] /\
      cache_dof_global (cache_1 out) = Some (Sc 38)).
Proof.
  split.
  - intros num NumOps blob a out. apply remote_1_dof_global.
  - exists scalar_output. repeat split; reflexivity.
Qed.

Lemma remote_1_dof_global_is_count_minus_p_witness :
  remote_1 scalar_payload = Ok scalar_output /\
  exists (betas counts : list fnd) (p : nat) (dof : fnd),
    map beta_vector_local (values (input scalar_payload)) = map Some betas /\
    map count_local (values (input scalar_payload)) = map Some counts /\
    Forall (fun b => nth_error (shape b) 1%nat = Some p) betas /\
    cache_dof_global (cache_1 scalar_output) = Some dof /\
    forall idx : list nat,
      nd_get idx dof =
      option_map (fun cs => nsub (total_from_zero cs) (of_nat p))
                 (elements idx counts).
Proof.
  split; [reflexivity |].
  exact (proj1 remote_1_dof_global_is_count_minus_p _ _ _
           scalar_payload scalar_output eq_refl).
Defined.

(** C10 as the claim has it fails: a payload whose coefficients are nested
    three deep is accepted. *)
Lemma remote_1_accepts_three_dimensions :
  Forall (fun s : fsite => exists b, beta_vector_local s = Some b /\ ndim b = 3%nat)
         (values (input deep_payload)) /\
  exists out, remote_1 deep_payload = Ok out.
Proof.
  split.
  - constructor; [| constructor].
    eexists. split; reflexivity.
  - eexists. reflexivity.
Qed.

Lemma remote_1_needs_two_dimensions_witness :
  (remote_1 scalar_payload = Ok scalar_output /\
   Forall (fun s : fsite => exists b, beta_vector_local s = Some b /\
                                      rect b = true /\ 2 <= ndim b)
          (values (input scalar_payload))) /\
  (Forall (fun s : fsite => exists b, beta_vector_local s = Some b /\
                                      ndim b = 1%nat)
          (values (input flat_payload)) /\
   exists e, remote_1 flat_payload = Err e).
Proof.
  assert (H : Forall (fun s : fsite => exists b, beta_vector_local s = Some b /\
                                                 ndim b = 1%nat)
                (values (input flat_payload))).
  { repeat constructor; eexists; split; reflexivity. }
  split; split.
  - reflexivity.
  - exact (proj1 remote_1_needs_two_dimensions scalar_payload scalar_output
             eq_refl).
  - exact H.
  - exact (proj2 remote_1_needs_two_dimensions flat_payload H).
Defined.

Lemma run_payload_2 :
  run_remote_2 payload_2 =
  (events_of payload_2,
   Ok (output_2_of [("site_A", "stats of A"); ("site_B", "stats of B")])).
Proof. vm_compute. reflexivity. Qed.

(** C4 on the second round of the two sites. *)
Lemma remote_2_global_sums_witness :
  run_remote_2 payload_2 =
  (events_of payload_2,
   Ok (output_2_of [("site_A", "stats of A"); ("site_B", "stats of B")])) /\
  exists (SSEs SSTs varXs : list fnd)
         (SSE_global SST_global varX_matrix_global : fnd),
    values (input payload_2) <> [] /\
    map SSE_local (values (input payload_2)) = map Some SSEs /\
    map SST_local (values (input payload_2)) = map Some SSTs /\
    map varX_matrix_local (values (input payload_2)) = map Some varXs /\
    sum_over_sites "SSE_local" SSE_local (input payload_2) = Ok SSE_global /\
    sum_over_sites "SST_local" SST_local (input payload_2) = Ok SST_global /\
    sum_over_sites "varX_matrix_local" varX_matrix_local (input payload_2) =
      Ok varX_matrix_global /\
    broadcast_sum SSEs SSE_global /\
    broadcast_sum SSTs SST_global /\
    broadcast_sum varXs varX_matrix_global /\
    (same_shape SSEs -> elementwise_sum SSEs SSE_global) /\
    (same_shape SSTs -> elementwise_sum SSTs SST_global) /\
    (same_shape varXs -> elementwise_sum varXs varX_matrix_global).
Proof.
  split; [exact run_payload_2 |].
  exact (remote_2_global_sums float_inv sample_t_to_p sample_encode_png
           payload_2 _ _ run_payload_2).
Defined.

(** C5 on the second round of the two sites: one output dimension, two
    coefficients, SSE 76 on 38 degrees of freedom, the inverse of
    [[8, 0], [0, 32]]; the t-statistics are 4 and 16. *)
Lemma remote_2_t_statistics_witness :
  (input payload_2 =
     ("site_A", site_2 (vec [30]) (vec [100]) (mat [[4; 0]; [0; 16]])) ::
     [("site_B", site_2 (vec [46]) (vec [200]) (mat [[4; 0]; [0; 16]]))] /\
   cache_X_labels (cache payload_2) = Some labels /\
   cache_local_stats_dict (cache payload_2) =
     Some ["stats of A"; "stats of B"] /\
   cache_avg_beta_vector (cache payload_2) = Some (mat [[2; 4]]) /\
   cache_dof_global (cache payload_2) = Some (vec [38]) /\
   Forall (fun s : fsite => exists x, SSE_local s = Some x /\
                                      (rect x = true /\ shape x = [1%nat]))
          (values (input payload_2)) /\
   Forall (fun s : fsite => exists x, SST_local s = Some x /\
                                      (rect x = true /\ shape x = [1%nat]))
          (values (input payload_2)) /\
   sum_over_sites "varX_matrix_local" varX_matrix_local (input payload_2) =
     Ok (mat [[8; 0]; [0; 32]]) /\
   float_inv (mat [[8; 0]; [0; 32]]) = Ok (mat [[0.125; 0]; [0; 0.03125]]) /\
   rect (mat [[0.125; 0]; [0; 0.03125]]) = true /\
   shape (mat [[0.125; 0]; [0; 0.03125]]) = [2; 2]%nat /\
   rect (mat [[2; 4]]) = true /\
   shape (mat [[2; 4]]) = [1; 2]%nat /\
   rect (vec [38]) = true /\
   shape (vec [38]) = [1%nat]) /\
  exists evs out SSE_global ts_global ps_global,
    run_remote_2 payload_2 = (evs, Ok out) /\
    In (print_pvals payload_2 ps_global ts_global labels) evs /\
    sum_over_sites "SSE_local" SSE_local (input payload_2) = Ok SSE_global /\
    length ts_global = 1%nat /\
    forall i j, (i < 1)%nat -> (j < 2)%nat ->
      exists sse_i dof_i beta_ij inv_jj ts_i,
        nd_get [i] SSE_global = Some sse_i /\
        nd_get [i] (vec [38]) = Some dof_i /\
        nd_get [i; j] (mat [[2; 4]]) = Some beta_ij /\
        nd_get [j; j] (mat [[0.125; 0]; [0; 0.03125]]) = Some inv_jj /\
        nth_error ts_global i = Some ts_i /\
        nd_get [j] ts_i =
        Some (ndiv beta_ij (nsqrt (nmul (ndiv sse_i dof_i) inv_jj))).
Proof.
  assert (H1 : Forall (fun s : fsite => exists x, SSE_local s = Some x /\
                                       (rect x = true /\ shape x = [1%nat]))
                 (values (input payload_2))).
  { repeat constructor; eexists; repeat split; reflexivity. }
  assert (H2 : Forall (fun s : fsite => exists x, SST_local s = Some x /\
                                       (rect x = true /\ shape x = [1%nat]))
                 (values (input payload_2))).
  { repeat constructor; eexists; repeat split; reflexivity. }
  split.
  - split; [reflexivity |]. do 4 (split; [reflexivity |]).
    split; [exact H1 |]. split; [exact H2 |].
    repeat split; reflexivity.
  - exact (remote_2_t_statistics float_inv sample_t_to_p sample_encode_png
             payload_2 _ _ labels _ _ _ _ _ 1%nat 2%nat
             eq_refl eq_refl eq_refl eq_refl eq_refl H1 H2 eq_refl eq_refl
             eq_refl eq_refl eq_refl eq_refl eq_refl eq_refl).
Defined.

(** The t-statistics [remote_2] hands to [print_pvals] for that input:
    2 / sqrt (2 * 0.125) = 4 and 4 / sqrt (2 * 0.03125) = 16. *)
Example t_statistics_of_payload_2 :
  In (print_pvals payload_2 [vec [0; 0]] [vec [4; 16]] labels)
     (fst (run_remote_2 payload_2)).
Proof. vm_compute. now left. Qed.

(** C6 on the second round of the two sites. *)
Lemma remote_2_cache_read_only_witness :
  run_remote_2 payload_2 =
  (events_of payload_2,
   Ok (output_2_of [("site_A", "stats of A"); ("site_B", "stats of B")])) /\
  exists beta dof Xl ts_global ps_global,
    cache_avg_beta_vector (cache payload_2) = Some beta /\
    cache_dof_global (cache payload_2) = Some dof /\
    cache_X_labels (cache payload_2) = Some Xl /\
    events_of payload_2 =
      [print_pvals payload_2 ps_global ts_global Xl;
       print_beta_images payload_2 beta Xl] /\
    (forall i ts_i,
        nth_error ts_global i = Some ts_i ->
        exists beta_i dof_i se_i,
          py_getitem beta i = Ok beta_i /\
          py_getitem dof i = Ok dof_i /\
          bcast2 ndiv beta_i se_i = Ok ts_i /\
          nth_error ps_global i = Some (sample_t_to_p ts_i dof_i)) /\
    (forall a' : fargs,
        cache a' = cache payload_2 ->
        keys (input a') = keys (input payload_2) ->
        map phase_2_fields (values (input a')) =
          map phase_2_fields (values (input payload_2)) ->
        run_remote_2 a' =
        ([print_pvals a' ps_global ts_global Xl;
          print_beta_images a' beta Xl],
         Ok {| output_2 :=
                 {| global_stats := sample_encode_png a';
                    local_stats :=
                      local_stats
                        (output_2
                           (output_2_of [("site_A", "stats of A");
                                         ("site_B", "stats of B")])) |};
               success := true |})) /\
    (forall (a1 : fargs) (out1 : computation_output_1 float string),
        remote_1 a1 = Ok out1 ->
        cache payload_2 = cache_1 out1 ->
        beta = out_avg_beta_vector (output_1 out1) /\
        cache_dof_global (cache_1 out1) = Some dof).
Proof.
  split; [exact run_payload_2 |].
  exact (remote_2_cache_read_only float_inv sample_t_to_p sample_encode_png
           payload_2 _ _ run_payload_2).
Defined.

(** C7 on a payload that carries both "local_1" and "local_2", on the
    second round of the two sites, and on a payload with an unknown tag
    only. *)
Lemma main_dispatch_witness :
  ((In "local_1" (site_tags mixed_payload "computation_phase") /\
    In "local_2" (site_tags mixed_payload "computation_phase")) /\
   run_main mixed_payload =
   match remote_1 mixed_payload with
   | Ok o => ([stdout_write_1 o], Ok tt)
   | Err e => ([], Err e)
   end) /\
  ((~ In "local_1" (site_tags payload_2 "computation_phase") /\
    In "local_2" (site_tags payload_2 "computation_phase")) /\
   run_main payload_2 =
   match run_remote_2 payload_2 with
   | (evs, Ok o) => (evs ++ [stdout_write_2 o], Ok tt)
   | (evs, Err e) => (evs, Err e)
   end) /\
  ((~ In "local_1" (site_tags untagged_payload "computation_phase") /\
    ~ In "local_2" (site_tags untagged_payload "computation_phase")) /\
   run_main untagged_payload =
   ([], Err (ValueError "Error occurred at Remote"))).
Proof.
  assert (H1 : In "local_1" (site_tags mixed_payload "computation_phase"))
    by (now left).
  assert (H2 : ~ In "local_1" (site_tags payload_2 "computation_phase")).
  { intros [H | [H | []]]; discriminate. }
  assert (H3 : In "local_2" (site_tags payload_2 "computation_phase"))
    by (now left).
  assert (H4 : ~ In "local_1" (site_tags untagged_payload "computation_phase")).
  { intros [H | []]; discriminate. }
  assert (H5 : ~ In "local_2" (site_tags untagged_payload "computation_phase")).
  { intros [H | []]; discriminate. }
  split; [split; [split; [exact H1 | right; now left] |] |
          split; [split; [now split |] | split; [now split |]]].
  - exact (proj1 (main_dispatch float_inv sample_t_to_p site_tags
                    sample_encode_png mixed_payload) H1).
  - exact (proj1 (proj2 (main_dispatch float_inv sample_t_to_p site_tags
                           sample_encode_png payload_2)) H2 H3).
  - exact (proj2 (proj2 (main_dispatch float_inv sample_t_to_p site_tags
                           sample_encode_png untagged_payload)) H4 H5).
Defined.



(** The two singular matrices under elimination with partial pivoting:
    the zero column gives an exactly zero pivot; on the collinear
    covariates rounding leaves a last pivot that is small but not zero. *)
Example elimination_of_singular_matrices :
  gauss_pivots 2 [[8; 0]; [0; 0]] = None /\
  exists p1 p2 p3,
    gauss_pivots 3 [[4; 19863; 19867];
                    [19863; 123814599; 123834462];
                    [19867; 123834462; 123854329]] = Some [p1; p2; p3] /\
    PrimFloat.eqb p3 0 = false /\
    PrimFloat.ltb (PrimFloat.abs p3) 0x1p-30 = true.
Proof.
  split; [vm_compute; reflexivity |].
  do 3 eexists. split; [vm_compute; reflexivity |].
  split; vm_compute; reflexivity.
Qed.

Example run_main_singular_payload :
  run_main singular_payload = ([], Err LinAlgError).
Proof. reflexivity. Qed.

(** C9 at two payloads over the same two sites, listed as A, B in phase 1
    and as B, A in phase 2: the final "local_stats" give site B the
    statistics site A sent, and site A those of site B. *)
Theorem local_stats_swapped :
  map (fun kv => (fst kv, local_stats_dict (snd kv))) (input payload_1) =
    [("site_A", Some "stats of A"); ("site_B", Some "stats of B")] /\
  remote_1 payload_1 = Ok output_1_of_payload_1 /\
  cache payload_2_swapped = cache_1 output_1_of_payload_1 /\
  keys (input payload_2_swapped) = ["site_B"; "site_A"] /\
  run_remote_2 payload_2_swapped =
  (events_of payload_2_swapped,
   Ok (output_2_of [("site_B", "stats of A"); ("site_A", "stats of B")])).
Proof.
  repeat split; vm_compute; reflexivity.
Qed.

(** The two rounds of the two sites, listed in the same order. *)
Lemma local_stats_same_order_witness :
  (remote_1 payload_1 = Ok output_1_of_payload_1 /\
   cache payload_2 = cache_1 output_1_of_payload_1 /\
   run_remote_2 payload_2 =
   (events_of payload_2,
    Ok (output_2_of [("site_A", "stats of A"); ("site_B", "stats of B")])) /\
   keys (input payload_2) = keys (input payload_1)) /\
  Forall2 (fun (kv : string * fsite) (kb : string * string) =>
             fst kb = fst kv /\ local_stats_dict (snd kv) = Some (snd kb))
          (input payload_1)
          (local_stats
             (output_2
                (output_2_of [("site_A", "stats of A");
                              ("site_B", "stats of B")]))).
Proof.
  split; [split; [reflexivity |]; split; [reflexivity |];
          split; [exact run_payload_2 | reflexivity] |].
  exact (local_stats_same_order float_inv sample_t_to_p sample_encode_png
           payload_1 payload_2 output_1_of_payload_1 _ _
           eq_refl eq_refl run_payload_2 eq_refl).
Defined.

(** [remote_1] on the two sites with one mean and one count per output
    dimension. *)
Lemma remote_1_returns_witness :
  (input payload_1 =
     ("site_A", site_1 "stats of A" (mat [[1; 2]]) (vec [2]) (vec [10])) ::
     [("site_B", site_1 "stats of B" (mat [[3; 6]]) (vec [4]) (vec [30]))] /\
   X_labels (site_1 "stats of A" (mat [[1; 2]]) (vec [2]) (vec [10])) =
     Some labels /\
   y_labels (site_1 "stats of A" (mat [[1; 2]]) (vec [2]) (vec [10])) =
     Some ["voxel_0"] /\
   map local_stats_dict (values (input payload_1)) =
     map Some ["stats of A"; "stats of B"] /\
   map beta_vector_local (values (input payload_1)) =
     map Some [mat [[1; 2]]; mat [[3; 6]]] /\
   map mean_y_local (values (input payload_1)) =
     map Some [vec [2]; vec [4]] /\
   map count_local (values (input payload_1)) =
     map Some [vec [10]; vec [30]] /\
   Forall (fun b : fnd => rect b = true /\ shape b = [1; 2]%nat)
          [mat [[1; 2]]; mat [[3; 6]]] /\
   Forall (fun d : nat => d <> 0%nat) [1; 2]%nat /\
   Forall (fun m : fnd => rect m = true /\ shape m = [1%nat])
          [vec [2]; vec [4]] /\
   Forall (fun c : fnd => rect c = true /\ shape c = [1%nat])
          [vec [10]; vec [30]]) /\
  exists out, remote_1 payload_1 = Ok out.
Proof.
  assert (H1 : Forall (fun b : fnd => rect b = true /\ shape b = [1; 2]%nat)
                 [mat [[1; 2]]; mat [[3; 6]]])
    by (repeat constructor).
  assert (H0 : Forall (fun d : nat => d <> 0%nat) [1; 2]%nat)
    by (repeat constructor; discriminate).
  assert (H2 : Forall (fun m : fnd => rect m = true /\ shape m = [1%nat])
                 [vec [2]; vec [4]])
    by (repeat constructor).
  assert (H3 : Forall (fun c : fnd => rect c = true /\ shape c = [1%nat])
                 [vec [10]; vec [30]])
    by (repeat constructor).
  split.
  - do 7 (split; [reflexivity |]). now repeat split.
  - exact (remote_1_returns payload_1 _ _ labels ["voxel_0"]
             ["stats of A"; "stats of B"] [mat [[1; 2]]; mat [[3; 6]]]
             [vec [2]; vec [4]] [vec [10]; vec [30]]
             1%nat 2%nat [] [1%nat]
             eq_refl eq_refl eq_refl eq_refl eq_refl eq_refl eq_refl
             H1 H0 H2 H3).
Defined.

Lemma remote_1_missing_input_witness :
  remote_1 no_site_payload = Err IndexError /\
  remote_1 untagged_payload = Err (KeyError "X_labels") /\
  remote_1 no_stats_payload = Err (KeyError "local_stats_dict").
Proof.
  split; [| split].
  - exact (proj1 (remote_1_missing_input no_site_payload) eq_refl).
  - exact (proj1 (proj1 (proj2 (remote_1_missing_input untagged_payload))
                    _ _ eq_refl) eq_refl).
  - apply (proj2 (proj2 (proj1 (proj2 (remote_1_missing_input
                                          no_stats_payload)) _ _ eq_refl))).
    + discriminate.
    + discriminate.
    + now constructor.
Defined.

Lemma remote_1_returns_only_if_witness :
  remote_1 payload_1 = Ok output_1_of_payload_1 /\
  exists user rest Xl yl stats (betas means counts : list fnd) sb sm sc,
    input payload_1 = user :: rest /\
    X_labels (snd user) = Some Xl /\
    y_labels (snd user) = Some yl /\
    map local_stats_dict (values (input payload_1)) = map Some stats /\
    map beta_vector_local (values (input payload_1)) = map Some betas /\
    map mean_y_local (values (input payload_1)) = map Some means /\
    map count_local (values (input payload_1)) = map Some counts /\
    Forall (fun b => rect b = true /\ shape b = sb) betas /\
    (2 <= length sb)%nat /\
    Forall (fun m => rect m = true /\ shape m = sm) means /\
    Forall (fun c => rect c = true /\ shape c = sc) counts /\
    bshape (length means :: sm) (length counts :: sc) <> None.
Proof.
  split; [reflexivity |].
  exact (remote_1_returns_only_if payload_1 output_1_of_payload_1 eq_refl).
Defined.

Lemma remote_1_reads_only_witness :
  (map phase_1_fields (values (input payload_1_renamed)) =
   map phase_1_fields (values (input payload_1)) /\
   keys (input payload_1_renamed) <> keys (input payload_1) /\
   map X_labels (values (input payload_1_renamed)) <>
   map X_labels (values (input payload_1)) /\
   cache payload_1_renamed <> cache payload_1) /\
  remote_1 payload_1_renamed = remote_1 payload_1.
Proof.
  split.
  - split; [reflexivity |]. repeat split; discriminate.
  - exact (remote_1_reads_only payload_1 payload_1_renamed _ _ _ _
             eq_refl eq_refl eq_refl eq_refl eq_refl).
Defined.

Lemma remote_1_cache_witness :
  remote_1 payload_1 = Ok output_1_of_payload_1 /\
  exists user rest stats dof,
    input payload_1 = user :: rest /\
    out_computation_phase (output_1 output_1_of_payload_1) = "remote_1" /\
    cache_X_labels (cache_1 output_1_of_payload_1) = X_labels (snd user) /\
    cache_y_labels (cache_1 output_1_of_payload_1) = y_labels (snd user) /\
    cache_local_stats_dict (cache_1 output_1_of_payload_1) = Some stats /\
    map local_stats_dict (values (input payload_1)) = map Some stats /\
    cache_avg_beta_vector (cache_1 output_1_of_payload_1) =
      Some (out_avg_beta_vector (output_1 output_1_of_payload_1)) /\
    cache_mean_y_global (cache_1 output_1_of_payload_1) =
      Some (out_mean_y_global (output_1 output_1_of_payload_1)) /\
    cache_dof_global (cache_1 output_1_of_payload_1) = Some dof /\
    rect dof = true /\
    Forall (fun s : fsite =>
              exists c, count_local s = Some c /\ shape c = shape dof)
           (values (input payload_1)).
Proof.
  split; [reflexivity |].
  exact (remote_1_cache payload_1 output_1_of_payload_1 eq_refl).
Defined.

Lemma remote_1_beta_shapes_differ_witness :
  (map beta_vector_local (values (input uneven_payload)) =
     map Some [mat [[1; 2]]; mat [[3; 6]; [3; 6]]] /\
   shape (mat [[1; 2]]) <> shape (mat [[3; 6]; [3; 6]])) /\
  exists msg, remote_1 uneven_payload = Err (ValueError msg).
Proof.
  assert (Hne : shape (mat [[1; 2]]) <> shape (mat [[3; 6]; [3; 6]]))
    by discriminate.
  split; [split; [reflexivity | exact Hne] |].
  exact (remote_1_beta_shapes_differ uneven_payload _ _ labels ["voxel_0"]
           ["stats of A"; "stats of B"]
           [mat [[1; 2]]; mat [[3; 6]; [3; 6]]]
           (mat [[1; 2]]) (mat [[3; 6]; [3; 6]])
           eq_refl eq_refl eq_refl eq_refl eq_refl
           (or_introl eq_refl) (or_intror (or_introl eq_refl)) Hne).
Defined.

Lemma remote_1_int_count_mismatch_witness :
  (map mean_y_local (values (input int_count_payload_3)) =
     map Some [vec [0; 1; 2]; vec [0; 0; 0]] /\
   map count_local (values (input int_count_payload_3)) =
     map Some [Sc 10; Sc 30] /\
   length (values (input int_count_payload_3)) = 2%nat) /\
  exists msg, remote_1 int_count_payload_3 = Err (ValueError msg).
Proof.
  split; [now repeat split |].
  apply (remote_1_int_count_mismatch int_count_payload_3 _ _ labels
           ["voxel_0"] ["stats of A"; "stats of B"]
           [mat [[1; 2]; [1; 2]; [1; 2]]; mat [[3; 6]; [3; 6]; [3; 6]]]
           [vec [0; 1; 2]; vec [0; 0; 0]] [Sc 10; Sc 30]
           [3; 2]%nat 3%nat
           eq_refl eq_refl eq_refl eq_refl eq_refl eq_refl eq_refl).
  - repeat constructor.
  - repeat constructor; discriminate.
  - repeat constructor.
  - repeat constructor; eexists; reflexivity.
  - discriminate.
  - discriminate.
  - discriminate.
Defined.

Lemma remote_2_missing_input_witness :
  run_remote_2 payload_1 = ([], Err (KeyError "X_labels")) /\
  run_remote_2 no_site_payload_2 = ([], Err ZeroDivisionError).
Proof.
  split.
  - exact (proj1 (remote_2_missing_input float_inv sample_t_to_p
                    sample_encode_png payload_1) eq_refl).
  - apply (proj2 (proj2 (proj2 (proj2
             (remote_2_missing_input float_inv sample_t_to_p
                sample_encode_png no_site_payload_2)))));
      try discriminate; reflexivity.
Defined.

Lemma run_payload_2_three_sites :
  run_remote_2 payload_2_three_sites =
  (events_of payload_2_three_sites, Ok (output_2_of two_site_stats)).
Proof. vm_compute. reflexivity. Qed.

Lemma local_stats_truncated_witness :
  (run_remote_2 payload_2_three_sites =
   (events_of payload_2_three_sites, Ok (output_2_of two_site_stats)) /\
   keys (input payload_2_three_sites) = ["site_A"; "site_B"; "site_C"] /\
   cache_local_stats_dict (cache payload_2_three_sites) =
     Some ["stats of A"; "stats of B"]) /\
  keys (local_stats (output_2 (output_2_of two_site_stats))) =
    firstn 2 (keys (input payload_2_three_sites)) /\
  values (local_stats (output_2 (output_2_of two_site_stats))) =
    firstn 3 ["stats of A"; "stats of B"] /\
  length (local_stats (output_2 (output_2_of two_site_stats))) =
    Nat.min 3 2.
Proof.
  split; [split; [exact run_payload_2_three_sites | now split] |].
  exact (local_stats_truncated float_inv sample_t_to_p sample_encode_png
           payload_2_three_sites _ _ ["stats of A"; "stats of B"]
           run_payload_2_three_sites eq_refl).
Defined.

Lemma run_payload_2_other_SST :
  run_remote_2 payload_2_other_SST =
  (events_of payload_2_other_SST, Ok (output_2_of two_site_stats)).
Proof. vm_compute. reflexivity. Qed.

Lemma remote_2_drops_r_squared_witness :
  (map SST_local (values (input payload_2_other_SST)) <>
   map SST_local (values (input payload_2)) /\
   map SSE_local (values (input payload_2_other_SST)) =
   map SSE_local (values (input payload_2))) /\
  exists ps_global ts_global Xl beta,
    events_of payload_2 =
      [print_pvals payload_2 ps_global ts_global Xl;
       print_beta_images payload_2 beta Xl] /\
    events_of payload_2_other_SST =
      [print_pvals payload_2_other_SST ps_global ts_global Xl;
       print_beta_images payload_2_other_SST beta Xl] /\
    local_stats (output_2 (output_2_of two_site_stats)) =
    local_stats (output_2 (output_2_of two_site_stats)).
Proof.
  split; [split; [discriminate | reflexivity] |].
  exact (remote_2_drops_r_squared float_inv sample_t_to_p sample_encode_png
           payload_2 payload_2_other_SST _ _ _ _
           run_payload_2 run_payload_2_other_SST
           eq_refl eq_refl eq_refl eq_refl).
Defined.

Lemma run_scalar_payload_2_empty :
  run_remote_2 scalar_payload_2_empty =
  (no_statistics_events scalar_payload_2_empty,
   Ok (output_2_of two_site_stats)).
Proof. vm_compute. reflexivity. Qed.

Lemma int_counts_give_no_statistics_witness :
  (remote_1 scalar_payload = Ok scalar_output /\
   map count_local (values (input scalar_payload)) =
     map Some [Sc 10; Sc 30] /\
   cache scalar_payload_2_empty = cache_1 scalar_output) /\
  sum_over_sites "SSE_local" SSE_local (input scalar_payload_2_empty) =
    Ok (Ar []) /\
  exists Xl beta,
    no_statistics_events scalar_payload_2_empty =
    [print_pvals scalar_payload_2_empty [] [] Xl;
     print_beta_images scalar_payload_2_empty beta Xl].
Proof.
  split; [now repeat split |].
  apply (int_counts_give_no_statistics float_inv sample_t_to_p
           sample_encode_png scalar_payload scalar_payload_2_empty
           scalar_output _ (output_2_of two_site_stats) run_scalar_payload).
  - repeat constructor; eexists; reflexivity.
  - reflexivity.
  - exact run_scalar_payload_2_empty.
Defined.

Lemma remote_2_scalars_TypeError_witness :
  (cache_dof_global (cache scalar_payload_2) = Some (Sc 38) /\
   map SSE_local (values (input scalar_payload_2)) =
     map Some [Sc 30; Sc 46] /\
   map SST_local (values (input scalar_payload_2)) =
     map Some [Sc 100; Sc 200]) /\
  run_remote_2 scalar_payload_2 = ([], Err TypeError).
Proof.
  split; [now repeat split |].
  apply (remote_2_scalars_TypeError float_inv sample_t_to_p
           sample_encode_png scalar_payload_2 _ _ labels
           ["stats of A"; "stats of B"] (mat [[2; 4]]) (mat [[8; 0]; [0; 32]])
           38 eq_refl eq_refl eq_refl eq_refl eq_refl).
  - repeat constructor; eexists; reflexivity.
  - repeat constructor; eexists; reflexivity.
  - reflexivity.
Defined.

Lemma two_rounds_t_statistics_witness :
  (remote_1 payload_1 = Ok output_1_of_payload_1 /\
   cache payload_2 = cache_1 output_1_of_payload_1 /\
   float_inv (mat [[8; 0]; [0; 32]]) = Ok (mat [[0.125; 0]; [0; 0.03125]])) /\
  exists evs out2 SSE_global ts_global ps_global Xl,
    run_remote_2 payload_2 = (evs, Ok out2) /\
    In (print_pvals payload_2 ps_global ts_global Xl) evs /\
    sum_over_sites "SSE_local" SSE_local (input payload_2) = Ok SSE_global /\
    forall i j, (i < 1)%nat -> (j < 2)%nat ->
      exists bs cs sse_i inv_jj ts_i,
        elements [i; j] [mat [[1; 2]]; mat [[3; 6]]] = Some bs /\
        elements [i] [vec [10]; vec [30]] = Some cs /\
        nd_get [i] SSE_global = Some sse_i /\
        nd_get [j; j] (mat [[0.125; 0]; [0; 0.03125]]) = Some inv_jj /\
        nth_error ts_global i = Some ts_i /\
        nd_get [j] ts_i =
        Some (ndiv (ndiv (total bs) (of_nat 2))
                   (nsqrt (nmul (ndiv sse_i
                                      (nsub (total_from_zero cs) (of_nat 2)))
                                inv_jj))).
Proof.
  split; [now repeat split |].
  apply (two_rounds_t_statistics float_inv sample_t_to_p sample_encode_png
           payload_1 payload_2 output_1_of_payload_1
           ("site_A", site_2 (vec [30]) (vec [100]) (mat [[4; 0]; [0; 16]]))
           [("site_B", site_2 (vec [46]) (vec [200]) (mat [[4; 0]; [0; 16]]))]
           [mat [[1; 2]]; mat [[3; 6]]] [vec [10]; vec [30]]
           (mat [[8; 0]; [0; 32]]) (mat [[0.125; 0]; [0; 0.03125]])
           1%nat 2%nat run_payload_1 eq_refl eq_refl).
  - repeat constructor.
  - repeat constructor.
  - reflexivity.
  - reflexivity.
  - repeat constructor; eexists; repeat split; reflexivity.
  - repeat constructor; eexists; repeat split; reflexivity.
  - reflexivity.
  - reflexivity.
  - reflexivity.
  - reflexivity.
Defined.

Lemma remote_2_missing_field_witness :
  (cache stale_site_payload = cache_1 output_1_of_payload_1 /\
   map SSE_local (values (input stale_site_payload)) =
     [Some (vec [30]); None]) /\
  run_remote_2 stale_site_payload = ([], Err (KeyError "SSE_local")).
Proof.
  split; [now split |].
  apply (proj1 (remote_2_missing_field float_inv sample_t_to_p
                  sample_encode_png stale_site_payload labels
                  ["stats of A"; "stats of B"] (mat [[2; 4]]) (vec [38])
                  eq_refl eq_refl eq_refl eq_refl)).
  - apply Exists_cons_tl. now constructor.
  - repeat constructor; intros x Hx; [now injection Hx as <- | discriminate].
Defined.

Lemma remote_2_renders_then_returns_witness :
  (exists e, run_remote_2 singular_payload = ([], Err e)) /\
  ~ (exists e, run_remote_2 payload_2 = ([], Err e)).
Proof.
  split.
  - destruct (remote_2_renders_then_returns float_inv sample_t_to_p
                sample_encode_png singular_payload)
      as [H | (Xl & stats & beta & ts & ps & _ & _ & _ & _ & H)];
      [exact H | discriminate H].
  - intros [e He]. rewrite run_payload_2 in He. discriminate He.
Defined.

Lemma run_main_payload_2 :
  run_main payload_2 =
  (events_of payload_2 ++ [stdout_write_2 (output_2_of two_site_stats)],
   Ok tt).
Proof. vm_compute. reflexivity. Qed.

Lemma main_writes_last_witness :
  (run_main payload_2 =
   (events_of payload_2 ++ [stdout_write_2 (output_2_of two_site_stats)],
    Ok tt) /\
   run_main singular_payload = ([], Err LinAlgError)) /\
  exists evs' w,
    events_of payload_2 ++ [stdout_write_2 (output_2_of two_site_stats)] =
    evs' ++ [w] /\
    is_stdout_write w = true /\
    Forall (fun ev => is_stdout_write ev = false) evs'.
Proof.
  split; [split; [exact run_main_payload_2 | reflexivity] |].
  generalize (main_writes_last float_inv sample_t_to_p site_tags
                sample_encode_png payload_2).
  change (main float_inv sample_t_to_p site_tags sample_encode_png payload_2)
    with (run_main payload_2).
  rewrite run_main_payload_2. exact (fun H => H).
Defined.

(** On [int_count_payload] the second mean is weighted by the count of
    the second site: [(1 * 30 + 0 * 30) / (10 + 30) = 0.75]. *)
Lemma remote_1_int_count_weights_witness :
  (remote_1 int_count_payload = Ok int_count_output /\
   map mean_y_local (values (input int_count_payload)) =
     map Some [vec [0; 1]; vec [0; 0]] /\
   map count_local (values (input int_count_payload)) =
     map Some [Sc 10; Sc 30]) /\
  nd_get [1%nat] (out_mean_y_global (output_1 int_count_output)) =
    Some (ndiv (total [nmul 1 30; nmul 0 30]) (total [10; 30])) /\
  ndiv (total [nmul 1 30; nmul 0 30]) (total [10; 30]) = 0.75.
Proof.
  assert (Hrun : remote_1 int_count_payload = Ok int_count_output)
    by (vm_compute; reflexivity).
  split; [split; [exact Hrun | now split] |].
  split; [| reflexivity].
  apply (remote_1_int_count_weights int_count_payload int_count_output
           [vec [0; 1]; vec [0; 0]] [Sc 10; Sc 30] Hrun eq_refl eq_refl).
  - repeat constructor.
  - repeat constructor; eexists; reflexivity.
Defined.

Lemma remote_1_empty_coefficients_witness :
  (map beta_vector_local (values (input empty_coefficients_payload)) =
     map Some [mat [[]; []]; mat [[]; []]] /\
   shape (mat [[]; []]) = [2; 0]%nat) /\
  remote_1 empty_coefficients_payload = Err ZeroDivisionError.
Proof.
  split; [now split |].
  apply (remote_1_empty_coefficients empty_coefficients_payload _ _ labels
           ["voxel_0"] ["stats of A"; "stats of B"]
           [mat [[]; []]; mat [[]; []]] [2; 0]%nat
           eq_refl eq_refl eq_refl eq_refl eq_refl).
  - repeat constructor.
  - right. now left.
Defined.

End OnExamples.
